(** * Order submission and settlement engine of the trading-bot backend

    A shallow embedding of the order lifecycle of the repository:

    - [src/database/models/*.model.ts]: the rows of the relational store;
    - [routers/v1/on-chain-swap/utils] ([getUser],
      [transactionalCreateOrderAndSendToNetwork]) and
      [routers/v1/on-chain-swap/create] ([create]): order submission;
    - [cronjobs/check-confirmation.ts] and the cron job [start]: settlement.

    Asynchronous code is modelled in a state-and-exception monad over the
    store and a chronological log of observable events (database statements,
    RPC calls, broadcasts, transaction boundaries).  What the program cannot
    decide itself (the network, the price cache, the transaction builder, row
    locks held by other sessions, the order in which concurrently started
    calls reach the database) is an explicit environment [Env]. *)

From Stdlib Require Import ZArith QArith Qround String Ascii List Lia DecimalString.
From stdpp Require Import base option list gmap strings.

Open Scope string_scope.
Open Scope list_scope.
Open Scope Z_scope.

(** ** JavaScript and library primitives *)

(** [String.prototype.toLowerCase] on the ASCII range. *)
Definition lowerAscii (c : ascii) : ascii :=
  let n := nat_of_ascii c in
  if (Nat.leb 65 n && Nat.leb n 90)%bool then ascii_of_nat (n + 32) else c.

Fixpoint toLowerCase (s : string) : string :=
  match s with
  | EmptyString => EmptyString
  | String c r => String (lowerAscii c) (toLowerCase r)
  end.

(** Truthiness of a nullable string: [null] and [''] are falsy. *)
Definition truthyStr (s : option string) : bool :=
  match s with
  | Some (String _ _) => true
  | _ => false
  end.

(** Plain decimal rendering of an integer. *)
Definition decimalText (z : Z) : string := NilZero.string_of_int (Z.to_int z).

Fixpoint stripTrailingZeros (s : string) : string :=
  match s with
  | EmptyString => EmptyString
  | String c r =>
      match stripTrailingZeros r with
      | EmptyString => if Ascii.eqb c "0" then EmptyString else String c EmptyString
      | r' => String c r'
      end
  end.

(** [BigNumber.prototype.toString] of an integer value, with bignumber.js's
    default [EXPONENTIAL_AT = [-7, 20]]: values of 22 digits or more are
    printed in exponential notation ([1e+21], [1.5e+30]). *)
Definition bnToString (z : Z) : string :=
  if Z.abs z <? 10 ^ 21 then decimalText z
  else
    let ds := decimalText (Z.abs z) in
    let e := Z.of_nat (String.length ds) - 1 in
    let coeff :=
      match stripTrailingZeros ds with
      | String c EmptyString => String c EmptyString
      | String c r => String c ("." +:+ r)
      | EmptyString => EmptyString
      end in
    (if z <? 0 then "-" else "") +:+ coeff +:+ "e+" +:+ decimalText e.

Fixpoint zeros (n : nat) : string :=
  match n with
  | O => EmptyString
  | S k => String "0" (zeros k)
  end.

(** Text of an integer-valued [numeric(p, scale)] column as PostgreSQL sends
    it and Sequelize's [DECIMAL] hands it to JavaScript unchanged: the value
    is padded to exactly [scale] fractional digits. *)
Definition pgNumericText (scale : nat) (z : Z) : string :=
  match scale with
  | O => decimalText z
  | S _ => decimalText z +:+ "." +:+ zeros scale
  end.

(** validator.js [isNumeric] (default options): [^[+-]?([0-9]*[.])?[0-9]+$]. *)
Definition isDigit (c : ascii) : bool :=
  let n := nat_of_ascii c in (Nat.leb 48 n && Nat.leb n 57)%bool.

Fixpoint allDigits (s : string) : bool :=
  match s with
  | EmptyString => true
  | String c r => (isDigit c && allDigits r)%bool
  end.

Fixpoint numericBody (s : string) : bool :=
  match s with
  | EmptyString => false
  | String c r =>
      if Ascii.eqb c "." then (negb (String.eqb r "") && allDigits r)%bool
      else if isDigit c then (String.eqb r "" || numericBody r)%bool
      else false
  end.

Definition isNumeric (s : string) : bool :=
  match s with
  | String c r =>
      if (Ascii.eqb c "+" || Ascii.eqb c "-")%bool then numericBody r else numericBody s
  | EmptyString => false
  end.

(** bignumber.js rounding to [DECIMAL_PLACES = 20] with [ROUND_HALF_UP]
    (ties away from zero), applied by [div] and by [pow] with a negative
    exponent. *)
Definition bnRound20 (q : Q) : Q :=
  let s := (q * inject_Z (10 ^ 20))%Q in
  let r := if Qle_bool 0 s then Qfloor (s + (1 # 2))%Q
           else - Qfloor ((- s) + (1 # 2))%Q in
  Qmake r (Z.to_pos (10 ^ 20)).

Definition bnDiv (a b : Q) : Q := bnRound20 (a / b)%Q.

(** [new BigNumber(10).pow(d)] for an integer [d]. *)
Definition bnPow10 (d : Z) : Q :=
  if 0 <=? d then inject_Z (10 ^ d) else bnRound20 (1 / inject_Z (10 ^ (- d)))%Q.

(** [a.gt(b)] *)
Definition bnGt (a b : Q) : bool := negb (Qle_bool a b).

(** ** Rows of the store *)

Inductive OrderDirection := buy | sell.
Inductive OrderType := swap | limit | dca.
Inductive OrderStatus :=
  | created | processing | submitting | submitted | confirming
  | confirmed | failed | limit_new | limit_filled | limit_partially_filled.
Inductive WalletStatus := active | suspended.

#[global] Instance OrderDirection_eq_dec : EqDecision OrderDirection.
Proof. solve_decision. Defined.
#[global] Instance OrderType_eq_dec : EqDecision OrderType.
Proof. solve_decision. Defined.
#[global] Instance OrderStatus_eq_dec : EqDecision OrderStatus.
Proof. solve_decision. Defined.

(** Primary keys ([BIGINT], auto-increment) are the keys of the tables below
    and are not repeated inside the rows. *)

Module Key.
Record t := mk { privateKey : string }.
End Key.

Module Token.
Record t := mk { contractAddress : string; unitDecimals : Z }.
End Token.

Module Wallet.
Record t := mk {
  userId : Z;
  parentId : option Z;
  tokenId : Z;
  keyId : Z;
  address : string;
  confirmedBalance : Z;     (* DECIMAL(78, 0) *)
  unconfirmedBalance : Z;   (* DECIMAL(78, 0) *)
  status : WalletStatus
}.

(** [UPDATE wallets SET confirmed_balance = confirmed_balance + dc,
    unconfirmed_balance = unconfirmed_balance + du] on one row. *)
Definition addBalances (dc du : Z) (w : t) : t :=
  mk (userId w) (parentId w) (tokenId w) (keyId w) (address w)
     (confirmedBalance w + dc) (unconfirmedBalance w + du) (status w).
End Wallet.

Module Market.
Record t := mk {
  poolAddress : string;
  baseTokenId : Z;
  quoteTokenId : Z;
  isRevoked : bool
}.
End Market.

Module User.
Record t := mk {
  telegramId : Z;
  defaultWalletId : option Z;
  selectedTransactionId : string;
  selectedOrderDirection : OrderDirection;
  selectedOrderType : OrderType;
  selectedPoolAddress : option string;
  selectedInputMint : option string;
  selectedOutputMint : option string;
  selectedInputAmount : Q;            (* DECIMAL(156, 78) *)
  selectedInputDecimals : Z;
  selectedEstimatedOutput : option Q; (* DECIMAL(156, 78) *)
  selectedOutputDecimals : Z;
  selectedPriceImpact : Z;
  selectedSellPercent : Z;
  selectedSellAmount : Q;             (* DECIMAL(156, 78) *)
  selectedTokenUsdPrice : Q;          (* DECIMAL(20, 7) *)
  selectedSlippage : Z;
  selectedLimitOutAmount : Z;
  selectedDCAInAmount : Z;
  selectedDCAInAmountPerCycle : Z;
  selectedDCACycleSecondsApart : Z
}.
End User.

Record BlockHash := mkBlockHash {
  blockhash : string;
  lastValidBlockHeight : Z
}.

Record OrderDetails := mkOrderDetails {
  recentBlockHash : option BlockHash;
  estimatedPriorityFee : Z
}.

Module Order.
Record t := mk {
  userId : Z;
  marketId : Z;
  inputWalletId : Z;
  outputWalletId : Z;
  transactionId : option string;  (* unique *)
  inAmount : Z;                   (* DECIMAL(78, 0) *)
  inAmountInUsd : Q;              (* DECIMAL(20, 7) *)
  outAmount : option Z;           (* DECIMAL(78, 0), nullable *)
  commission : Z;                 (* DECIMAL(78, 0) *)
  networkFee : Z;                 (* DECIMAL(78, 0) *)
  orderType : OrderType;
  orderDirection : OrderDirection;
  succeeded : bool;
  status : OrderStatus;
  details : option OrderDetails
}.

(** The columns the settlement code assigns before [order.save()]. *)
Definition settle (out : option Z) (fee : Z) (st : OrderStatus) (ok : bool)
    (o : t) : t :=
  mk (userId o) (marketId o) (inputWalletId o) (outputWalletId o)
     (transactionId o) (inAmount o) (inAmountInUsd o) out (commission o) fee
     (orderType o) (orderDirection o) ok st (details o).
End Order.

Module PnL.
Record t := mk {
  walletId : Z;
  cumulativeBuyQuantity : Z;          (* DECIMAL(156, 78) *)
  cumulativeBuyCostInUsd : Q;         (* DECIMAL(20, 7) *)
  cumulativeBuyCostInSol : Z;         (* DECIMAL(156, 78) *)
  cumulativeSellQuantity : Z;         (* DECIMAL(156, 78) *)
  cumulativeSellProceedsInUsd : Q;    (* DECIMAL(20, 7) *)
  cumulativeSellProceedsInSol : Z;    (* DECIMAL(156, 78) *)
  isClosed : bool
}.
End PnL.

(** The store.  Quantities are exact integers: the columns are
    fixed-point numerics and the program only ever adds integers to them;
    column precision limits are not modelled. *)
Record DB := mkDB {
  users : gmap Z User.t;
  wallets : gmap Z Wallet.t;
  keys : gmap Z Key.t;
  tokens : gmap Z Token.t;
  markets : gmap Z Market.t;
  orders : gmap Z Order.t;
  pnls : gmap Z PnL.t
}.

Inductive Table := TUsers | TWallets | TKeys | TTokens | TMarkets | TOrders | TPnls.

(** ** The environment of one operation *)

Inductive JsError :=
  | Error (message : string)
  | TransactionExpiredBlockheightExceededError (signature : string)
  | SequelizeValidationError (field : string)
  | SequelizeUniqueConstraintError (field : string).

(** ** JavaScript numbers holding integers

    Lamport balances arrive as integers in the JSON of the RPC and are read
    as JavaScript numbers (IEEE-754 doubles): an integer of 2^53 or more is
    rounded to the nearest double, ties to even.  Sums and differences are
    rounded in the same way; a missing array entry is [undefined], and
    arithmetic on it gives [NaN]. *)
Inductive JsNumber := Finite (z : Z) | PlusInfinity | MinusInfinity | NaN.

(** The nearest double of an integer, as long as it is finite. *)
Definition roundInteger (z : Z) : Z :=
  let a := Z.abs z in
  if a <? 2 ^ 53 then z
  else
    let e := Z.log2 a - 52 in
    let q := a / 2 ^ e in
    let r := a mod 2 ^ e in
    let half := 2 ^ (e - 1) in
    let q' := if ((half <? r) || ((r =? half) && Z.odd q))%bool then q + 1 else q in
    Z.sgn z * (q' * 2 ^ e).

Definition toNumber (z : Z) : JsNumber :=
  let r := roundInteger z in
  if 2 ^ 1024 <=? r then PlusInfinity
  else if r <=? - 2 ^ 1024 then MinusInfinity
  else Finite r.

Definition jsNeg (x : JsNumber) : JsNumber :=
  match x with
  | Finite z => Finite (- z)
  | PlusInfinity => MinusInfinity
  | MinusInfinity => PlusInfinity
  | NaN => NaN
  end.

(** [x + y] *)
Definition jsAdd (x y : JsNumber) : JsNumber :=
  match x, y with
  | Finite a, Finite b => toNumber (a + b)
  | NaN, _ | _, NaN => NaN
  | PlusInfinity, MinusInfinity | MinusInfinity, PlusInfinity => NaN
  | PlusInfinity, _ | _, PlusInfinity => PlusInfinity
  | MinusInfinity, _ | _, MinusInfinity => MinusInfinity
  end.

(** [x - y] *)
Definition jsSub (x y : JsNumber) : JsNumber := jsAdd x (jsNeg y).

(** [arr[i]] of an array of balances, [i] being the result of [findIndex]
    ([None] for [-1]): [undefined] outside the array. *)
Definition balanceAt (arr : list Z) (i : option nat) : option JsNumber :=
  idx ← i; toNumber <$> arr !! idx.

(** [a - b] where an operand may be [undefined]. *)
Definition jsSubUndefined (a b : option JsNumber) : JsNumber :=
  match a, b with
  | Some x, Some y => jsSub x y
  | _, _ => NaN
  end.

(** bn.js [new BN(number)]: the constructor initialises from [number || 0],
    so [NaN] gives zero, and asserts the magnitude to be below 2^53. *)
Definition newBN (x : JsNumber) : JsError + Z :=
  match x with
  | NaN => inr 0
  | Finite z => if Z.abs z <? 2 ^ 53 then inr z else inl (Error "Assertion failed")
  | PlusInfinity | MinusInfinity => inl (Error "Assertion failed")
  end.

(** [meta.preTokenBalances] / [meta.postTokenBalances] entries;
    [amount] is [uiTokenAmount.amount]. *)
Record TokenBalance := mkTokenBalance {
  mint : string;
  owner : option string;
  amount : Z
}.

(** [meta] of a parsed transaction; [err] is the truthiness of [meta.err].
    [preBalances] and [postBalances] hold the integers of the response; the
    program reads them as JavaScript numbers ([toNumber]). *)
Record TxMeta := mkTxMeta {
  err : bool;
  fee : Z;
  preBalances : list Z;
  postBalances : list Z;
  preTokenBalances : option (list TokenBalance);
  postTokenBalances : option (list TokenBalance)
}.

Record ParsedTransactionWithMeta := mkParsedTx {
  accountKeys : list string;   (* message.accountKeys[i].pubkey.toBase58() *)
  meta : option TxMeta
}.

(** What the Transaction Builder is asked ([createSwapTransaction]) and what
    it returns once the message is compiled and signed; [signature] is
    [bs58.encode(transaction.signatures[0])], [rawInAmount] the input amount
    in minor units. *)
Record SwapRequest := mkSwapRequest {
  req_poolAddress : option string;
  req_inputMint : option string;
  req_outputMint : option string;
  req_amount : Q;
  req_estimatedOutput : option Q;
  req_tokenUsdPrice : Q;
  req_slippage : Z;
  req_direction : OrderDirection;
  req_priorityFee : Z
}.

Record SignedSwap := mkSignedSwap {
  signature : string;
  inputATA : string;
  outputATA : string;
  rawInAmount : Z;
  inAmountInUsd : Q;
  ourFeeInLamports : Z
}.

(** The order in which three concurrently started calls take effect. *)
Inductive Perm3 := P123 | P132 | P213 | P231 | P312 | P321.

(** Whether the first call takes effect before the second. *)
Definition firstBeforeSecond (p : Perm3) : bool :=
  match p with
  | P123 | P132 | P312 => true
  | P213 | P231 | P321 => false
  end.

(** How the calls started together by one [Promise.all] run: the order in
    which they take effect, and for each call (by its position in the
    array) whether it still takes effect when another call has rejected
    before it. *)
Record Turn := mkTurn {
  turnOrder : Perm3;
  completes : nat → bool
}.

(** The places where the program starts several calls at once with
    [Promise.all]. *)
Inductive PromiseSite :=
  | AtSubmission      (* [user.save, Order.create, Wallet.update] *)
  | AtSettleSuccess   (* [order.save, updateWalletBalances, updateOrCreatePnL] *)
  | AtSettleFailure   (* [order.save, updateWalletBalances] *)
  | AtWalletBalances  (* the [Wallet.update]s of [updateWalletBalances] *)
  | AtResponse.       (* the three reads for the response of [create] *)

(** Everything outside the program.  The [nat] argument of an oracle is the
    logical time of the call (the number of events logged so far), so that
    two calls with the same arguments may answer differently.
    [locked t id] says that row [id] of table [t] is locked by another
    session ([FOR UPDATE SKIP LOCKED] does not return such rows).
    [schedule site t] says how the calls started together at [site] run:
    it depends on the timing of the event loop and of the database
    connection, not on the program. *)
Record Env := mkEnv {
  locked : Table → Z → bool;
  schedule : PromiseSite → nat → Turn;
  confirmTransaction : nat → string → BlockHash → JsError + bool;
  getParsedTransaction : nat → string → JsError + option ParsedTransactionWithMeta;
  sendRawTransaction : nat → string → JsError + string;
  priceUsdByTokenAddress : nat → string → JsError + Q;
  poolInfoByPoolAddress : nat → string → JsError + unit;
  createSwapTransaction : nat → SwapRequest → JsError + SignedSwap;
  webhookPost : nat → Z → bool → JsError + unit;
  priorityFeeHigh : Z;
  currentBlockhash : BlockHash
}.

(** ** Worlds, events and the monad *)

(** The log records, in the order in which they happen, the boundaries of
    database transactions, the writes of rows, the broadcasts, and what the
    reconciler asks of the outside (confirmation, lookup by signature, the
    SOL price) and tells it (webhook).  Reads of the store, and the
    requests that a submission makes before it opens its database
    transaction (price, transaction builder), are not events. *)
Inductive Event :=
  | EvBegin
  | EvCommit
  | EvRollback
  | EvInsert (t : Table) (id : Z)
  | EvUpdate (t : Table) (id : Z)
  | EvBroadcast (sig : string)
  | EvConfirmTransaction (sig : string)
  | EvGetParsedTransaction (sig : string)
  | EvPriceRequest (tokenAddress : string)
  | EvWebhook (telegramId : Z) (success : bool).

Record World := mkWorld {
  db : DB;
  log : list Event
}.

Definition M (A : Type) : Type := World → (JsError + A) * World.

Definition ret {A} (a : A) : M A := fun w => (inr a, w).

Definition throw {A} (e : JsError) : M A := fun w => (inl e, w).

Definition bind {A B} (m : M A) (k : A → M B) : M B := fun w =>
  match m w with
  | (inl e, w') => (inl e, w')
  | (inr a, w') => k a w'
  end.

Notation "'let*' x ':=' m 'in' k" := (bind m (fun x => k))
  (at level 10, x pattern, m at level 100, k at level 200, only parsing).
Notation "m1 ';;' m2" := (bind m1 (fun _ => m2))
  (at level 100, m2 at level 200, right associativity, only parsing).

(** [try { m } catch (e) { h(e) }] *)
Definition tryCatch {A} (m : M A) (h : JsError → M A) : M A := fun w =>
  match m w with
  | (inl e, w') => h e w'
  | (inr a, w') => (inr a, w')
  end.

(** Lift an answer of the environment: a thrown error or a value. *)
Definition await {A} (r : JsError + A) : M A := fun w => (r, w).

Definition getDb : M DB := fun w => (inr (db w), w).
Definition now : M nat := fun w => (inr (length (log w)), w).
Definition emit (e : Event) : M unit := fun w =>
  (inr tt, mkWorld (db w) (log w ++ [e])).
Definition modifyDb (f : DB → DB) : M unit := fun w =>
  (inr tt, mkWorld (f (db w)) (log w)).

(** A call started under [Promise.all] that is still pending when another
    call rejects.  Its promise is no longer awaited; whether it still takes
    effect ([completes]) is given. *)
Definition pending {A} (completes : bool) (m : M A) : World → World :=
  fun w => if completes then (m w).2 else w.

(** [m]; when it rejects, the calls still pending run on ([rest]). *)
Definition orPending {A} (m : M A) (rest : World → World) : M A := fun w =>
  match m w with
  | (inl e, w1) => (inl e, rest w1)
  | (inr a, w1) => (inr a, w1)
  end.

(** [Promise.all([a, b])].  Both calls are started at once; the turn [s]
    gives which of them takes effect first.  The result rejects with the
    first rejection; the call that is pending then runs on or not, as [s]
    says, and its outcome is ignored.  The values are returned in array
    order. *)
Definition promiseAll2 {A B} (s : Turn) (a : M A) (b : M B) : M (A * B) :=
  if firstBeforeSecond (turnOrder s) then
    let* x := orPending a (pending (completes s 1) b) in
    let* y := b in ret (x, y)
  else
    let* y := orPending b (pending (completes s 0) a) in
    let* x := a in ret (x, y).

(** [Promise.all([a, b, c])] *)
Definition promiseAll3 {A B C} (s : Turn) (a : M A) (b : M B) (c : M C)
    : M (A * B * C) :=
  let pa := pending (completes s 0) a in
  let pb := pending (completes s 1) b in
  let pc := pending (completes s 2) c in
  match turnOrder s with
  | P123 => let* x := orPending a (fun w => pc (pb w)) in
            let* y := orPending b pc in let* z := c in ret (x, y, z)
  | P132 => let* x := orPending a (fun w => pb (pc w)) in
            let* z := orPending c pb in let* y := b in ret (x, y, z)
  | P213 => let* y := orPending b (fun w => pc (pa w)) in
            let* x := orPending a pc in let* z := c in ret (x, y, z)
  | P231 => let* y := orPending b (fun w => pa (pc w)) in
            let* z := orPending c pa in let* x := a in ret (x, y, z)
  | P312 => let* z := orPending c (fun w => pb (pa w)) in
            let* x := orPending a pb in let* y := b in ret (x, y, z)
  | P321 => let* z := orPending c (fun w => pa (pb w)) in
            let* y := orPending b pa in let* x := a in ret (x, y, z)
  end.

(** [sequelize.transaction(cb)] (managed transaction): [BEGIN], run the
    callback, [COMMIT] when it resolves, [ROLLBACK] and rethrow when it
    rejects.  A rollback restores the store as it was at [BEGIN]. *)
Definition transaction {A} (cb : M A) : M A := fun w =>
  let w0 := mkWorld (db w) (log w ++ [EvBegin]) in
  match cb w0 with
  | (inr a, w1) => (inr a, mkWorld (db w1) (log w1 ++ [EvCommit]))
  | (inl e, w1) => (inl e, mkWorld (db w) (log w1 ++ [EvRollback]))
  end.

(** ** ORM primitives *)

(** [Model.findOne({where})]: some row satisfying the predicate. *)
Definition findOne {V} (P : Z → V → bool) (m : gmap Z V) : option (Z * V) :=
  List.find (fun kv => P kv.1 kv.2) (map_to_list m).

(** [Model.findAll({where})] *)
Definition findAll {V} (P : Z → V → bool) (m : gmap Z V) : list (Z * V) :=
  List.filter (fun kv => P kv.1 kv.2) (map_to_list m).

(** The next value of an auto-increment key: an id that is not in use. *)
Definition maxKey {V} (m : gmap Z V) : Z :=
  foldr (fun kv acc => Z.max kv.1 acc) 0 (map_to_list m).
Definition nextId {V} (m : gmap Z V) : Z := maxKey m + 1.

(** Validators [{min: 0, isNumeric: true}] on the text [bnToString z] that
    the program passes for an integer amount. *)
Definition validAmountText (z : Z) : bool := (isNumeric (bnToString z) && (0 <=? z))%bool.

(** The same validators on [BigNumber.prototype.toString] of a decimal
    value [q], which is what the callers pass for [inAmountInUsd]: the text
    is in exponential notation, which [isNumeric] refuses, when the decimal
    exponent of a non-zero [q] is at most [-7] or at least [21]. *)
Definition validUsdText (q : Q) : bool :=
  (Qle_bool 0 q &&
   (Qeq_bool q 0 ||
    (Qle_bool (1 # 1000000) q && negb (Qle_bool (inject_Z (10 ^ 21)) q))))%bool.

Definition withUsers (f : gmap Z User.t → gmap Z User.t) (d : DB) : DB :=
  mkDB (f (users d)) (wallets d) (keys d) (tokens d) (markets d) (orders d) (pnls d).
Definition withWallets (f : gmap Z Wallet.t → gmap Z Wallet.t) (d : DB) : DB :=
  mkDB (users d) (f (wallets d)) (keys d) (tokens d) (markets d) (orders d) (pnls d).
Definition withOrders (f : gmap Z Order.t → gmap Z Order.t) (d : DB) : DB :=
  mkDB (users d) (wallets d) (keys d) (tokens d) (markets d) (f (orders d)) (pnls d).
Definition withPnls (f : gmap Z PnL.t → gmap Z PnL.t) (d : DB) : DB :=
  mkDB (users d) (wallets d) (keys d) (tokens d) (markets d) (orders d) (f (pnls d)).

(** [Wallet.update({confirmedBalance: literal(confirmed_balance + dc),
    unconfirmedBalance: literal(unconfirmed_balance + du)}, {where: {id}})].
    Values given as [Sequelize.literal] are not validated; a missing row is
    not an error. *)
Definition Wallet_update (id dc du : Z) : M unit :=
  modifyDb (withWallets (alter (Wallet.addBalances dc du) id));;
  emit (EvUpdate TWallets id).

(** [Wallet.create({... confirmedBalance: '0', unconfirmedBalance: '0'})] *)
Definition Wallet_create (w : Wallet.t) : M Z :=
  let* d := getDb in
  let id := nextId (wallets d) in
  modifyDb (withWallets (insert id w));;
  emit (EvInsert TWallets id);;
  ret id.

(** [user.save()]: the assigned columns are written to the user's row. *)
Definition User_save (id : Z) (u : User.t) : M unit :=
  modifyDb (withUsers (alter (fun _ => u) id));;
  emit (EvUpdate TUsers id).

(** [Order.create(row)]: the validators of the model run first
    ([inAmount], [inAmountInUsd], [commission], [networkFee]: [min: 0],
    [isNumeric]; the texts of [commission], a [bigint], and of [networkFee],
    ['0'], are plain digits), then the row is inserted; [transactionId] is
    unique.  Keys of the object that are not columns of the model
    ([limitOrder], [dcaPubKey]) are not part of the row. *)
Definition Order_create (o : Order.t) : M Z :=
  if negb (validAmountText (Order.inAmount o)) then
    throw (SequelizeValidationError "inAmount")
  else if negb (validUsdText (Order.inAmountInUsd o)) then
    throw (SequelizeValidationError "inAmountInUsd")
  else if negb (0 <=? Order.commission o) then
    throw (SequelizeValidationError "commission")
  else if negb (0 <=? Order.networkFee o) then
    throw (SequelizeValidationError "networkFee")
  else
    let* d := getDb in
    match Order.transactionId o,
          findOne (fun _ o' => bool_decide (Order.transactionId o' = Order.transactionId o))
                  (orders d) with
    | Some _, Some _ => throw (SequelizeUniqueConstraintError "transactionId")
    | _, _ =>
        let id := nextId (orders d) in
        modifyDb (withOrders (insert id o));;
        emit (EvInsert TOrders id);;
        ret id
    end.

(** ** routers/v1/user/utils *)

Definition NATIVE_MINT : string := "So11111111111111111111111111111111111111112".
Definition NATIVE_MINT_2022 : string := "9pan9bMn5HatX4EJdBwg9VgCa7Uz5HL8N1m5D3NdXejP".

Definition LOG_PREFIX_USER : string := "USER: ".
Definition LOG_PREFIX_ORDER : string := "ORDER: ".
Definition LOG_PREFIX_CRON : string := "CHECK_CONFIRMATION_CRONJOB: ".

(** [getWalletBalance(userId, inputMint)]: the user's wallet of the token
    whose lower-cased contract address is [inputMint] lower-cased, with its
    [confirmedBalance] divided by [10 ^ unitDecimals]. *)
Definition getWalletBalance (userId : Z) (inputMint : string)
    : M (Z * Wallet.t * Q) :=
  let* d := getDb in
  match findOne (fun _ w =>
           (bool_decide (Wallet.userId w = userId) &&
            match tokens d !! Wallet.tokenId w with
            | Some tk => String.eqb (toLowerCase (Token.contractAddress tk))
                                    (toLowerCase inputMint)
            | None => false
            end)%bool) (wallets d) with
  | None => throw (Error (LOG_PREFIX_USER +:+ "Wallet not found."))
  | Some (id, w) =>
      match tokens d !! Wallet.tokenId w with
      | None => throw (Error (LOG_PREFIX_USER +:+ "Wallet not found."))
      | Some tk =>
          ret (id, w, bnDiv (inject_Z (Wallet.confirmedBalance w))
                            (bnPow10 (Token.unitDecimals tk)))
      end
  end.

(** [getCurrentPnL(walletId)] *)
Definition getCurrentPnL (walletId : Z) : M (Z * PnL.t) :=
  let* d := getDb in
  match findOne (fun _ p => (bool_decide (PnL.walletId p = walletId) &&
                             negb (PnL.isClosed p))%bool) (pnls d) with
  | None => throw (Error (LOG_PREFIX_USER +:+
                          "User doesn't have any open positions for this token."))
  | Some p => ret p
  end.

(** [getMarketByPoolAddress(poolAddress)] (base and quote token required) *)
Definition getMarketByPoolAddress (poolAddress : string) : M (Z * Market.t) :=
  let* d := getDb in
  match findOne (fun _ m =>
           (String.eqb (Market.poolAddress m) poolAddress &&
            bool_decide (is_Some (tokens d !! Market.baseTokenId m)) &&
            bool_decide (is_Some (tokens d !! Market.quoteTokenId m)))%bool)
          (markets d) with
  | None => throw (Error (LOG_PREFIX_USER +:+ "Market not found."))
  | Some m => ret m
  end.

(** ** routers/v1/on-chain-swap/utils *)

(** A user loaded with [include: defaultWallet (required) -> key (required)]. *)
Record LoadedUser := mkLoadedUser {
  lu_id : Z;
  lu_user : User.t;
  lu_defaultWalletId : Z;
  lu_defaultWallet : Wallet.t;
  lu_keyId : Z;
  lu_key : Key.t
}.

Definition joinUser (d : DB) (id : Z) (u : User.t) : option LoadedUser :=
  match User.defaultWalletId u with
  | None => None
  | Some wid =>
      match wallets d !! wid with
      | None => None
      | Some w =>
          match keys d !! Wallet.keyId w with
          | None => None
          | Some k => Some (mkLoadedUser id u wid w (Wallet.keyId w) k)
          end
      end
  end.

Definition isNativeMint (m : option string) : bool :=
  match m with
  | Some a => (String.eqb a NATIVE_MINT || String.eqb a NATIVE_MINT_2022)%bool
  | None => false
  end.

(** [getUser(telegramId)].  The checks on [defaultWalletId], [defaultWallet],
    [key] and on the direction cannot fail once the joined row is found, and
    [selectedInputAmount] is a non-empty decimal text, always truthy. *)
Definition getUser (telegramId : Z) : M LoadedUser :=
  let* d := getDb in
  match findOne (fun id u => (bool_decide (User.telegramId u = telegramId) &&
                              bool_decide (is_Some (joinUser d id u)))%bool) (users d) with
  | None => throw (Error (LOG_PREFIX_ORDER +:+ "User not found."))
  | Some (id, u) =>
      match joinUser d id u with
      | None => throw (Error (LOG_PREFIX_ORDER +:+ "User not found."))
      | Some lu =>
          if User.selectedSellPercent u =? 0 then
            throw (Error "user sell percent not set")
          else if negb (truthyStr (User.selectedPoolAddress u)) then
            throw (Error "user pool address not set")
          else if negb (truthyStr (User.selectedInputMint u)) then
            throw (Error "user input mint not set")
          else if negb (truthyStr (User.selectedOutputMint u)) then
            throw (Error "user output mint not set")
          else if negb (bool_decide (is_Some (User.selectedEstimatedOutput u))) then
            throw (Error "user estimated output not set")
          else if
            match User.selectedOrderDirection u with
            | buy => isNativeMint (User.selectedInputMint u)
            | sell => isNativeMint (User.selectedOutputMint u)
            end
          then ret lu
          else throw (Error (LOG_PREFIX_ORDER +:+
                             "Selected user fields for swap are not set correctly."))
      end
  end.

(** The assignments between the two "Reset order direction" comment lines
    (and [selectedTransactionId] just above them). *)
Definition resetSelection (transactionId : string) (u : User.t) : User.t :=
  User.mk (User.telegramId u) (User.defaultWalletId u)
    transactionId            (* selectedTransactionId *)
    buy                      (* selectedOrderDirection = 'buy' *)
    swap                     (* selectedOrderType = 'swap' *)
    None None None           (* pool address, input mint, output mint = null *)
    (User.selectedInputAmount u)
    0                        (* selectedInputDecimals *)
    None                     (* selectedEstimatedOutput *)
    0 0                      (* selectedOutputDecimals, selectedPriceImpact *)
    (User.selectedSellPercent u)
    0%Q 0%Q                  (* selectedSellAmount, selectedTokenUsdPrice = '0' *)
    (User.selectedSlippage u) (User.selectedLimitOutAmount u)
    0 0 0.                   (* DCA fields *)

Section Operations.

Variable env : Env.

(** [txExecutor.execute(transaction)]: [connection.sendRawTransaction]. *)
Definition execute (sig : string) : M string :=
  let* t := now in
  emit (EvBroadcast sig);;
  await (sendRawTransaction env t sig).

Definition transactionalCreateOrderAndSendToNetwork
    (userId : Z) (transactionSig : string) (inputATA outputATA : string)
    (rawAmount : Z) (amountInUsd : Q) (ourFeeInLamports : Z) (priorityFee : Z)
    (recentBlockhash : BlockHash) (limitOrder dcaPubKey : option string)
    : M string :=
  transaction (
    let* d := getDb in
    (* User.findOne({where: {id}, include: defaultWallet -> key,
                     lock: true, skipLocked: true}) *)
    let user :=
      match users d !! userId with
      | None => None
      | Some u =>
          match joinUser d userId u with
          | Some lu =>
              if (locked env TUsers userId || locked env TWallets (lu_defaultWalletId lu)
                  || locked env TKeys (lu_keyId lu))%bool
              then None else Some lu
          | None => None
          end
      end in
    match user with
    | None => throw (Error (LOG_PREFIX_ORDER +:+ "User not found."))
    | Some lu =>
    let u := lu_user lu in
    if negb (truthyStr (User.selectedPoolAddress u)) then
      throw (Error (LOG_PREFIX_ORDER +:+ "User pool address are not set."))
    else
    let inputWalletAddr :=
      if negb (bool_decide (User.selectedInputMint u = Some NATIVE_MINT))
      then inputATA else Wallet.address (lu_defaultWallet lu) in
    let outputWalletAddr :=
      if negb (bool_decide (User.selectedOutputMint u = Some NATIVE_MINT))
      then outputATA else Wallet.address (lu_defaultWallet lu) in
    let market :=
      findOne (fun _ m =>
        (bool_decide (Some (Market.poolAddress m) = User.selectedPoolAddress u) &&
         bool_decide (is_Some (tokens d !! Market.quoteTokenId m)))%bool) (markets d) in
    let inputWallet :=
      findOne (fun id w =>
        (String.eqb (Wallet.address w) inputWalletAddr &&
         bool_decide (is_Some (tokens d !! Wallet.tokenId w)) &&
         negb (locked env TWallets id) &&
         negb (locked env TTokens (Wallet.tokenId w)))%bool) (wallets d) in
    let outputWallet :=
      findOne (fun _ w => String.eqb (Wallet.address w) outputWalletAddr) (wallets d) in
    match market with
    | None => throw (Error (LOG_PREFIX_ORDER +:+ "Provided market does not found/created."))
    | Some (marketId, m) =>
    match inputWallet with
    | None => throw (Error (LOG_PREFIX_ORDER +:+
                            "Another transaction with this wallet is ongoing."))
    | Some (inputWalletId, iw) =>
    let* outputWalletId :=
      match outputWallet with
      | Some (id, _) => ret id
      | None =>
          let outputTokenId :=
            if bool_decide
                 (Token.contractAddress <$> tokens d !! Wallet.tokenId iw =
                  Token.contractAddress <$> tokens d !! Market.quoteTokenId m)
            then Market.baseTokenId m else Market.quoteTokenId m in
          Wallet_create (Wallet.mk userId (User.defaultWalletId u) outputTokenId
                           (lu_keyId lu) outputWalletAddr 0 0 active)
      end in
    (* user.selectedTransactionId = ...; reset of the selection *)
    let user' := resetSelection transactionSig u in
    let* t := now in
    let* _ :=
      promiseAll3 (schedule env AtSubmission t)
        (User_save userId user')
        (Order_create
           (Order.mk userId marketId inputWalletId outputWalletId
              (Some transactionSig) rawAmount amountInUsd None ourFeeInLamports 0
              (User.selectedOrderType user')
              (User.selectedOrderDirection user')
              false submitted
              (Some (mkOrderDetails (Some recentBlockhash) priorityFee))))
        (Wallet_update inputWalletId (- rawAmount) rawAmount) in
    (* send transaction *)
    execute transactionSig
    end end end).

(** ** routers/v1/on-chain-swap/create *)

(** The part of [create] after the balance check: price, builder,
    submission, and the reads for the response.  Deriving the keypair and
    compiling and signing the message are part of the builder oracle. *)
Definition submitAfterBalanceCheck (lu : LoadedUser) : M unit :=
  let user := lu_user lu in
  let direction := User.selectedOrderDirection user in
  let priorityFee := priorityFeeHigh env in
  let* tokenUsdPrice :=
    match direction with
    | buy => let* t := now in await (priceUsdByTokenAddress env t NATIVE_MINT)
    | sell => ret (User.selectedTokenUsdPrice user)
    end in
  let* t := now in
  let* tx := await (createSwapTransaction env t
               (mkSwapRequest (User.selectedPoolAddress user)
                  (User.selectedInputMint user) (User.selectedOutputMint user)
                  (match direction with
                   | buy => User.selectedInputAmount user
                   | sell => User.selectedSellAmount user
                   end)
                  (User.selectedEstimatedOutput user) tokenUsdPrice
                  (User.selectedSlippage user) direction priorityFee)) in
  (* Send the transaction and create the order in DB *)
  let* _ := transactionalCreateOrderAndSendToNetwork (lu_id lu) (signature tx)
              (inputATA tx) (outputATA tx) (rawInAmount tx) (inAmountInUsd tx)
              (ourFeeInLamports tx) priorityFee (currentBlockhash env) None None in
  (* Get data for UI representation *)
  match User.selectedPoolAddress user, User.selectedInputMint user with
  | Some pool, Some inputMint =>
      let* t0 := now in
      let* r := promiseAll3 (schedule env AtResponse t0)
                  (getMarketByPoolAddress pool)
                  (let* t := now in await (poolInfoByPoolAddress env t pool))
                  (getWalletBalance (lu_id lu) inputMint) in
      match direction with
      | sell => getCurrentPnL r.2.1.1;; ret tt
      | buy => ret tt
      end
  | _, _ => throw (Error "TypeError")
  end.

(** [create]: the request handler of order submission.  The value is what
    reaches [res.json] ([inr]) or [next(e)] ([inl]). *)
Definition create (telegramId : Z) : M unit :=
  let* lu := getUser telegramId in
  let user := lu_user lu in
  let direction := User.selectedOrderDirection user in
  (* Check user has enough balance *)
  let* inputWalletBalance :=
    match direction with
    | buy =>  (* the SOL wallet *)
        ret (bnDiv (inject_Z (Wallet.confirmedBalance (lu_defaultWallet lu)))
                   (bnPow10 (User.selectedInputDecimals user)))
    | sell => (* a non SOL wallet *)
        match User.selectedInputMint user with
        | None => throw (Error "TypeError")
        | Some inputMint =>
            let* r := getWalletBalance (lu_id lu) inputMint in ret r.2
        end
    end in
  if match direction with
     | buy => bnGt (User.selectedInputAmount user) inputWalletBalance
     | sell => bnGt (User.selectedSellAmount user) inputWalletBalance
     end
  then throw (Error "User doesn't have enough balance")
  else submitAfterBalanceCheck lu.

(** ** cronjobs/check-confirmation *)

(** An order loaded by [getOrderById]: every [include] is [required]. *)
Record LoadedOrder := mkLoadedOrder {
  lo_id : Z;
  lo_order : Order.t;
  lo_user : User.t;
  lo_defaultWallet : Wallet.t;
  lo_inputWallet : Wallet.t;
  lo_inputToken : Token.t;
  lo_outputWallet : Wallet.t;
  lo_outputToken : Token.t
}.

Definition joinOrder (d : DB) (id : Z) (o : Order.t) : option LoadedOrder :=
  u ← users d !! Order.userId o;
  dwid ← User.defaultWalletId u;
  dw ← wallets d !! dwid;
  iw ← wallets d !! Order.inputWalletId o;
  itk ← tokens d !! Wallet.tokenId iw;
  ow ← wallets d !! Order.outputWalletId o;
  otk ← tokens d !! Wallet.tokenId ow;
  Some (mkLoadedOrder id o u dw iw itk ow otk).

Definition getOrderById (orderId : Z) : M (option LoadedOrder) :=
  let* d := getDb in
  ret (orders d !! orderId ≫= joinOrder d orderId).

Definition fetchTransactionInfo (transactionId : string)
    : M (option ParsedTransactionWithMeta) :=
  let* t := now in
  emit (EvGetParsedTransaction transactionId);;
  await (getParsedTransaction env t transactionId).

Definition sameAccount (b : TokenBalance) (mintAddress ownerAddress : string) : bool :=
  (String.eqb (toLowerCase (mint b)) (toLowerCase mintAddress) &&
   match owner b with
   | Some o => String.eqb (toLowerCase o) (toLowerCase ownerAddress)
   | None => false
   end)%bool.

(** The last matching post balance minus every matching pre balance. *)
Definition calculateBaseTokenChanges (post pre : list TokenBalance)
    (mintAddress ownerAddress : string) : Z :=
  let afterPost :=
    fold_left (fun acc b => if sameAccount b mintAddress ownerAddress
                            then amount b else acc) post 0 in
  fold_left (fun acc b => if sameAccount b mintAddress ownerAddress
                          then acc - amount b else acc) pre afterPost.

Fixpoint findIndex (keys : list string) (a : string) : option nat :=
  match keys with
  | [] => None
  | k :: r => if String.eqb k a then Some O else S <$> findIndex r a
  end.

(** [new BN(postBalances[i] - preBalances[i])] at the default wallet's
    account index.  When the wallet is not among the account keys
    ([findIndex] gives [-1]) or an array has no such entry, the difference
    is [NaN] and the result is zero. *)
Definition calculateQuoteTokenBalanceChange (ti : ParsedTransactionWithMeta)
    (m : TxMeta) (defaultWalletAddress : string) : JsError + Z :=
  let defaultWalletIdx := findIndex (accountKeys ti) defaultWalletAddress in
  newBN (jsSubUndefined (balanceAt (postBalances m) defaultWalletIdx)
                        (balanceAt (preBalances m) defaultWalletIdx)).

(** [balances.reduce((a, b) => a + b, 0)] *)
Definition sumNumbers (balances : list Z) : JsNumber :=
  fold_left (fun a b => jsAdd a (toNumber b)) balances (Finite 0).

Definition calculateTransactionFee (m : TxMeta) : JsError + Z :=
  newBN (jsSub (sumNumbers (preBalances m)) (sumNumbers (postBalances m))).

(** [order.save({transaction})]: the validators of the assigned columns run
    first, then those columns are written to the order's row. *)
Definition Order_save (id : Z) (valid : bool) (field : string)
    (assign : Order.t → Order.t) : M unit :=
  if valid then
    modifyDb (withOrders (alter assign id));;
    emit (EvUpdate TOrders id)
  else throw (SequelizeValidationError field).

(** Update wallet balances *)
Definition updateWalletBalances (orderDirection : OrderDirection)
    (orderInAmount orderOutAmount txFee commission : Z)
    (inputWalletId inputParentWalletId outputWalletId : Z)
    (transactionSucceeded : bool) : M unit :=
  let* t := now in
  promiseAll3 (schedule env AtWalletBalances t)
    (Wallet_update inputWalletId
       (if transactionSucceeded then 0 else orderInAmount) (- orderInAmount))
    (match orderDirection with
     | buy =>
         Wallet_update inputParentWalletId
           (- ((if transactionSucceeded then commission else 0) + txFee)) 0
     | sell => ret tt
     end)
    (if transactionSucceeded
     then Wallet_update outputWalletId orderOutAmount 0
     else ret tt);;
  ret tt.

(** [order.inputWallet?.parentId! || order.inputWallet?.id!] *)
Definition feeWalletId (order : LoadedOrder) : Z :=
  match Wallet.parentId (lo_inputWallet order) with
  | Some p => p
  | None => Order.inputWalletId (lo_order order)
  end.

(** Handle errors in transactions *)
Definition handleTransactionFailure (order : LoadedOrder) (txFee : Z)
    (transactionSucceeded : bool) : M unit :=
  let o := lo_order order in
  let* t := now in
  promiseAll2 (schedule env AtSettleFailure t)
    (Order_save (lo_id order) (validAmountText txFee) "networkFee"
       (fun row => Order.settle (Order.outAmount row) txFee failed false row))
    (updateWalletBalances (Order.orderDirection o) (Order.inAmount o) 0 txFee 0
       (Order.inputWalletId o) (feeWalletId order) (Order.outputWalletId o)
       transactionSucceeded);;
  ret tt.

(** The close test of the sell branch:
    [new BigNumber(pnl.cumulativeSellQuantity).plus(new BigNumber(order.inAmount))
       .toString() === pnl.cumulativeBuyQuantity],
    a comparison of the sum's [toString()] with the column's text. *)
Definition closeTest (pnl : PnL.t) (inAmount : Z) : bool :=
  String.eqb (bnToString (PnL.cumulativeSellQuantity pnl + inAmount))
             (pgNumericText 78 (PnL.cumulativeBuyQuantity pnl)).

(** [PnL.create(row)] with the model's validators ([min: 0]). *)
Definition PnL_create (p : PnL.t) : M Z :=
  if negb (0 <=? PnL.cumulativeBuyQuantity p) then
    throw (SequelizeValidationError "cumulativeBuyQuantity")
  else if negb (0 <=? PnL.cumulativeBuyCostInSol p) then
    throw (SequelizeValidationError "cumulativeBuyCostInSol")
  else if negb (Qle_bool 0 (PnL.cumulativeBuyCostInUsd p)) then
    throw (SequelizeValidationError "cumulativeBuyCostInUsd")
  else
    let* d := getDb in
    let id := nextId (pnls d) in
    modifyDb (withPnls (insert id p));;
    emit (EvInsert TPnls id);;
    ret id.

Definition PnL_update (id : Z) (f : PnL.t → PnL.t) : M unit :=
  modifyDb (withPnls (alter f id));;
  emit (EvUpdate TPnls id).

Definition pnlAddBuy (qty costSol : Z) (costUsd : Q) (p : PnL.t) : PnL.t :=
  PnL.mk (PnL.walletId p) (PnL.cumulativeBuyQuantity p + qty)
    (PnL.cumulativeBuyCostInUsd p + costUsd)%Q (PnL.cumulativeBuyCostInSol p + costSol)
    (PnL.cumulativeSellQuantity p) (PnL.cumulativeSellProceedsInUsd p)
    (PnL.cumulativeSellProceedsInSol p) (PnL.isClosed p).

Definition pnlAddSell (qty proceedsSol : Z) (proceedsUsd : Q) (closed : bool)
    (p : PnL.t) : PnL.t :=
  PnL.mk (PnL.walletId p) (PnL.cumulativeBuyQuantity p)
    (PnL.cumulativeBuyCostInUsd p) (PnL.cumulativeBuyCostInSol p)
    (PnL.cumulativeSellQuantity p + qty)
    (PnL.cumulativeSellProceedsInUsd p + proceedsUsd)%Q
    (PnL.cumulativeSellProceedsInSol p + proceedsSol) closed.

(** Update or create PnL records *)
Definition updateOrCreatePnL (baseWalletId : Z) (order : Order.t)
    (baseTokenBalanceChange quoteTokenBalanceChange : Z) : M unit :=
  let* d := getDb in
  match findOne (fun _ p => (bool_decide (PnL.walletId p = baseWalletId) &&
                             negb (PnL.isClosed p))%bool) (pnls d) with
  | None =>
      (* create pnl if not exists *)
      PnL_create (PnL.mk baseWalletId baseTokenBalanceChange
                    (Order.inAmountInUsd order) (Order.inAmount order)
                    0 0%Q 0 false);;
      ret tt
  | Some (pnlId, pnl) =>
      match Order.orderDirection order with
      | buy =>
          PnL_update pnlId
            (pnlAddBuy baseTokenBalanceChange (Order.inAmount order)
               (Order.inAmountInUsd order))
      | sell =>
          let* t := now in
          emit (EvPriceRequest NATIVE_MINT);;
          let* solPrice := await (priceUsdByTokenAddress env t NATIVE_MINT) in
          PnL_update pnlId
            (pnlAddSell (Order.inAmount order) quoteTokenBalanceChange
               (solPrice * bnDiv (inject_Z quoteTokenBalanceChange)
                                 (inject_Z 1000000000))%Q
               (closeTest pnl (Order.inAmount order)))
      end
  end.

(** Update the Order, Wallet balances and Profit and Loss (PnL) records *)
Definition updateOrderWalletPnL (baseWalletId : Z) (order : LoadedOrder)
    (baseTokenBalanceChange txFee quoteTokenBalanceChange : Z)
    (transactionSucceeded : bool) : M unit :=
  let o := lo_order order in
  let outAmount :=
    match Order.orderDirection o with
    | buy => baseTokenBalanceChange
    | sell => quoteTokenBalanceChange
    end in
  let* t := now in
  promiseAll3 (schedule env AtSettleSuccess t)
    (Order_save (lo_id order) ((0 <=? outAmount) && (0 <=? txFee))%bool "outAmount"
       (Order.settle (Some outAmount) txFee confirmed true))
    (updateWalletBalances (Order.orderDirection o) (Order.inAmount o) outAmount
       txFee (Order.commission o) (Order.inputWalletId o) (feeWalletId order)
       (Order.outputWalletId o) transactionSucceeded)
    (updateOrCreatePnL baseWalletId
       (Order.settle (Some outAmount) txFee confirmed true o)
       baseTokenBalanceChange quoteTokenBalanceChange);;
  ret tt.

(** What [checkConfirmation] returns when it does not end in its own
    [catch] (which logs and returns [undefined], here [None]). *)
Record CheckResult := mkCheckResult {
  success : bool;
  res_status : OrderStatus;
  message : string
}.

Definition alreadyProcessed (st : OrderStatus) : CheckResult :=
  mkCheckResult false st "Transaction already processed.".
Definition transactionFailed : CheckResult :=
  mkCheckResult false failed "Transaction failed.".
Definition transactionConfirmed : CheckResult :=
  mkCheckResult true confirmed "Transaction confirmed.".

(** [['confirmed', 'failed'].includes(status)] *)
Definition isTerminal (st : OrderStatus) : bool :=
  match st with
  | confirmed | failed => true
  | _ => false
  end.

(** The [try { confirmTransaction } catch] block of [checkConfirmation]:
    [inl r] is an early [return r], [inr info] continues with
    [transactionInfo = info]. *)
Definition confirmOrLookup (order : LoadedOrder) (sig : string) (bh : BlockHash)
    : M (CheckResult + option ParsedTransactionWithMeta) :=
  tryCatch
    (let* t := now in
     emit (EvConfirmTransaction sig);;
     let* confirmation := await (confirmTransaction env t sig bh) in
     if negb confirmation then throw (Error "Transaction not found or unconfirmed")
     else ret (inr None))
    (fun e =>
       match e with
       | TransactionExpiredBlockheightExceededError _ =>
           let* transactionInfo := fetchTransactionInfo sig in
           match transactionInfo with
           | None =>
               (* not included in any block: the tx fee is 0 *)
               handleTransactionFailure order 0 false;;
               ret (inl transactionFailed)
           | Some ti => ret (inr (Some ti))
           end
       | _ => throw e
       end).

(** The part of [checkConfirmation] after the lookups. *)
Definition settleWithInfo (order : LoadedOrder) (ti : ParsedTransactionWithMeta)
    : M CheckResult :=
  let o := lo_order order in
  match meta ti with
  | Some m =>
      if err m then
        handleTransactionFailure order (fee m) false;;
        ret transactionFailed
      else
        match preTokenBalances m, postTokenBalances m with
        | Some pre, Some post =>
            let (baseWalletId, baseToken) :=
              match Order.orderDirection o with
              | buy => (Order.outputWalletId o, lo_outputToken order)
              | sell => (Order.inputWalletId o, lo_inputToken order)
              end in
            let baseTokenBalanceChange :=
              calculateBaseTokenChanges post pre (Token.contractAddress baseToken)
                (Wallet.address (lo_defaultWallet order)) in
            let* quoteTokenBalanceChange :=
              await (calculateQuoteTokenBalanceChange ti m
                       (Wallet.address (lo_defaultWallet order))) in
            let* txFee := await (calculateTransactionFee m) in
            updateOrderWalletPnL baseWalletId order baseTokenBalanceChange
              txFee quoteTokenBalanceChange true;;
            ret transactionConfirmed
        | _, _ => throw (Error "transaction meta information not found")
        end
  | None => throw (Error "transaction meta information not found")
  end.

(** Main function to check transaction confirmation *)
Definition checkConfirmation (orderId : Z) : M (option CheckResult) :=
  tryCatch
    (let* found := getOrderById orderId in
     match found with
     | None => throw (Error (LOG_PREFIX_CRON +:+ " Order not found."))
     | Some order =>
     let o := lo_order order in
     match Order.transactionId o with
     | None | Some EmptyString =>
         throw (Error (LOG_PREFIX_CRON +:+
                       " Oder doesn't have any transaction id associated with it."))
     | Some sig =>
     match Order.details o ≫= recentBlockHash with
     | None =>
         throw (Error (LOG_PREFIX_CRON +:+
                       " Oder doesn't have any blockhash associated with it."))
     | Some bh =>
     if ((lastValidBlockHeight bh =? 0) || String.eqb (blockhash bh) "")%bool then
       throw (Error (LOG_PREFIX_CRON +:+
                     " Oder doesn't have any blockhash associated with it."))
     else if isTerminal (Order.status o) then
       ret (Some (alreadyProcessed (Order.status o)))
     else
       let* r := confirmOrLookup order sig bh in
       match r with
       | inl early => ret (Some early)
       | inr known =>
           let* transactionInfo :=
             match known with
             | Some ti => ret (Some ti)
             | None => fetchTransactionInfo sig
             end in
           match transactionInfo with
           | None =>
               throw (Error "Should not happen unless the parsed transaction is not ready, because we already have the tx result in <confirmation> variable.")
           | Some ti =>
               let* res := settleWithInfo order ti in
               ret (Some res)
           end
       end
     end end end)
    (fun e => ret None).

(** ** cronjobs: the reconciler pass *)

Fixpoint forEach {A} (l : list A) (body : A → M unit) : M unit :=
  match l with
  | [] => ret tt
  | x :: r => body x;; forEach r body
  end.

(** [where: {status: 'submitted'}, lock: true, skipLocked: true] *)
Definition selectedForReconciliation (id : Z) (o : Order.t) : bool :=
  (bool_decide (Order.status o = submitted) && negb (locked env TOrders id))%bool.

(** One tick of the cron job scheduled by [start]. *)
Definition start : M unit :=
  tryCatch
    (transaction
       (let* d := getDb in
        let ordersFound := findAll selectedForReconciliation (orders d) in
        forEach ordersFound (fun order =>
          let* result := checkConfirmation order.1 in
          match result with
          | None => ret tt
          | Some r =>
              let* d' := getDb in
              match users d' !! Order.userId order.2 with
              | None =>
                  throw (Error "FATAL: user not found in cronjob: check for confirmation.")
              | Some user =>
                  let* t := now in
                  emit (EvWebhook (User.telegramId user) (success r));;
                  await (webhookPost env t (User.telegramId user) (success r))
              end
          end)))
    (fun e => ret tt).

End Operations.

(** * Properties *)

(** ** Tables *)

Lemma findOne_Some {V} (P : Z → V → bool) (m : gmap Z V) k v :
  findOne P m = Some (k, v) → m !! k = Some v ∧ P k v = true.
Proof.
  unfold findOne. intros H. apply find_some in H as [Hin HP]. split; [|exact HP].
  apply elem_of_map_to_list. apply list_elem_of_In. exact Hin.
Qed.

Lemma findOne_None {V} (P : Z → V → bool) (m : gmap Z V) k v :
  findOne P m = None → m !! k = Some v → P k v = false.
Proof.
  unfold findOne. intros H Hk.
  apply (find_none _ _ H (k, v)).
  apply list_elem_of_In, elem_of_map_to_list. exact Hk.
Qed.

Lemma findAll_elem {V} (P : Z → V → bool) (m : gmap Z V) k v :
  (k, v) ∈ findAll P m ↔ m !! k = Some v ∧ P k v = true.
Proof.
  unfold findAll. rewrite list_elem_of_In, filter_In, <- list_elem_of_In.
  rewrite elem_of_map_to_list. reflexivity.
Qed.

Lemma maxKey_ge {V} (m : gmap Z V) k v : m !! k = Some v → k ≤ maxKey m.
Proof.
  intros Hk. apply elem_of_map_to_list in Hk. unfold maxKey.
  induction (map_to_list m) as [|[k' v'] l IH]; [inversion Hk|].
  apply elem_of_cons in Hk as [Heq|Hin]; simpl.
  - inversion Heq; subst. lia.
  - specialize (IH Hin). lia.
Qed.

Lemma nextId_fresh {V} (m : gmap Z V) : m !! nextId m = None.
Proof.
  destruct (m !! nextId m) eqn:E; [|reflexivity].
  apply maxKey_ge in E. unfold nextId in E. lia.
Qed.

Lemma addBalances_add a b c d w :
  Wallet.addBalances a b (Wallet.addBalances c d w) = Wallet.addBalances (c + a) (d + b) w.
Proof. destruct w; unfold Wallet.addBalances; simpl. f_equal; lia. Qed.

Lemma addBalances_zero w : Wallet.addBalances 0 0 w = w.
Proof. destruct w; unfold Wallet.addBalances; simpl. f_equal; lia. Qed.

(** ** Frame reasoning in the monad *)

(** [stable R m]: every run of [m] relates the world before to the world
    after, however it ends. *)
Definition stable {A} (R : World → World → Prop) (m : M A) : Prop :=
  ∀ w, R w (m w).2.

Section Stable.
Context (R : World → World → Prop) `{!PreOrder R}.

Lemma stable_ret {A} (a : A) : stable R (ret a).
Proof. intros w. reflexivity. Qed.

Lemma stable_throw {A} e : stable R (@throw A e).
Proof. intros w. reflexivity. Qed.

Lemma stable_await {A} (r : JsError + A) : stable R (await r).
Proof. intros w. reflexivity. Qed.

Lemma stable_getDb : stable R getDb.
Proof. intros w. reflexivity. Qed.

Lemma stable_now : stable R now.
Proof. intros w. reflexivity. Qed.

Lemma stable_bind {A B} (m : M A) (k : A → M B) :
  stable R m → (∀ a, stable R (k a)) → stable R (bind m k).
Proof.
  intros Hm Hk w. unfold bind. specialize (Hm w).
  destruct (m w) as [[e|a] w1]; simpl in *; [exact Hm|].
  etransitivity; [exact Hm|apply Hk].
Qed.

Lemma stable_tryCatch {A} (m : M A) (h : JsError → M A) :
  stable R m → (∀ e, stable R (h e)) → stable R (tryCatch m h).
Proof.
  intros Hm Hh w. unfold tryCatch. specialize (Hm w).
  destruct (m w) as [[e|a] w1]; simpl in *; [|exact Hm].
  etransitivity; [exact Hm|apply Hh].
Qed.

Lemma stable_pending {A} c (m : M A) w : stable R m → R w (pending c m w).
Proof. intros Hm. unfold pending. destruct c; [apply Hm | reflexivity]. Qed.

Lemma stable_pending2 {A B} c c' (m : M A) (m' : M B) w :
  stable R m → stable R m' → R w (pending c' m' (pending c m w)).
Proof.
  intros Hm Hm'.
  transitivity (pending c m w); apply stable_pending; assumption.
Qed.

Lemma stable_orPending {A} (m : M A) (rest : World → World) :
  stable R m → (∀ w, R w (rest w)) → stable R (orPending m rest).
Proof.
  intros Hm Hrest w. unfold orPending. specialize (Hm w).
  destruct (m w) as [[e|a] w1]; simpl in *; [|exact Hm].
  etransitivity; [exact Hm|apply Hrest].
Qed.

Lemma stable_promiseAll2 {A B} s (a : M A) (b : M B) :
  stable R a → stable R b → stable R (promiseAll2 s a b).
Proof.
  intros Ha Hb. unfold promiseAll2.
  destruct (firstBeforeSecond _);
    repeat first [ apply stable_ret | assumption
                 | apply stable_bind; [|intros ?]
                 | apply stable_orPending; [|intros ?]
                 | apply stable_pending; assumption ].
Qed.

Lemma stable_promiseAll3 {A B C} s (a : M A) (b : M B) (c : M C) :
  stable R a → stable R b → stable R c → stable R (promiseAll3 s a b c).
Proof.
  intros Ha Hb Hc. unfold promiseAll3.
  destruct (turnOrder s);
    repeat first [ apply stable_ret | assumption
                 | apply stable_bind; [|intros ?]
                 | apply stable_orPending; [|intros ?]
                 | apply stable_pending; assumption
                 | apply stable_pending2; assumption ].
Qed.

Lemma stable_forEach {A} (l : list A) (body : A → M unit) :
  (∀ x, stable R (body x)) → stable R (forEach l body).
Proof.
  intros Hb. induction l as [|x l IH]; simpl.
  - apply stable_ret.
  - apply stable_bind; auto.
Qed.

End Stable.

(** The relations used as frames. *)
Definition sameDb (w w' : World) : Prop := db w' = db w.
Definition sameOrders (w w' : World) : Prop := orders (db w') = orders (db w).
Definition sameWallets (w w' : World) : Prop := wallets (db w') = wallets (db w).
Definition samePnls (w w' : World) : Prop := pnls (db w') = pnls (db w).

(** [logged P]: the log only grows, by events that satisfy [P]. *)
Definition logged (P : Event → Prop) (w w' : World) : Prop :=
  ∃ evs, log w' = log w ++ evs ∧ Forall P evs.

#[global] Instance sameDb_preorder : PreOrder sameDb.
Proof. split; unfold sameDb; [intros ?|intros ? ? ?]; congruence. Qed.
#[global] Instance sameOrders_preorder : PreOrder sameOrders.
Proof. split; unfold sameOrders; [intros ?|intros ? ? ?]; congruence. Qed.
#[global] Instance sameWallets_preorder : PreOrder sameWallets.
Proof. split; unfold sameWallets; [intros ?|intros ? ? ?]; congruence. Qed.
#[global] Instance samePnls_preorder : PreOrder samePnls.
Proof. split; unfold samePnls; [intros ?|intros ? ? ?]; congruence. Qed.
#[global] Instance logged_preorder P : PreOrder (logged P).
Proof.
  split.
  - intros w. exists []. rewrite app_nil_r. auto.
  - intros w1 w2 w3 [e1 [H1 F1]] [e2 [H2 F2]]. exists (e1 ++ e2).
    rewrite H2, H1, app_assoc. split; [reflexivity|]. apply Forall_app; auto.
Qed.

Lemma emit_sameDb e : stable sameDb (emit e).
Proof. intros w. reflexivity. Qed.
Lemma emit_sameOrders e : stable sameOrders (emit e).
Proof. intros w. reflexivity. Qed.
Lemma emit_sameWallets e : stable sameWallets (emit e).
Proof. intros w. reflexivity. Qed.
Lemma emit_samePnls e : stable samePnls (emit e).
Proof. intros w. reflexivity. Qed.
Lemma emit_logged (P : Event → Prop) e : P e → stable (logged P) (emit e).
Proof. intros HP w. exists [e]. simpl. auto. Qed.

Lemma modifyDb_logged P f : stable (logged P) (modifyDb f).
Proof. intros w. exists []. simpl. rewrite app_nil_r. auto. Qed.
Lemma modifyDb_sameOrders f :
  (∀ d, orders (f d) = orders d) → stable sameOrders (modifyDb f).
Proof. intros H w. apply H. Qed.
Lemma modifyDb_sameWallets f :
  (∀ d, wallets (f d) = wallets d) → stable sameWallets (modifyDb f).
Proof. intros H w. apply H. Qed.
Lemma modifyDb_samePnls f :
  (∀ d, pnls (f d) = pnls d) → stable samePnls (modifyDb f).
Proof. intros H w. apply H. Qed.

Create HintDb frame.
#[global] Hint Resolve emit_sameDb emit_sameOrders emit_sameWallets emit_samePnls
  modifyDb_logged : frame.
#[global] Hint Extern 1 (stable (logged _) (emit _)) =>
  apply emit_logged; simpl; auto : frame.
#[global] Hint Extern 1 (stable sameOrders (modifyDb _)) =>
  apply modifyDb_sameOrders; reflexivity : frame.
#[global] Hint Extern 1 (stable sameWallets (modifyDb _)) =>
  apply modifyDb_sameWallets; reflexivity : frame.
#[global] Hint Extern 1 (stable samePnls (modifyDb _)) =>
  apply modifyDb_samePnls; reflexivity : frame.

(** Break a monadic term into its primitives; what is left is a primitive
    that the hint database decides. *)
Ltac frame_step :=
  first
    [ apply stable_ret; apply _
    | apply stable_throw; apply _
    | apply stable_await; apply _
    | apply stable_getDb; apply _
    | apply stable_now; apply _
    | apply stable_bind; [apply _| |intros ?]
    | apply stable_tryCatch; [apply _| |intros ?]
    | apply stable_promiseAll3; [apply _| | |]
    | apply stable_promiseAll2; [apply _| |]
    | apply stable_forEach; [apply _|intros ?]
    | match goal with
      | |- stable _ (match ?x with _ => _ end) => destruct x
      end ].

Ltac frame := repeat first [solve [auto with frame] | frame_step]; auto with frame.

Section Frames.
Variable env : Env.

Lemma Wallet_update_sameOrders id dc du : stable sameOrders (Wallet_update id dc du).
Proof. unfold Wallet_update. frame. Qed.

Lemma Wallet_update_samePnls id dc du : stable samePnls (Wallet_update id dc du).
Proof. unfold Wallet_update. frame. Qed.

Lemma updateWalletBalances_sameOrders dir a b c d i p o s :
  stable sameOrders (updateWalletBalances env dir a b c d i p o s).
Proof. unfold updateWalletBalances. frame; apply Wallet_update_sameOrders. Qed.

Lemma updateWalletBalances_samePnls dir a b c d i p o s :
  stable samePnls (updateWalletBalances env dir a b c d i p o s).
Proof. unfold updateWalletBalances. frame; apply Wallet_update_samePnls. Qed.

Lemma Order_save_sameWallets id v f g : stable sameWallets (Order_save id v f g).
Proof. unfold Order_save. frame. Qed.

Lemma Order_save_samePnls id v f g : stable samePnls (Order_save id v f g).
Proof. unfold Order_save. frame. Qed.

Lemma updateOrCreatePnL_sameOrders b o x y :
  stable sameOrders (updateOrCreatePnL env b o x y).
Proof. unfold updateOrCreatePnL, PnL_create, PnL_update. frame. Qed.

Lemma updateOrCreatePnL_sameWallets b o x y :
  stable sameWallets (updateOrCreatePnL env b o x y).
Proof. unfold updateOrCreatePnL, PnL_create, PnL_update. frame. Qed.

End Frames.

(** ** The balance ledger *)

(** [walletsEffect F m]: every run of [m] resolves and changes the table of
    wallets by [F]. *)
Definition walletsEffect {A} (F : gmap Z Wallet.t → gmap Z Wallet.t) (m : M A) : Prop :=
  ∀ w, (∃ a, (m w).1 = inr a) ∧ wallets (db (m w).2) = F (wallets (db w)).

(** The three relative updates of [updateWalletBalances], as one map
    transformer. *)
Definition ledgerUpdates (orderDirection : OrderDirection)
    (orderInAmount orderOutAmount txFee commission : Z)
    (inputWalletId inputParentWalletId outputWalletId : Z)
    (transactionSucceeded : bool) (ws : gmap Z Wallet.t) : gmap Z Wallet.t :=
  let ws1 :=
    alter (Wallet.addBalances (if transactionSucceeded then 0 else orderInAmount)
                              (- orderInAmount)) inputWalletId ws in
  let ws2 :=
    match orderDirection with
    | buy => alter (Wallet.addBalances
                      (- ((if transactionSucceeded then commission else 0) + txFee)) 0)
                   inputParentWalletId ws1
    | sell => ws1
    end in
  if transactionSucceeded
  then alter (Wallet.addBalances orderOutAmount 0) outputWalletId ws2
  else ws2.

(** Net change of one wallet row under [ledgerUpdates]. *)
Definition confirmedDelta (dir : OrderDirection) (inAmt out fee comm : Z)
    (inId feeId outId : Z) (succeeded : bool) (k : Z) : Z :=
  (if bool_decide (k = inId) then (if succeeded then 0 else inAmt) else 0)
  + (if bool_decide (dir = buy ∧ k = feeId)
     then - ((if succeeded then comm else 0) + fee) else 0)
  + (if bool_decide (succeeded = true ∧ k = outId) then out else 0).

Definition unconfirmedDelta (inAmt inId k : Z) : Z :=
  if bool_decide (k = inId) then - inAmt else 0.

Lemma fmap_addBalances a b c d (x : option Wallet.t) :
  Wallet.addBalances a b <$> (Wallet.addBalances c d <$> x)
  = Wallet.addBalances (c + a) (d + b) <$> x.
Proof. destruct x; simpl; [|reflexivity]. f_equal. apply addBalances_add. Qed.

Lemma fmap_addBalances_id (x : option Wallet.t) : x = Wallet.addBalances 0 0 <$> x.
Proof. destruct x; simpl; [|reflexivity]. f_equal. symmetry. apply addBalances_zero. Qed.

Lemma addBalances_ext a b a' b' (x : option Wallet.t) :
  a = a' → b = b' → Wallet.addBalances a b <$> x = Wallet.addBalances a' b' <$> x.
Proof. intros -> ->. reflexivity. Qed.

Lemma lookup_alter_addBalances dc du i (ws : gmap Z Wallet.t) k :
  alter (Wallet.addBalances dc du) i ws !! k
  = Wallet.addBalances (if bool_decide (k = i) then dc else 0)
                       (if bool_decide (k = i) then du else 0) <$> ws !! k.
Proof.
  destruct (decide (k = i)) as [->|Hne].
  - rewrite lookup_alter_eq, bool_decide_eq_true_2 by reflexivity. reflexivity.
  - rewrite lookup_alter_ne, bool_decide_eq_false_2 by congruence.
    apply fmap_addBalances_id.
Qed.

Lemma ledgerUpdates_lookup dir inAmt out fee comm inId feeId outId s ws k :
  ledgerUpdates dir inAmt out fee comm inId feeId outId s ws !! k
  = Wallet.addBalances (confirmedDelta dir inAmt out fee comm inId feeId outId s k)
                       (unconfirmedDelta inAmt inId k) <$> ws !! k.
Proof.
  unfold ledgerUpdates, confirmedDelta, unconfirmedDelta.
  destruct dir, s; rewrite ?lookup_alter_addBalances, ?fmap_addBalances;
    apply addBalances_ext;
    repeat case_bool_decide; try lia; try tauto; intuition congruence.
Qed.

(** [updateWalletBalances] always resolves, and whatever the order in which
    its updates take effect, the wallets change by [ledgerUpdates]: the
    updates are relative, so they commute. *)
Lemma updateWalletBalances_effect env dir a b c d i p o s :
  walletsEffect (ledgerUpdates dir a b c d i p o s)
                (updateWalletBalances env dir a b c d i p o s).
Proof.
  intros w. unfold updateWalletBalances.
  cbv [bind now promiseAll3 orPending ret Wallet_update modifyDb emit].
  split.
  - destruct (turnOrder (schedule env AtWalletBalances (length (log w)))), dir, s;
      eexists; reflexivity.
  - apply map_eq. intros k. rewrite ledgerUpdates_lookup.
    unfold confirmedDelta, unconfirmedDelta.
    destruct (turnOrder (schedule env AtWalletBalances (length (log w)))), dir, s;
      cbn [fst snd db wallets withWallets];
      rewrite ?lookup_alter_addBalances, ?fmap_addBalances;
      apply addBalances_ext;
      repeat case_bool_decide; try lia; try tauto; intuition congruence.
Qed.

Lemma updateWalletBalances_ok env dir a b c d i p o s w :
  (updateWalletBalances env dir a b c d i p o s w).1 = inr tt.
Proof.
  destruct (updateWalletBalances_effect env dir a b c d i p o s w) as [[[] Hr] _].
  exact Hr.
Qed.

(** ** Scenarios of the specification, as concrete worlds *)

Module Scenario.

Definition solToken : Token.t := Token.mk NATIVE_MINT 9.
Definition memeToken : Token.t := Token.mk "TokenMint" 6.

(** The user's primary (fee-paying) SOL wallet and its token wallet. *)
Definition solWallet (c u : Z) : Wallet.t := Wallet.mk 1 None 1 1 "UserSol" c u active.
Definition memeWallet (c u : Z) : Wallet.t :=
  Wallet.mk 1 (Some 1) 2 1 "UserTokenAccount" c u active.

(** A user who selected a trade on pool [Pool1]: 0.0004 SOL for a buy,
    40 tokens for a sell. *)
Definition trader (dir : OrderDirection) : User.t :=
  User.mk 42 (Some 1) "0" dir swap (Some "Pool1")
    (match dir with buy => Some NATIVE_MINT | sell => Some "TokenMint" end)
    (match dir with buy => Some "TokenMint" | sell => Some NATIVE_MINT end)
    (4 # 10000) 9 (Some (250 # 1)) 6 0 100 (40 # 1) (1 # 1) 1500 0 0 0 0.

Definition store (dir : OrderDirection) (sol meme : Z) : DB :=
  mkDB {[ 1 := trader dir ]}
       {[ 1 := solWallet sol 0; 2 := memeWallet meme 0 ]}
       {[ 1 := Key.mk "secret" ]}
       {[ 1 := solToken; 2 := memeToken ]}
       {[ 1 := Market.mk "Pool1" 2 1 false ]} ∅ ∅.

Definition world0 (dir : OrderDirection) (sol meme : Z) : World :=
  mkWorld (store dir sol meme) [].

(** A user holding 100 tokens (100,000,000 units) bought earlier, with the
    open position of that buy, who selected to sell 40 of them. *)
Definition worldHolding : World :=
  mkWorld
    (withPnls (fun _ => {[ 1 := PnL.mk 2 100000000 (150 # 1) 1000000000 0 0%Q 0 false ]})
       (store sell 1000000 100000000)) [].

Definition blockhash0 : BlockHash := mkBlockHash "blockhash-1" 1000.

(** The builder: a buy reserves 400,000 lamports, a sell 40,000,000 token
    units; the protocol fee is 2,000 lamports. *)
Definition builder (r : SwapRequest) : JsError + SignedSwap :=
  match req_direction r with
  | buy => inr (mkSignedSwap "sig-buy" "UserWsolAccount" "UserTokenAccount"
                             400000 (6 # 100) 2000)
  | sell => inr (mkSignedSwap "sig-sell" "UserTokenAccount" "UserWsolAccount"
                              40000000 (40 # 1) 2000)
  end.

(** The order in which the calls started together take effect: at a
    submission the reservation, the order, then the user's row; at a
    settlement the wallets, the order, then the position.  A call pending
    when another one rejects still takes effect. *)
Definition timing (site : PromiseSite) (t : nat) : Turn :=
  mkTurn
    match site with
    | AtSubmission => P321
    | AtSettleSuccess | AtSettleFailure => P213
    | AtWalletBalances | AtResponse => P123
    end
    (fun _ => true).

(** A network that answers [confirm] to [confirmTransaction] and [tx] to
    every lookup, accepts every broadcast and webhook, with no row locked. *)
Definition network (confirm : JsError + bool)
    (tx : option ParsedTransactionWithMeta) : Env :=
  mkEnv (fun _ _ => false) timing (fun _ _ _ => confirm) (fun _ _ => inr tx)
        (fun _ sig => inr sig) (fun _ _ => inr (150 # 1)) (fun _ _ => inr tt)
        (fun _ r => builder r) (fun _ _ _ => inr tt) 5 blockhash0.

Definition quiet : Env := network (inr true) None.

(** Scenario A: confirmedBalance 1,000,000; a buy reserving 400,000. *)
Definition worldA : World := (create quiet 42 (world0 buy 1000000 0)).2.

(** The transaction of scenario A as it landed: the swap took 400,000
    lamports, the protocol fee 2,000 and the network fee 5,000; 250 token
    units arrived. *)
Definition landedBuy (failed : bool) : ParsedTransactionWithMeta :=
  mkParsedTx ["UserSol"; "PoolVault"]
    (Some (mkTxMeta failed 5000 [10000000; 70000]
             (if failed then [9995000; 70000] else [9593000; 472000])
             (Some [])
             (Some (if failed then []
                    else [mkTokenBalance "TokenMint" (Some "UserSol") 250])))).

(** A submitted sell order reserving 40,000,000 token units of the token
    wallet, whose parent (the fee-paying wallet) is the SOL wallet. *)
Definition sellOrder : Order.t :=
  Order.mk 1 1 2 1 (Some "sig-sell") 40000000 (40 # 1) None 2000 0 swap sell
    false submitted
    (Some (mkOrderDetails (Some blockhash0) 5)).

Definition worldSell : World :=
  mkWorld (mkDB {[ 1 := trader buy ]}
             {[ 1 := solWallet 1000000 0; 2 := memeWallet 60000000 40000000 ]}
             {[ 1 := Key.mk "secret" ]}
             {[ 1 := solToken; 2 := memeToken ]}
             {[ 1 := Market.mk "Pool1" 2 1 false ]}
             {[ 1 := sellOrder ]} ∅) [].

(** Its transaction landed but reverted; the network charged 5,000. *)
Definition landedSell : ParsedTransactionWithMeta :=
  mkParsedTx ["UserSol"; "PoolVault"]
    (Some (mkTxMeta true 5000 [10000000; 70000] [9995000; 70000]
             (Some []) (Some []))).

Definition expired : JsError + bool :=
  inl (TransactionExpiredBlockheightExceededError "sig-buy").

Definition balancesOf (w : World) (id : Z) : option (Z * Z) :=
  (fun x => (Wallet.confirmedBalance x, Wallet.unconfirmedBalance x))
    <$> wallets (db w) !! id.

Definition statusOf (w : World) (id : Z) : option OrderStatus :=
  Order.status <$> orders (db w) !! id.

End Scenario.

(** ** Runs that resolve *)

Lemma bind_inr {A B} (m : M A) (k : A → M B) w b w' :
  bind m k w = (inr b, w') → ∃ a w1, m w = (inr a, w1) ∧ k a w1 = (inr b, w').
Proof.
  unfold bind. destruct (m w) as [[e | a] w1]; [discriminate |].
  intros H. exists a, w1. split; [reflexivity | exact H].
Qed.

Lemma ret_inr {A} (a b : A) w w' : ret a w = (inr b, w') → a = b ∧ w = w'.
Proof. unfold ret. intros H. inversion H. split; reflexivity. Qed.

Lemma stable_run {A} (R : World → World → Prop) (m : M A) w r w' :
  stable R m → m w = (r, w') → R w w'.
Proof. intros Hm Hrun. specialize (Hm w). rewrite Hrun in Hm. exact Hm. Qed.

Lemma walletsEffect_run {A} F (m : M A) w r w' :
  walletsEffect F m → m w = (r, w') → wallets (db w') = F (wallets (db w)).
Proof. intros Hm Hrun. destruct (Hm w) as [_ Hw]. rewrite Hrun in Hw. exact Hw. Qed.

(** When [Promise.all] resolves, every call has resolved and taken effect;
    [a], [b] and [c] relate the world before each of them to the world
    after. *)
Ltac choose_order :=
  repeat first [ solve [repeat split; reflexivity]
               | left; solve [repeat split; reflexivity]
               | right ].

Lemma orPending_inr {A} (m : M A) rest w a w' :
  orPending m rest w = (inr a, w') → m w = (inr a, w').
Proof.
  unfold orPending. destruct (m w) as [[e | a'] w1]; [discriminate |].
  intros H. exact H.
Qed.

Lemma promiseAll3_resolved {A B C} p (a : M A) (b : M B) (c : M C) w r w' :
  promiseAll3 p a b c w = (inr r, w') →
  ∃ wa wa' wb wb' wc wc',
    (∃ x, a wa = (inr x, wa')) ∧ (∃ y, b wb = (inr y, wb'))
    ∧ (∃ z, c wc = (inr z, wc'))
    ∧ ((wa = w ∧ wb = wa' ∧ wc = wb' ∧ w' = wc')
       ∨ (wa = w ∧ wc = wa' ∧ wb = wc' ∧ w' = wb')
       ∨ (wb = w ∧ wa = wb' ∧ wc = wa' ∧ w' = wc')
       ∨ (wb = w ∧ wc = wb' ∧ wa = wc' ∧ w' = wa')
       ∨ (wc = w ∧ wa = wc' ∧ wb = wa' ∧ w' = wb')
       ∨ (wc = w ∧ wb = wc' ∧ wa = wb' ∧ w' = wa')).
Proof.
  unfold promiseAll3. intros H.
  destruct (turnOrder p);
    apply bind_inr in H as (x1 & w1 & H1 & H);
    apply bind_inr in H as (x2 & w2 & H2 & H);
    apply bind_inr in H as (x3 & w3 & H3 & H);
    apply ret_inr in H as [_ <-];
    apply orPending_inr in H1, H2.
  - exists w, w1, w1, w2, w2, w3. do 3 (split; [eauto |]). choose_order.
  - exists w, w1, w2, w3, w1, w2. do 3 (split; [eauto |]). choose_order.
  - exists w1, w2, w, w1, w2, w3. do 3 (split; [eauto |]). choose_order.
  - exists w2, w3, w, w1, w1, w2. do 3 (split; [eauto |]). choose_order.
  - exists w1, w2, w2, w3, w, w1. do 3 (split; [eauto |]). choose_order.
  - exists w2, w3, w1, w2, w, w1. do 3 (split; [eauto |]). choose_order.
Qed.

Lemma promiseAll2_resolved {A B} p (a : M A) (b : M B) w r w' :
  promiseAll2 p a b w = (inr r, w') →
  ∃ wa wa' wb wb',
    (∃ x, a wa = (inr x, wa')) ∧ (∃ y, b wb = (inr y, wb'))
    ∧ ((wa = w ∧ wb = wa' ∧ w' = wb') ∨ (wb = w ∧ wa = wb' ∧ w' = wa')).
Proof.
  unfold promiseAll2. intros H.
  destruct (firstBeforeSecond _);
    apply bind_inr in H as (x1 & w1 & H1 & H);
    apply bind_inr in H as (x2 & w2 & H2 & H);
    apply ret_inr in H as [_ <-];
    apply orPending_inr in H1.
  - exists w, w1, w1, w2. do 2 (split; [eauto |]). choose_order.
  - exists w1, w2, w, w1. do 2 (split; [eauto |]). choose_order.
Qed.

(** What a settlement that resolves does to the wallets: the other calls
    started with [updateWalletBalances] leave the wallets alone. *)
Lemma updateOrderWalletPnL_wallets env baseWalletId order base txFee quote s w w' :
  updateOrderWalletPnL env baseWalletId order base txFee quote s w = (inr tt, w') →
  let o := lo_order order in
  wallets (db w') =
    ledgerUpdates (Order.orderDirection o) (Order.inAmount o)
      (match Order.orderDirection o with buy => base | sell => quote end)
      txFee (Order.commission o) (Order.inputWalletId o) (feeWalletId order)
      (Order.outputWalletId o) s (wallets (db w)).
Proof.
  intros H o. unfold updateOrderWalletPnL in H. fold o in H.
  apply bind_inr in H as (t & w0 & Ht & H). apply ret_inr in Ht as [_ <-].
  apply bind_inr in H as (r & w1 & H & Hret). apply ret_inr in Hret as [_ <-].
  apply promiseAll3_resolved in H
    as (wa & wa' & wb & wb' & wc & wc' & [x Ha] & [y Hb] & [z Hc] & Hord).
  pose proof (stable_run _ _ _ _ _ (Order_save_sameWallets _ _ _ _) Ha) as Sa.
  pose proof (stable_run _ _ _ _ _ (updateOrCreatePnL_sameWallets env _ _ _ _) Hc) as Sc.
  pose proof (walletsEffect_run _ _ _ _ _ (updateWalletBalances_effect _ _ _ _ _ _ _ _ _ _) Hb)
    as Sb.
  unfold sameWallets in *.
  destruct Hord as [H|[H|[H|[H|[H|H]]]]]; destruct H as (? & ? & ? & ?); subst;
    congruence.
Qed.


(** What a failure settlement does to the wallets when the fee passes the
    validators of [order.save()]: the reservation is refunded to the input
    wallet, and for a buy the fee is debited from the fee-paying wallet. *)
Lemma handleTransactionFailure_effect env (order : LoadedOrder) (txFee : Z) :
  validAmountText txFee = true →
  walletsEffect
    (ledgerUpdates (Order.orderDirection (lo_order order))
       (Order.inAmount (lo_order order)) 0 txFee 0
       (Order.inputWalletId (lo_order order)) (feeWalletId order)
       (Order.outputWalletId (lo_order order)) false)
    (handleTransactionFailure env order txFee false).
Proof.
  intros Hv w. unfold handleTransactionFailure, Order_save. rewrite Hv.
  set (uwb := updateWalletBalances _ _ _ _ _ _ _ _ _ _).
  assert (Hu : walletsEffect
                 (ledgerUpdates (Order.orderDirection (lo_order order))
                    (Order.inAmount (lo_order order)) 0 txFee 0
                    (Order.inputWalletId (lo_order order)) (feeWalletId order)
                    (Order.outputWalletId (lo_order order)) false) uwb)
    by apply updateWalletBalances_effect.
  cbv [bind now promiseAll2 orPending ret modifyDb emit]. cbn [db log].
  destruct (firstBeforeSecond _).
  - match goal with |- context [uwb ?w1] =>
      destruct (Hu w1) as [[[] Hr] Hw]; destruct (uwb w1) as [ru w2]
    end.
    cbn [fst snd] in *. subst ru. cbn. split; [eexists; reflexivity | exact Hw].
  - destruct (Hu w) as [[[] Hr] Hw]. destruct (uwb w) as [ru w2].
    cbn [fst snd] in *. subst ru. cbn. split; [eexists; reflexivity | exact Hw].
Qed.

Lemma settle_failure_ledger env (order : LoadedOrder) (txFee : Z) (w : World) (k : Z) :
  validAmountText txFee = true →
  let o := lo_order order in
  let r := handleTransactionFailure env order txFee false w in
  r.1 = inr tt
  ∧ wallets (db r.2) !! k =
      Wallet.addBalances
        ((if bool_decide (k = Order.inputWalletId o) then Order.inAmount o else 0)
         + (if bool_decide (Order.orderDirection o = buy ∧ k = feeWalletId order)
            then - txFee else 0))
        (if bool_decide (k = Order.inputWalletId o) then - Order.inAmount o else 0)
      <$> wallets (db w) !! k.
Proof.
  intros Hv o r.
  destruct (handleTransactionFailure_effect env order txFee Hv w) as [[[] Hr] Hw].
  split; [exact Hr |]. subst r. rewrite Hw, ledgerUpdates_lookup. fold o.
  apply addBalances_ext; unfold confirmedDelta, unconfirmedDelta;
    repeat case_bool_decide; try lia; try tauto; intuition congruence.
Qed.

(** C4, the code against the claim.  A submitted sell order whose
    transaction landed and reverted with a network fee of 5,000 is settled as
    failed with that fee recorded on the order; the reservation of
    40,000,000 is refunded to the input wallet, and the fee-paying wallet
    (the input wallet's parent) keeps its confirmed balance of 1,000,000:
    the fee, paid on chain, is debited from no wallet.  The failed buy of
    scenario C is debited: its fee-paying wallet ends at 995,000. *)
Theorem failed_sell_fee_not_debited :
  let env := Scenario.network (inr true) (Some Scenario.landedSell) in
  let r := checkConfirmation env 1 Scenario.worldSell in
  let envC := Scenario.network (inr true) (Some (Scenario.landedBuy true)) in
  let rC := checkConfirmation envC 1 Scenario.worldA in
  r.1 = inr (Some transactionFailed) ∧
  Order.networkFee <$> orders (db r.2) !! 1 = Some 5000 ∧
  Scenario.balancesOf Scenario.worldSell 2 = Some (60000000, 40000000) ∧
  Scenario.balancesOf r.2 2 = Some (100000000, 0) ∧
  Scenario.balancesOf Scenario.worldSell 1 = Some (1000000, 0) ∧
  Scenario.balancesOf r.2 1 = Some (1000000, 0) ∧
  rC.1 = inr (Some transactionFailed) ∧
  Order.networkFee <$> orders (db rC.2) !! 1 = Some 5000 ∧
  Scenario.balancesOf Scenario.worldA 1 = Some (600000, 400000) ∧
  Scenario.balancesOf rC.2 1 = Some (995000, 0).
Proof. vm_compute. repeat split; reflexivity. Qed.

(** ** Symbolic execution *)

(** The scrutinee on which the evaluation of a monadic term is stuck. *)
Ltac stuck t :=
  lazymatch t with
  | match ?x with _ => _ end => stuck x
  | ?f _ =>
      lazymatch f with
      | match ?x with _ => _ end => stuck x
      | _ => t
      end
  | _ => t
  end.

Ltac is_stuck_match t :=
  lazymatch t with
  | match _ with _ => _ end => idtac
  | ?f _ => lazymatch f with match _ with _ => _ end => idtac end
  end.

(** Unfold the monad (not the store). *)
Ltac unfold_monad :=
  cbv [transaction bind ret throw tryCatch getDb now emit modifyDb await
       promiseAll3 promiseAll2 orPending pending];
  cbn [db log].

(** ** Order submission *)

Definition isDbWrite (e : Event) : Prop :=
  match e with
  | EvInsert _ _ | EvUpdate _ _ => True
  | _ => False
  end.

Section Submission.

Variables (env : Env) (userId : Z) (sig inputATA outputATA : string)
  (rawAmount : Z) (amountInUsd : Q) (ourFeeInLamports priorityFee : Z)
  (recentBlockhash : BlockHash) (limitOrder dcaPubKey : option string).

(** The row that a submission inserts. *)
Definition submittedOrder (marketId inputWalletId outputWalletId : Z) : Order.t :=
  Order.mk userId marketId inputWalletId outputWalletId (Some sig) rawAmount
    amountInUsd None ourFeeInLamports 0 swap buy false
    submitted (Some (mkOrderDetails (Some recentBlockhash) priorityFee)).

(** The three ways one call of
    [transactionalCreateOrderAndSendToNetwork] can end. *)
Inductive SubmitOutcome (w : World) : (JsError + string) * World → Prop :=
  | SubmitAborted e evs :
      (* rejected before the broadcast: rolled back *)
      Forall isDbWrite evs →
      SubmitOutcome w
        (inl e, mkWorld (db w) (log w ++ [EvBegin] ++ evs ++ [EvRollback]))
  | SubmitBroadcastFailed e evs :
      (* the broadcast itself rejected: rolled back *)
      Forall isDbWrite evs →
      SubmitOutcome w
        (inl e, mkWorld (db w)
                  (log w ++ [EvBegin] ++ evs ++ [EvBroadcast sig; EvRollback]))
  | SubmitCommitted sig' u marketId inputWalletId iw outputWalletId orderId
      wallets1 evs writes :
      (* the three writes, in the order in which they took effect *)
      writes ≡ₚ [EvUpdate TUsers userId; EvInsert TOrders orderId;
                 EvUpdate TWallets inputWalletId] →
      users (db w) !! userId = Some u →
      wallets (db w) !! inputWalletId = Some iw →
      (wallets1 = wallets (db w) ∧ evs = []
       ∨ ∃ nw, wallets (db w) !! outputWalletId = None
               ∧ wallets1 = <[outputWalletId := nw]> (wallets (db w))
               ∧ evs = [EvInsert TWallets outputWalletId]) →
      orders (db w) !! orderId = None →
      SubmitOutcome w
        (inr sig',
         mkWorld
           (mkDB (alter (fun _ => resetSelection sig u) userId (users (db w)))
                 (alter (Wallet.addBalances (- rawAmount) rawAmount)
                        inputWalletId wallets1)
                 (keys (db w)) (tokens (db w)) (markets (db w))
                 (<[orderId := submittedOrder marketId inputWalletId outputWalletId]>
                    (orders (db w)))
                 (pnls (db w)))
           (log w ++ [EvBegin] ++ evs ++ writes ++ [EvBroadcast sig; EvCommit])).

Lemma joinUser_user d id u lu : joinUser d id u = Some lu → lu_user lu = u.
Proof.
  unfold joinUser. repeat case_match; intros; simplify_eq. reflexivity.
Qed.

Lemma submit_outcome w :
  SubmitOutcome w
    (transactionalCreateOrderAndSendToNetwork env userId sig inputATA outputATA
       rawAmount amountInUsd ourFeeInLamports priorityFee recentBlockhash
       limitOrder dcaPubKey w).
Proof.
  destruct w as [d l].
  cbv [transactionalCreateOrderAndSendToNetwork User_save Order_create
       Wallet_update Wallet_create execute].
  unfold_monad.
  repeat (match goal with
          | |- SubmitOutcome _ ?t =>
              is_stuck_match t; let s := stuck t in destruct s eqn:?
          end; cbn [db log]).
  all: repeat match goal with
       | |- context [completes ?s ?n] => destruct (completes s n)
       end; cbn [db log fst snd].
  all: cbv [withUsers withWallets withOrders];
       cbn [users wallets keys tokens markets orders pnls];
       rewrite <- ?app_assoc; cbn [app].
  all: try (apply (SubmitAborted (mkWorld d l) _ []); constructor).
  all: try (apply (SubmitAborted (mkWorld d l) _ [_]); repeat constructor).
  all: try (apply (SubmitAborted (mkWorld d l) _ [_; _]); repeat constructor).
  all: try (apply (SubmitAborted (mkWorld d l) _ [_; _; _]); repeat constructor).
  all: try (apply (SubmitBroadcastFailed (mkWorld d l) _ [_; _; _]); repeat constructor).
  all: try (apply (SubmitBroadcastFailed (mkWorld d l) _ [_; _; _; _]); repeat constructor).
  all: repeat match goal with
       | H : joinUser _ _ _ = Some _ |- _ => apply joinUser_user in H; subst
       | H : findOne _ (wallets _) = Some _ |- _ => apply findOne_Some in H as [H _]
       | H : (if _ then _ else _) = Some _ |- _ => idtac
       end.
  all: match goal with
       | Hu : users ?d0 !! userId = Some ?u |- SubmitOutcome ?w0 _ =>
           first
             [ eapply (SubmitCommitted w0 _ u _ _ _ _ _ (wallets d0) [] [_; _; _]);
               cbn [db log users wallets orders];
               [ solve_Permutation | exact Hu | eassumption
               | left; split; reflexivity | apply nextId_fresh ]
             | eapply (SubmitCommitted w0 _ u _ _ _ _ _
                         (<[nextId (wallets d0) := _]> (wallets d0))
                         [EvInsert TWallets _] [_; _; _]);
               cbn [db log users wallets orders];
               [ solve_Permutation | exact Hu | eassumption
               | right; eexists; split; [apply nextId_fresh|split; reflexivity]
               | apply nextId_fresh ] ]
       end.
Qed.

End Submission.

(** C2: every successful submission reserving [rawAmount] moves that amount
    from the confirmed to the unconfirmed balance of the input wallet
    ([C - A] and [U + A]) and persists an order in status [submitted] for
    that wallet and amount; the unit has committed. *)
Theorem reserve_on_submission (env : Env) (userId : Z)
    (sig inputATA outputATA : string) (rawAmount : Z) (amountInUsd : Q)
    (ourFeeInLamports priorityFee : Z) (recentBlockhash : BlockHash)
    (limitOrder dcaPubKey : option string) (w w' : World) (sig' : string) :
  transactionalCreateOrderAndSendToNetwork env userId sig inputATA outputATA
    rawAmount amountInUsd ourFeeInLamports priorityFee recentBlockhash
    limitOrder dcaPubKey w = (inr sig', w') →
  ∃ inputWalletId iw iw' orderId o,
    wallets (db w) !! inputWalletId = Some iw
    ∧ wallets (db w') !! inputWalletId = Some iw'
    ∧ Wallet.confirmedBalance iw' = Wallet.confirmedBalance iw - rawAmount
    ∧ Wallet.unconfirmedBalance iw' = Wallet.unconfirmedBalance iw + rawAmount
    ∧ orders (db w) !! orderId = None
    ∧ orders (db w') !! orderId = Some o
    ∧ Order.status o = submitted
    ∧ Order.inputWalletId o = inputWalletId
    ∧ Order.inAmount o = rawAmount
    ∧ Order.transactionId o = Some sig
    ∧ last (log w') = Some EvCommit.
Proof.
  intros Hrun.
  pose proof (submit_outcome env userId sig inputATA outputATA rawAmount
                amountInUsd ourFeeInLamports priorityFee recentBlockhash
                limitOrder dcaPubKey w) as Hout.
  rewrite Hrun in Hout.
  inversion Hout as [| |s u marketId inputWalletId iw outputWalletId orderId
                        wallets1 evs writes Hperm Hu Hiw Hw1 Hfresh]; subst.
  exists inputWalletId, iw, (Wallet.addBalances (- rawAmount) rawAmount iw),
    orderId, (submittedOrder userId sig rawAmount amountInUsd ourFeeInLamports
                priorityFee recentBlockhash marketId
                inputWalletId outputWalletId).
  cbn [db log wallets orders].
  assert (Hiw1 : wallets1 !! inputWalletId = Some iw).
  { destruct Hw1 as [[-> _]|[nw [Hnone [-> _]]]]; [exact Hiw|].
    rewrite lookup_insert_ne; [exact Hiw|]. congruence. }
  split; [exact Hiw|].
  split; [rewrite lookup_alter_eq, Hiw1; reflexivity|].
  split; [unfold Wallet.addBalances; simpl; lia|].
  split; [reflexivity|].
  split; [exact Hfresh|].
  split; [apply lookup_insert_eq|].
  repeat (split; [reflexivity|]).
  change [EvBroadcast sig; EvCommit] with ([EvBroadcast sig] ++ [EvCommit]).
  rewrite !app_assoc, last_app, app_comm_cons, last_snoc. reflexivity.
Qed.

(** Scenario A: a buy reserving 400,000 out of a confirmed balance of
    1,000,000. *)
Lemma reserve_on_submission_scenario_A :
  ∃ inputWalletId iw iw' orderId o,
    wallets (Scenario.store buy 1000000 0) !! inputWalletId = Some iw
    ∧ wallets (db Scenario.worldA) !! inputWalletId = Some iw'
    ∧ Wallet.confirmedBalance iw' = Wallet.confirmedBalance iw - 400000
    ∧ Wallet.unconfirmedBalance iw' = Wallet.unconfirmedBalance iw + 400000
    ∧ orders (Scenario.store buy 1000000 0) !! orderId = None
    ∧ orders (db Scenario.worldA) !! orderId = Some o
    ∧ Order.status o = submitted
    ∧ Order.inputWalletId o = inputWalletId
    ∧ Order.inAmount o = 400000
    ∧ Order.transactionId o = Some "sig-buy"
    ∧ last (log Scenario.worldA) = Some EvCommit.
Proof.
  apply (reserve_on_submission Scenario.quiet 1 "sig-buy" "UserWsolAccount"
           "UserTokenAccount" 400000 (6 # 100) 2000 5 Scenario.blockhash0
           None None (Scenario.world0 buy 1000000 0) Scenario.worldA "sig-buy").
  vm_compute. reflexivity.
Defined.

(** Every order that a submission persists carries direction [buy] and type
    [swap]: the row is built after the user's selection has been reset. *)
Lemma submitted_direction_is_buy (env : Env) (userId : Z)
    (sig inputATA outputATA : string) (rawAmount : Z) (amountInUsd : Q)
    (ourFeeInLamports priorityFee : Z) (recentBlockhash : BlockHash)
    (limitOrder dcaPubKey : option string) (w : World) (id : Z) (o : Order.t) :
  let w' := (transactionalCreateOrderAndSendToNetwork env userId sig inputATA
               outputATA rawAmount amountInUsd ourFeeInLamports priorityFee
               recentBlockhash limitOrder dcaPubKey w).2 in
  orders (db w) !! id = None → orders (db w') !! id = Some o →
  Order.orderDirection o = buy ∧ Order.orderType o = swap.
Proof.
  intros w' Hold Hnew. subst w'.
  pose proof (submit_outcome env userId sig inputATA outputATA rawAmount
                amountInUsd ourFeeInLamports priorityFee recentBlockhash
                limitOrder dcaPubKey w) as Hout.
  inversion Hout as [e evs Hev Heq|e evs Hev Heq|
                     s u marketId inputWalletId iw outputWalletId orderId
                       wallets1 evs writes Hperm Hu Hiw Hw1 Hfresh Heq];
    rewrite <- Heq in Hnew; cbn [snd db orders] in Hnew.
  - congruence.
  - congruence.
  - destruct (decide (orderId = id)) as [->|Hne].
    + rewrite lookup_insert_eq in Hnew. inversion Hnew. split; reflexivity.
    + rewrite lookup_insert_ne in Hnew by exact Hne. congruence.
Qed.

(** C1, the code against the claim: a user whose selected direction is
    [sell] (40 tokens of a balance of 100) submits; the submission succeeds,
    commits and is broadcast, the user's selection is reset to [buy], and the
    persisted order records direction [buy], not the submitted [sell]. *)
Theorem sell_intent_persisted_as_buy :
  let w := Scenario.worldHolding in
  let r := create Scenario.quiet 42 w in
  User.selectedOrderDirection <$> users (db w) !! 1 = Some sell
  ∧ r.1 = inr tt
  ∧ User.selectedOrderDirection <$> users (db r.2) !! 1 = Some buy
  ∧ Order.transactionId <$> orders (db r.2) !! 1 = Some (Some "sig-sell")
  ∧ Order.inAmount <$> orders (db r.2) !! 1 = Some 40000000
  ∧ Order.orderDirection <$> orders (db r.2) !! 1 = Some buy.
Proof. vm_compute. repeat split; reflexivity. Qed.

(** C5 (as amended): in every submission the broadcast is issued inside the
    open database transaction, as its last step: after [BEGIN] and after the
    writes of the unit (the user-selection reset, the Order insertion and the
    balance reservation), and before [COMMIT].  The unit commits only when
    the broadcast call has returned; when that call rejects, or when
    anything before it rejects, the unit is rolled back and the store is as
    before. *)
Theorem broadcast_inside_transaction (env : Env) (userId : Z)
    (sig inputATA outputATA : string) (rawAmount : Z) (amountInUsd : Q)
    (ourFeeInLamports priorityFee : Z) (recentBlockhash : BlockHash)
    (limitOrder dcaPubKey : option string) (w : World) :
  let r := transactionalCreateOrderAndSendToNetwork env userId sig inputATA
             outputATA rawAmount amountInUsd ourFeeInLamports priorityFee
             recentBlockhash limitOrder dcaPubKey w in
  ∃ writes, Forall isDbWrite writes ∧
    ((∃ e, r.1 = inl e ∧ db r.2 = db w
           ∧ log r.2 = log w ++ [EvBegin] ++ writes ++ [EvRollback])
     ∨ (∃ e, r.1 = inl e ∧ db r.2 = db w
             ∧ log r.2 = log w ++ [EvBegin] ++ writes
                           ++ [EvBroadcast sig; EvRollback])
     ∨ (∃ sig' orderId inputWalletId,
          r.1 = inr sig'
          ∧ In (EvUpdate TUsers userId) writes
          ∧ In (EvInsert TOrders orderId) writes
          ∧ In (EvUpdate TWallets inputWalletId) writes
          ∧ log r.2 = log w ++ [EvBegin] ++ writes
                        ++ [EvBroadcast sig; EvCommit])).
Proof.
  intros r. subst r.
  pose proof (submit_outcome env userId sig inputATA outputATA rawAmount
                amountInUsd ourFeeInLamports priorityFee recentBlockhash
                limitOrder dcaPubKey w) as Hout.
  inversion Hout as [e evs Hev Heq|e evs Hev Heq|
                     s u marketId inputWalletId iw outputWalletId orderId
                       wallets1 evs writes Hperm Hu Hiw Hw1 Hfresh Heq].
  - exists evs. split; [exact Hev|]. left. exists e. repeat split; reflexivity.
  - exists evs. split; [exact Hev|]. right; left. exists e.
    repeat split; reflexivity.
  - exists (evs ++ writes).
    assert (Hin : ∀ x, In x [EvUpdate TUsers userId; EvInsert TOrders orderId;
                            EvUpdate TWallets inputWalletId] → In x writes).
    { intros x. apply Permutation_in. symmetry. exact Hperm. }
    split.
    + apply Forall_app. split.
      * destruct Hw1 as [[_ ->]|[nw [_ [_ ->]]]]; repeat constructor.
      * rewrite Hperm. repeat constructor.
    + right; right. exists s, orderId, inputWalletId. cbn [fst snd log].
      split; [reflexivity|].
      rewrite !in_app_iff.
      split; [right; apply Hin; simpl; tauto|].
      split; [right; apply Hin; simpl; tauto|].
      split; [right; apply Hin; simpl; tauto|].
      rewrite <- !app_assoc. reflexivity.
Qed.

(** C5, the claim as stated fails.  In scenario A the broadcast is logged
    before the commit of the unit; and with a network that rejects the
    broadcast, a broadcast has been attempted in a unit that is then rolled
    back. *)
Lemma broadcast_precedes_commit :
  let rejecting :=
    mkEnv (fun _ _ => false) Scenario.timing (fun _ _ _ => inr true)
      (fun _ _ => inr None)
      (fun _ _ => inl (Error "failed to send transaction"))
      (fun _ _ => inr (150 # 1)) (fun _ _ => inr tt)
      (fun _ r => Scenario.builder r) (fun _ _ _ => inr tt) 5
      Scenario.blockhash0 in
  let w := Scenario.world0 buy 1000000 0 in
  log (create Scenario.quiet 42 w).2
    = [EvBegin; EvUpdate TWallets 1; EvInsert TOrders 1; EvUpdate TUsers 1;
       EvBroadcast "sig-buy"; EvCommit]
  ∧ create rejecting 42 w
    = (inl (Error "failed to send transaction"),
       mkWorld (db w)
         [EvBegin; EvUpdate TWallets 1; EvInsert TOrders 1; EvUpdate TUsers 1;
          EvBroadcast "sig-buy"; EvRollback]).
Proof. vm_compute. split; reflexivity. Qed.

(** ** Settlement: what happens to the order row and the log *)

(** What a settlement logs besides its lookups: the writes to the store and,
    when a sell updates an open PnL row, the request for the SOL price. *)
Definition isSettlementStep (e : Event) : Prop :=
  match e with
  | EvInsert _ _ | EvUpdate _ _ | EvPriceRequest _ => True
  | _ => False
  end.

Lemma isDbWrite_step e : isDbWrite e → isSettlementStep e.
Proof. destruct e; simpl; auto. Qed.

Lemma logged_weaken (P Q : Event → Prop) {A} (m : M A) :
  (∀ e, P e → Q e) → stable (logged P) m → stable (logged Q) m.
Proof.
  intros HPQ Hm w. destruct (Hm w) as [evs [Hlog Hev]].
  exists evs. split; [exact Hlog|]. eapply Forall_impl; eauto.
Qed.

Lemma Wallet_update_logged id dc du : stable (logged isDbWrite) (Wallet_update id dc du).
Proof. unfold Wallet_update. frame. Qed.

Lemma updateWalletBalances_logged env dir a b c d i p o s :
  stable (logged isDbWrite) (updateWalletBalances env dir a b c d i p o s).
Proof. unfold updateWalletBalances. frame; apply Wallet_update_logged. Qed.

Lemma Order_save_logged id v f g : stable (logged isDbWrite) (Order_save id v f g).
Proof. unfold Order_save. frame. Qed.

#[global] Hint Resolve Wallet_update_logged updateWalletBalances_logged
  Order_save_logged : frame.

Lemma PnL_create_logged p : stable (logged isDbWrite) (PnL_create p).
Proof. unfold PnL_create. frame. Qed.

Lemma PnL_update_logged id f : stable (logged isDbWrite) (PnL_update id f).
Proof. unfold PnL_update. frame. Qed.

#[global] Hint Resolve PnL_create_logged PnL_update_logged : frame.

Lemma handleTransactionFailure_logged env order fee s :
  stable (logged isDbWrite) (handleTransactionFailure env order fee s).
Proof. unfold handleTransactionFailure. frame. Qed.

#[global] Hint Resolve handleTransactionFailure_logged : frame.

#[global] Hint Extern 2 (stable (logged isSettlementStep) _) =>
  apply (logged_weaken isDbWrite); [apply isDbWrite_step|] : frame.

Lemma updateOrCreatePnL_logged env b o x y :
  stable (logged isSettlementStep) (updateOrCreatePnL env b o x y).
Proof. unfold updateOrCreatePnL. frame. Qed.

#[global] Hint Resolve updateOrCreatePnL_logged : frame.

Lemma updateOrderWalletPnL_logged env b order x f y s :
  stable (logged isSettlementStep) (updateOrderWalletPnL env b order x f y s).
Proof. unfold updateOrderWalletPnL. frame. Qed.

#[global] Hint Resolve updateOrderWalletPnL_logged : frame.

Lemma settleWithInfo_logged env order ti :
  stable (logged isSettlementStep) (settleWithInfo env order ti).
Proof. unfold settleWithInfo. frame. Qed.

(** The row assignment of a failed and of a confirmed settlement. *)
Definition markFailed (txFee : Z) (row : Order.t) : Order.t :=
  Order.settle (Order.outAmount row) txFee failed false row.
Definition markConfirmed (outAmount txFee : Z) (row : Order.t) : Order.t :=
  Order.settle (Some outAmount) txFee confirmed true row.

(** [rowStep f id valid]: the orders table is as it was, or, when the
    validators of [order.save()] pass, row [id] has been assigned by [f]. *)
Definition rowStep (f : Order.t → Order.t) (id : Z) (valid : bool)
    (w w' : World) : Prop :=
  orders (db w') = orders (db w)
  ∨ (valid = true ∧ orders (db w') = alter f id (orders (db w))).

Lemma rowStep_preorder f id valid :
  (∀ o, f (f o) = f o) → PreOrder (rowStep f id valid).
Proof.
  intros Hf. split.
  - intros w. left. reflexivity.
  - intros w1 w2 w3 [H1 | [Hv H1]] [H2 | [Hv2 H2]].
    + left. congruence.
    + right. split; [assumption|]. rewrite H2, H1. reflexivity.
    + right. split; [assumption|]. congruence.
    + right. split; [assumption|]. rewrite H2, H1, alter_alter_eq.
      apply alter_ext. intros o _. apply Hf.
Qed.

#[global] Instance rowStep_markFailed fee id valid :
  PreOrder (rowStep (markFailed fee) id valid).
Proof. apply rowStep_preorder. intros []; reflexivity. Qed.

#[global] Instance rowStep_markConfirmed out fee id valid :
  PreOrder (rowStep (markConfirmed out fee) id valid).
Proof. apply rowStep_preorder. intros []; reflexivity. Qed.

Lemma Order_save_rowStep id valid field f :
  stable (rowStep f id valid) (Order_save id valid field f).
Proof.
  intros w. unfold Order_save. destruct valid; cbn.
  - right. split; reflexivity.
  - left. reflexivity.
Qed.

Lemma sameOrders_rowStep {A} f id valid (m : M A) :
  stable sameOrders m → stable (rowStep f id valid) m.
Proof. intros H w. left. apply H. Qed.

Lemma Order_save_resolved id valid field f w u w' :
  Order_save id valid field f w = (inr u, w') →
  valid = true ∧ orders (db w') = alter f id (orders (db w)).
Proof.
  unfold Order_save. destruct valid; cbn; intros H; inversion H.
  split; reflexivity.
Qed.

Lemma handleTransactionFailure_rowStep env order fee s :
  stable (rowStep (markFailed fee) (lo_id order) (validAmountText fee))
    (handleTransactionFailure env order fee s).
Proof.
  unfold handleTransactionFailure.
  apply stable_bind; [apply _ | apply stable_now; apply _ | intros t].
  apply stable_bind; [apply _ | | intros ?; apply stable_ret; apply _].
  apply stable_promiseAll2;
    [ apply _
    | apply (Order_save_rowStep _ _ _ (markFailed fee))
    | apply sameOrders_rowStep, updateWalletBalances_sameOrders ].
Qed.

(** [handleTransactionFailure] resolves exactly when the fee passes the
    validators of [order.save()]; then the order row is marked failed. *)
Lemma handleTransactionFailure_orders env order fee s w :
  let r := handleTransactionFailure env order fee s w in
  if validAmountText fee
  then r.1 = inr tt
       ∧ orders (db r.2) = alter (markFailed fee) (lo_id order) (orders (db w))
  else (∃ e, r.1 = inl e) ∧ orders (db r.2) = orders (db w).
Proof.
  intros r.
  pose proof (handleTransactionFailure_rowStep env order fee s w) as Hstep.
  fold r in Hstep.
  destruct r as [[e | []] w'] eqn:Hr; subst r; cbn [fst snd] in *.
  - destruct (validAmountText fee) eqn:Hv.
    + exfalso. revert Hr. unfold handleTransactionFailure, Order_save.
      rewrite Hv.
      set (uwb := updateWalletBalances _ _ _ _ _ _ _ _ _ _).
      assert (Hu : ∀ w1, (uwb w1).1 = inr tt)
        by (intros; apply updateWalletBalances_ok).
      cbv [bind now promiseAll2 orPending ret modifyDb emit]. cbn [db log].
      destruct (firstBeforeSecond _).
      * match goal with |- context [uwb ?w1] =>
          specialize (Hu w1); destruct (uwb w1) as [ru w2]
        end.
        cbn [fst] in Hu. subst ru. discriminate.
      * specialize (Hu w). destruct (uwb w) as [ru w2].
        cbn [fst] in Hu. subst ru. discriminate.
    + split; [eexists; reflexivity|].
      destruct Hstep as [H | [H _]]; [exact H | discriminate H].
  - unfold handleTransactionFailure in Hr.
    apply bind_inr in Hr as (t & w0 & Ht & H). apply ret_inr in Ht as [_ <-].
    apply bind_inr in H as (x & w1 & H & Hret). apply ret_inr in Hret as [_ <-].
    apply promiseAll2_resolved in H as (wa & wa' & wb & wb' & [y Ha] & [z Hb] & Hord).
    apply (Order_save_resolved _ _ _ (markFailed fee)) in Ha as [Hv Ha]. rewrite Hv.
    split; [reflexivity|].
    pose proof (stable_run _ _ _ _ _
                  (updateWalletBalances_sameOrders env _ _ _ _ _ _ _ _ _) Hb) as Sb.
    unfold sameOrders in Sb.
    destruct Hord as [(? & ? & ?) | (? & ? & ?)]; subst; congruence.
Qed.

(** [updateOrderWalletPnL] can resolve only when the realized amounts pass
    the validators of [order.save()], and then the order row is marked
    confirmed; when it rejects, the row has been marked or is as it was,
    depending on which of the calls under [Promise.all] came first. *)
Lemma updateOrderWalletPnL_rowStep env baseWalletId order base fee quote s :
  let out := match Order.orderDirection (lo_order order) with
             | buy => base
             | sell => quote
             end in
  stable (rowStep (markConfirmed out fee) (lo_id order)
            ((0 <=? out) && (0 <=? fee))%bool)
    (updateOrderWalletPnL env baseWalletId order base fee quote s).
Proof.
  intros out. unfold updateOrderWalletPnL. fold out.
  apply stable_bind; [apply _ | apply stable_now; apply _ | intros t].
  apply stable_bind; [apply _ | | intros ?; apply stable_ret; apply _].
  apply stable_promiseAll3;
    [ apply _
    | apply (Order_save_rowStep _ _ _ (markConfirmed out fee))
    | apply sameOrders_rowStep, updateWalletBalances_sameOrders
    | apply sameOrders_rowStep, updateOrCreatePnL_sameOrders ].
Qed.

Lemma updateOrderWalletPnL_orders env baseWalletId order base fee quote s w w' :
  let out := match Order.orderDirection (lo_order order) with
             | buy => base
             | sell => quote
             end in
  updateOrderWalletPnL env baseWalletId order base fee quote s w = (inr tt, w') →
  ((0 <=? out) && (0 <=? fee))%bool = true
  ∧ orders (db w') = alter (markConfirmed out fee) (lo_id order) (orders (db w)).
Proof.
  intros out H. unfold updateOrderWalletPnL in H. fold out in H.
  apply bind_inr in H as (t & w0 & Ht & H). apply ret_inr in Ht as [_ <-].
  apply bind_inr in H as (r & w1 & H & Hret). apply ret_inr in Hret as [_ <-].
  apply promiseAll3_resolved in H
    as (wa & wa' & wb & wb' & wc & wc' & [x Ha] & [y Hb] & [z Hc] & Hord).
  apply (Order_save_resolved _ _ _ (markConfirmed out fee)) in Ha as [Hv Ha].
  split; [exact Hv|].
  pose proof (stable_run _ _ _ _ _
                (updateWalletBalances_sameOrders env _ _ _ _ _ _ _ _ _) Hb) as Sb.
  pose proof (stable_run _ _ _ _ _ (updateOrCreatePnL_sameOrders env _ _ _ _) Hc) as Sc.
  unfold sameOrders in *.
  destruct Hord as [H|[H|[H|[H|[H|H]]]]]; destruct H as (? & ? & ? & ?); subst;
    congruence.
Qed.

Lemma loaded_order_inv (d : DB) (id : Z) (order : LoadedOrder) :
  orders d !! id ≫= joinOrder d id = Some order →
  orders d !! id = Some (lo_order order) ∧ lo_id order = id.
Proof.
  destruct (orders d !! id) as [o|] eqn:Ho; cbn; [|discriminate].
  unfold joinOrder. intros H.
  repeat match type of H with
         | context [?x ≫= _] =>
             let E := fresh in destruct x eqn:E; cbn in H; [|discriminate]
         end.
  inversion H. split; reflexivity.
Qed.

(** How one call of [checkConfirmation] can end, seen from the orders table.
    The function never rejects: its own [catch] turns every error into
    [undefined]. *)
Inductive CheckOutcome (id : Z) (w : World)
    : (JsError + option CheckResult) * World → Prop :=
  | CheckSkipped w' :
      orders (db w') = orders (db w) →
      CheckOutcome id w (inr None, w')
  | CheckAlready o :
      orders (db w) !! id = Some o →
      isTerminal (Order.status o) = true →
      CheckOutcome id w (inr (Some (alreadyProcessed (Order.status o))), w)
  | CheckSettled o f res w' :
      orders (db w) !! id = Some o →
      isTerminal (Order.status o) = false →
      ((∃ fee, f = markFailed fee ∧ (res = None ∨ res = Some transactionFailed))
       ∨ (∃ out fee, f = markConfirmed out fee
                     ∧ (res = None ∨ res = Some transactionConfirmed))) →
      orders (db w') = alter f id (orders (db w)) →
      CheckOutcome id w (inr res, w').

Lemma check_outcome env id w : CheckOutcome id w (checkConfirmation env id w).
Proof.
  destruct w as [d l].
  cbv [checkConfirmation getOrderById confirmOrLookup fetchTransactionInfo
       settleWithInfo].
  unfold_monad.
  repeat (match goal with
          | |- CheckOutcome _ _ ?t =>
              is_stuck_match t; let s := stuck t in destruct s eqn:?
          end; cbn [db log]).
  all: try (apply CheckSkipped; reflexivity).
  all: match goal with
       | H : orders _ !! _ ≫= joinOrder _ _ = Some _ |- _ =>
           apply loaded_order_inv in H as [Hrow Hid]
       end.
  all: try (apply CheckAlready; assumption).
  all: try match goal with
       | H : handleTransactionFailure ?env ?o ?fee ?s ?w1 = (?r, ?w2) |- _ =>
           pose proof (handleTransactionFailure_orders env o fee s w1) as HH;
           rewrite H in HH; cbn [fst snd db] in HH;
           destruct (validAmountText fee); destruct HH as [H1 H2];
           [ try discriminate H1
           | try (destruct H1 as [? H1]; discriminate H1) ]
       end.
  all: try match goal with
       | H : updateOrderWalletPnL _ _ _ _ _ _ _ _ = (inr ?u, _) |- _ =>
           destruct u; apply updateOrderWalletPnL_orders in H as [_ H2];
           cbn [db] in H2
       | H : updateOrderWalletPnL ?env ?b ?o ?x ?fee ?y ?s ?w1 = (inl _, _) |- _ =>
           pose proof (updateOrderWalletPnL_rowStep env b o x fee y s w1) as HH;
           rewrite H in HH; cbn [fst snd db] in HH; destruct HH as [H2 | [_ H2]]
       end.
  all: try (apply CheckSkipped; assumption).
  all: rewrite ?Hid in *.
  all: try (eapply (CheckSettled _ _ _ (markFailed _)); [eassumption|assumption| |eassumption];
            left; eexists; split; [reflexivity|tauto]).
  all: try (eapply (CheckSettled _ _ _ (markConfirmed _ _)); [eassumption|assumption| |eassumption];
            right; eexists _, _; split; [reflexivity|tauto]).
Qed.

(** ** Idempotent settlement *)

(** On an order that is already [confirmed] or [failed],
    [checkConfirmation] changes nothing at all: no row, no balance, no PnL
    position, and no event (no RPC call is made). *)
Lemma terminal_noop env id w o :
  orders (db w) !! id = Some o →
  isTerminal (Order.status o) = true →
  (checkConfirmation env id w).2 = w.
Proof.
  intros Ho Ht. destruct w as [d l]. cbn [db] in Ho.
  cbv [checkConfirmation getOrderById confirmOrLookup fetchTransactionInfo
       settleWithInfo].
  unfold_monad. rewrite Ho. cbn [mbind option_bind].
  destruct (joinOrder d id o) as [order|] eqn:Hj; [|reflexivity].
  assert (Hrow : lo_order order = o).
  { pose proof (loaded_order_inv d id order) as Hinv.
    rewrite Ho in Hinv. cbn [mbind option_bind] in Hinv.
    destruct (Hinv Hj) as [Heq _]. congruence. }
  rewrite Hrow, Ht.
  repeat (match goal with
          | |- (?t).2 = _ =>
              is_stuck_match t; let s := stuck t in destruct s eqn:?
          end; cbn [db log]).
  all: reflexivity.
Qed.

Lemma markFailed_terminal fee o : isTerminal (Order.status (markFailed fee o)) = true.
Proof. reflexivity. Qed.

Lemma markConfirmed_terminal out fee o :
  isTerminal (Order.status (markConfirmed out fee o)) = true.
Proof. reflexivity. Qed.

(** C7: settlement is idempotent.  An order in a terminal status is not
    selected by the reconciler (whatever rows other sessions have locked),
    and a direct call of [checkConfirmation] on it leaves the whole world as
    it was: the order, every wallet balance, every PnL row, and the log.
    Moreover, after any call of [checkConfirmation] that returned a result
    (settled now, or already processed), a second call on the same order is a
    no-op, whatever the network answers. *)
Theorem terminal_order_untouched (env env' : Env) (id : Z) (w : World) (o : Order.t) :
  orders (db w) !! id = Some o →
  isTerminal (Order.status o) = true →
  (∀ v, (id, v) ∉ findAll (selectedForReconciliation env) (orders (db w)))
  ∧ (checkConfirmation env id w).2 = w
  ∧ (∀ w0,
       match checkConfirmation env id w0 with
       | (inr (Some _), w1) => (checkConfirmation env' id w1).2 = w1
       | _ => True
       end).
Proof.
  intros Ho Ht. split; [|split].
  - intros v Hin. apply findAll_elem in Hin as [Hv Hsel].
    unfold selectedForReconciliation in Hsel.
    apply andb_prop in Hsel as [Hst _]. apply bool_decide_eq_true in Hst.
    rewrite Ho in Hv. inversion Hv; subst. rewrite Hst in Ht. discriminate.
  - apply (terminal_noop env id w o Ho Ht).
  - intros w0. pose proof (check_outcome env id w0) as Hout.
    destruct (checkConfirmation env id w0) as [[e|[r|]] w1]; [exact I| |exact I].
    inversion Hout as [|o0 Ho0 Ht0|o0 f res w' Ho0 Hnt Hf Hw']; subst.
    + apply (terminal_noop env' id w1 o0 Ho0 Ht0).
    + apply (terminal_noop env' id w1 (f o0)).
      * rewrite Hw', lookup_alter_eq, Ho0. reflexivity.
      * destruct Hf as [[fee [-> _]]|[out [fee [-> _]]]]; reflexivity.
Qed.

(** The order of scenario A once it has been confirmed (scenario B):
    a second reconciliation changes nothing. *)
Lemma terminal_order_untouched_scenario_B :
  let envB := Scenario.network (inr true) (Some (Scenario.landedBuy false)) in
  let worldB := (checkConfirmation envB 1 Scenario.worldA).2 in
  (∀ v, (1, v) ∉ findAll (selectedForReconciliation envB) (orders (db worldB)))
  ∧ (checkConfirmation envB 1 worldB).2 = worldB
  ∧ (∀ w0,
       match checkConfirmation envB 1 w0 with
       | (inr (Some _), w1) => (checkConfirmation Scenario.quiet 1 w1).2 = w1
       | _ => True
       end).
Proof.
  intros envB worldB.
  apply (terminal_order_untouched envB Scenario.quiet 1 worldB
           (markConfirmed 250 5000
              (submittedOrder 1 "sig-buy" 400000 (6 # 100) 2000 5
                 Scenario.blockhash0 1 1 2))).
  - vm_compute. reflexivity.
  - reflexivity.
Defined.

(** ** The outcomes of a reconciliation *)

Definition isLookup (e : Event) : bool :=
  match e with
  | EvGetParsedTransaction _ => true
  | _ => false
  end.

(** Number of direct lookups by signature ([getParsedTransaction]) logged. *)
Definition countLookups (l : list Event) : nat := length (List.filter isLookup l).

Lemma countLookups_app l1 l2 : countLookups (l1 ++ l2) = (countLookups l1 + countLookups l2)%nat.
Proof. unfold countLookups. rewrite List.filter_app, length_app. reflexivity. Qed.

(** [checkConfirmation]'s own [catch]: an error becomes [undefined]. *)
Definition caught (x : (JsError + CheckResult) * World)
    : (JsError + option CheckResult) * World :=
  match x with
  | (inr res, w') => (inr (Some res), w')
  | (inl _, w') => (inr None, w')
  end.

(** An order that [checkConfirmation] loads and accepts for settlement:
    found with all its associations, with a transaction id and a blockhash,
    and not in a terminal status. *)
Definition awaitingSettlement (w : World) (id : Z) (order : LoadedOrder)
    (sig : string) (bh : BlockHash) : Prop :=
  orders (db w) !! id ≫= joinOrder (db w) id = Some order
  ∧ Order.transactionId (lo_order order) = Some sig
  ∧ String.eqb sig "" = false
  ∧ Order.details (lo_order order) ≫= recentBlockHash = Some bh
  ∧ ((lastValidBlockHeight bh =? 0) || String.eqb (blockhash bh) "")%bool = false
  ∧ isTerminal (Order.status (lo_order order)) = false.

Section CheckRun.

Variables (env : Env) (id : Z) (w : World) (order : LoadedOrder)
  (sig : string) (bh : BlockHash).
Hypothesis Hready : awaitingSettlement w id order sig bh.

(** The world once [confirmTransaction] and one lookup have been issued. *)
Definition afterLookup : World :=
  mkWorld (db w) (log w ++ [EvConfirmTransaction sig; EvGetParsedTransaction sig]).

(** Blockhash expiry exceeded: one lookup decides. *)
Lemma expired_run s' :
  confirmTransaction env (length (log w)) sig bh
    = inl (TransactionExpiredBlockheightExceededError s') →
  checkConfirmation env id w =
    match getParsedTransaction env (S (length (log w))) sig with
    | inl _ => (inr None, afterLookup)
    | inr None =>
        caught (match handleTransactionFailure env order 0 false afterLookup with
                | (inr _, w') => (inr transactionFailed, w')
                | (inl e, w') => (inl e, w')
                end)
    | inr (Some ti) => caught (settleWithInfo env order ti afterLookup)
    end.
Proof.
  destruct Hready as (Hload & Hsig & Hne & Hbh & Hok & Hnt).
  intros Hexp. unfold afterLookup. destruct w as [d l]. cbn [db log] in *.
  cbv [checkConfirmation getOrderById confirmOrLookup fetchTransactionInfo].
  unfold_monad. rewrite Hload, Hsig.
  destruct sig as [|a s]; [discriminate Hne|].
  rewrite Hbh, Hok, Hnt. cbn [db log]. rewrite Hexp. cbn [db log].
  rewrite length_app, Nat.add_1_r. cbn [length].
  rewrite <- app_assoc. cbn [app].
  destruct (getParsedTransaction env (S (length l)) (String a s)) as [e|[ti|]];
    [reflexivity| |].
  - unfold caught. destruct (settleWithInfo env order ti _) as [[e|res] w'];
      reflexivity.
  - unfold caught. destruct (handleTransactionFailure env order 0 false _) as [[e|[]] w'];
      reflexivity.
Qed.

(** The ordinary path: the network confirmed the transaction. *)
Lemma confirmed_run :
  confirmTransaction env (length (log w)) sig bh = inr true →
  checkConfirmation env id w =
    match getParsedTransaction env (S (length (log w))) sig with
    | inl _ | inr None => (inr None, afterLookup)
    | inr (Some ti) => caught (settleWithInfo env order ti afterLookup)
    end.
Proof.
  destruct Hready as (Hload & Hsig & Hne & Hbh & Hok & Hnt).
  intros Hconf. unfold afterLookup. destruct w as [d l]. cbn [db log] in *.
  cbv [checkConfirmation getOrderById confirmOrLookup fetchTransactionInfo].
  unfold_monad. rewrite Hload, Hsig.
  destruct sig as [|a s]; [discriminate Hne|].
  rewrite Hbh, Hok, Hnt. cbn [db log]. rewrite Hconf. cbn [negb db log].
  rewrite length_app, Nat.add_1_r. cbn [length].
  rewrite <- app_assoc. cbn [app].
  destruct (getParsedTransaction env (S (length l)) (String a s)) as [e|[ti|]];
    [reflexivity| |reflexivity].
  unfold caught. destruct (settleWithInfo env order ti _) as [[e|res] w'];
    reflexivity.
Qed.

End CheckRun.

Lemma caught_world x : (caught x).2 = x.2.
Proof. destruct x as [[e|res] w']; reflexivity. Qed.

Lemma settleWithInfo_err env order ti m w1 :
  meta ti = Some m → err m = true →
  settleWithInfo env order ti w1 =
    match handleTransactionFailure env order (fee m) false w1 with
    | (inr _, w') => (inr transactionFailed, w')
    | (inl e, w') => (inl e, w')
    end.
Proof.
  intros Hm He. unfold settleWithInfo. rewrite Hm, He. unfold_monad.
  destruct (handleTransactionFailure env order (fee m) false w1) as [[e|[]] w'];
    reflexivity.
Qed.

(** A settlement from the metadata of a transaction that executed without
    error resolves only if the fee computed from the balances is
    representable and the realized amounts pass the validators; then the
    order row is marked confirmed and the wallets are updated. *)
Lemma settleWithInfo_ok env order ti m w1 res w2 :
  meta ti = Some m → err m = false →
  settleWithInfo env order ti w1 = (inr res, w2) →
  let o := lo_order order in
  res = transactionConfirmed
  ∧ ∃ out txFee,
      calculateTransactionFee m = inr txFee
      ∧ orders (db w2) = alter (markConfirmed out txFee) (lo_id order) (orders (db w1))
      ∧ wallets (db w2) =
          ledgerUpdates (Order.orderDirection o) (Order.inAmount o) out txFee
            (Order.commission o) (Order.inputWalletId o) (feeWalletId order)
            (Order.outputWalletId o) true (wallets (db w1)).
Proof.
  intros Hm He. unfold settleWithInfo. rewrite Hm, He.
  destruct (preTokenBalances m) as [pre|]; [|discriminate].
  destruct (postTokenBalances m) as [post|]; [|discriminate].
  intros H.
  destruct (Order.orderDirection (lo_order order)) eqn:Hdir.
  all: apply bind_inr in H as (quote & wq & Hq & H);
       destruct (calculateQuoteTokenBalanceChange ti m _) as [?|quote'];
         [discriminate Hq|]; apply ret_inr in Hq as [-> <-];
       apply bind_inr in H as (txFee & wf & Hf & H);
       destruct (calculateTransactionFee m) as [?|txFee'];
         [discriminate Hf|]; apply ret_inr in Hf as [-> <-];
       apply bind_inr in H as ([] & wu & Hu & H);
       apply ret_inr in H as [<- <-].
  all: split; [reflexivity|].
  all: pose proof (updateOrderWalletPnL_orders _ _ _ _ _ _ _ _ _ Hu) as [_ Ho];
       pose proof (updateOrderWalletPnL_wallets _ _ _ _ _ _ _ _ _ Hu) as Hw;
       cbv zeta in Hw; rewrite Hdir in Ho, Hw.
  all: eexists _, _; split; [reflexivity|]; split; [exact Ho|exact Hw].
Qed.

Lemma countLookups_steps evs : Forall isSettlementStep evs → countLookups evs = O.
Proof.
  induction 1 as [|e evs He _ IH]; [reflexivity|].
  unfold countLookups in *. destruct e; simpl in *; try contradiction; exact IH.
Qed.

(** C6: when [confirmTransaction] reports that the blockhash expiry was
    exceeded, the reconciler performs exactly one direct lookup by signature.
    If the transaction is still not found, the order is settled as failed
    with [networkFee = 0]: the result is "failed", the order row is marked
    failed with fee 0, and the reservation is released (the input wallet gets
    [inAmount] back on its confirmed balance and loses it on the unconfirmed
    one, and no other wallet changes).  If it is found, the order is handled
    exactly as on the ordinary confirmed path ([settleWithInfo] on the
    transaction found): an execution error settles it as failed with the fee
    of the transaction metadata (the reservation is released and a buy's fee
    is debited from the fee-paying wallet), and a success settles it as
    confirmed with the fee computed from the metadata's balances (the
    reservation is consumed, a buy's commission and fee are debited and the
    realized amount is credited to the output wallet). *)
Theorem expiry_one_more_lookup (env : Env) (id : Z) (w : World)
    (order : LoadedOrder) (sig s' : string) (bh : BlockHash) :
  awaitingSettlement w id order sig bh →
  confirmTransaction env (length (log w)) sig bh
    = inl (TransactionExpiredBlockheightExceededError s') →
  let o := lo_order order in
  let r := checkConfirmation env id w in
  let lookup := getParsedTransaction env (S (length (log w))) sig in
  countLookups (log r.2) = S (countLookups (log w))
  ∧ (lookup = inr None →
       r.1 = inr (Some transactionFailed)
       ∧ orders (db r.2) !! id = Some (markFailed 0 o)
       ∧ ∀ k, wallets (db r.2) !! k =
                Wallet.addBalances
                  (if bool_decide (k = Order.inputWalletId o)
                   then Order.inAmount o else 0)
                  (if bool_decide (k = Order.inputWalletId o)
                   then - Order.inAmount o else 0)
                <$> wallets (db w) !! k)
  ∧ (∀ ti, lookup = inr (Some ti) →
       r = caught (settleWithInfo env order ti (afterLookup w sig))
       ∧ (∀ env',
            confirmTransaction env' (length (log w)) sig bh = inr true →
            getParsedTransaction env' (S (length (log w))) sig = inr (Some ti) →
            checkConfirmation env' id w
              = caught (settleWithInfo env' order ti (afterLookup w sig)))
       ∧ (∀ m, meta ti = Some m → err m = true → validAmountText (fee m) = true →
               r.1 = inr (Some transactionFailed)
               ∧ orders (db r.2) !! id = Some (markFailed (fee m) o)
               ∧ ∀ k, wallets (db r.2) !! k =
                        Wallet.addBalances
                          ((if bool_decide (k = Order.inputWalletId o)
                            then Order.inAmount o else 0)
                           + (if bool_decide (Order.orderDirection o = buy
                                              ∧ k = feeWalletId order)
                              then - fee m else 0))
                          (if bool_decide (k = Order.inputWalletId o)
                           then - Order.inAmount o else 0)
                        <$> wallets (db w) !! k)
       ∧ (∀ m, meta ti = Some m → err m = false →
               r.1 = inr (Some transactionConfirmed) →
               ∃ out txFee,
                 calculateTransactionFee m = inr txFee
                 ∧ orders (db r.2) !! id = Some (markConfirmed out txFee o)
                 ∧ ∀ k, wallets (db r.2) !! k =
                          Wallet.addBalances
                            ((if bool_decide (Order.orderDirection o = buy
                                              ∧ k = feeWalletId order)
                              then - (Order.commission o + txFee) else 0)
                             + (if bool_decide (k = Order.outputWalletId o)
                                then out else 0))
                            (if bool_decide (k = Order.inputWalletId o)
                             then - Order.inAmount o else 0)
                          <$> wallets (db w) !! k)).
Proof.
  intros Hready Hexp o r lookup.
  pose proof (expired_run env id w order sig bh Hready s' Hexp) as Hrun.
  fold r lookup in Hrun.
  pose proof Hready as (Hload & _).
  apply loaded_order_inv in Hload as [Hrow Hid]. fold o in Hrow.
  assert (Hcount : ∀ w2 : World, logged isSettlementStep (afterLookup w sig) w2 →
                     countLookups (log w2) = S (countLookups (log w))).
  { intros w2 [evs [Hlog Hev]]. rewrite Hlog. unfold afterLookup. cbn [log].
    rewrite !countLookups_app, (countLookups_steps evs Hev).
    unfold countLookups at 2. simpl. lia. }
  assert (Hfailed : ∀ txFee, validAmountText txFee = true →
            let x := handleTransactionFailure env order txFee false (afterLookup w sig) in
            x.1 = inr tt
            ∧ orders (db x.2) !! id = Some (markFailed txFee o)
            ∧ ∀ k, wallets (db x.2) !! k =
                     Wallet.addBalances
                       ((if bool_decide (k = Order.inputWalletId o)
                         then Order.inAmount o else 0)
                        + (if bool_decide (Order.orderDirection o = buy
                                           ∧ k = feeWalletId order)
                           then - txFee else 0))
                       (if bool_decide (k = Order.inputWalletId o)
                        then - Order.inAmount o else 0)
                     <$> wallets (db w) !! k).
  { intros txFee Hvalid x.
    pose proof (handleTransactionFailure_orders env order txFee false
                  (afterLookup w sig)) as Ho.
    rewrite Hvalid in Ho. fold x in Ho. destruct Ho as [Hres Ho].
    split; [exact Hres|]. split.
    - rewrite Ho, Hid. unfold afterLookup. cbn [db].
      rewrite lookup_alter_eq, Hrow. reflexivity.
    - intros k.
      destruct (settle_failure_ledger env order txFee (afterLookup w sig) k Hvalid)
        as [_ Hw].
      exact Hw. }
  split; [|split].
  - rewrite Hrun. destruct lookup as [e|[ti|]].
    + apply Hcount. reflexivity.
    + rewrite caught_world. apply Hcount, settleWithInfo_logged.
    + rewrite caught_world.
      pose proof (logged_weaken isDbWrite isSettlementStep _ isDbWrite_step
                    (handleTransactionFailure_logged env order 0 false)
                    (afterLookup w sig)) as Hl.
      destruct (handleTransactionFailure env order 0 false (afterLookup w sig))
        as [[e|[]] w']; apply Hcount, Hl.
  - intros Hnone. rewrite Hrun, Hnone.
    destruct (Hfailed 0 eq_refl) as (Hres & Ho & Hw).
    destruct (handleTransactionFailure env order 0 false (afterLookup w sig))
      as [[e|[]] w']; cbn [caught fst snd] in *; [discriminate Hres|].
    split; [reflexivity|]. split; [exact Ho|].
    intros k. rewrite Hw. apply addBalances_ext; repeat case_bool_decide; lia.
  - intros ti Hti. rewrite Hti in Hrun. split; [exact Hrun|]. split; [|split].
    + intros env' Hconf Hti'.
      rewrite (confirmed_run env' id w order sig bh
                 Hready Hconf), Hti'.
      reflexivity.
    + intros m Hm He Hvalid. rewrite Hrun, (settleWithInfo_err _ _ _ m _ Hm He).
      destruct (Hfailed (fee m) Hvalid) as (Hres & Ho & Hw).
      destruct (handleTransactionFailure env order (fee m) false (afterLookup w sig))
        as [[e|[]] w']; cbn [caught fst snd] in *; [discriminate Hres|].
      split; [reflexivity|]. split; [exact Ho | exact Hw].
    + intros m Hm He Hres. rewrite Hrun in Hres |- *.
      destruct (settleWithInfo env order ti (afterLookup w sig))
        as [[e|res] w'] eqn:Hs; cbn [caught fst snd] in *; [discriminate Hres|].
      destruct (settleWithInfo_ok _ _ _ m _ _ _ Hm He Hs)
        as [_ (out & txFee & Hfee & Hout & Hw)].
      exists out, txFee. split; [exact Hfee|]. split.
      * rewrite Hout, Hid. unfold afterLookup. cbn [db].
        rewrite lookup_alter_eq, Hrow. reflexivity.
      * intros k. rewrite Hw, ledgerUpdates_lookup. fold o.
        unfold afterLookup. cbn [db].
        apply addBalances_ext; unfold confirmedDelta, unconfirmedDelta;
          repeat case_bool_decide; try lia; try tauto; intuition congruence.
Qed.

(** The order of scenario A as [getOrderById] loads it. *)
Definition scenarioA_order : LoadedOrder :=
  mkLoadedOrder 1
    (submittedOrder 1 "sig-buy" 400000 (6 # 100) 2000 5 Scenario.blockhash0
       1 1 2)
    (resetSelection "sig-buy" (Scenario.trader buy))
    (Scenario.solWallet 600000 400000) (Scenario.solWallet 600000 400000)
    Scenario.solToken (Scenario.memeWallet 0 0) Scenario.memeToken.

(** Scenario A's order when the blockhash has expired, in three runs: the
    transaction is not found by the one further lookup (scenario D: the
    reservation of 400,000 returns, no fee); it is found reverted with a fee
    of 5,000 (scenario C); it is found executed (scenario B: 250 units
    arrive, commission 2,000 and fee 5,000 are debited). *)
Lemma expiry_one_more_lookup_scenarios :
  let w := Scenario.worldA in
  let never := checkConfirmation (Scenario.network Scenario.expired None) 1 w in
  let reverted :=
    checkConfirmation
      (Scenario.network Scenario.expired (Some (Scenario.landedBuy true))) 1 w in
  let landed :=
    checkConfirmation
      (Scenario.network Scenario.expired (Some (Scenario.landedBuy false))) 1 w in
  Scenario.balancesOf w 1 = Some (600000, 400000)
  ∧ (countLookups (log never.2) = S (countLookups (log w))
     ∧ never.1 = inr (Some transactionFailed)
     ∧ orders (db never.2) !! 1 = Some (markFailed 0 (lo_order scenarioA_order))
     ∧ Scenario.balancesOf never.2 1 = Some (1000000, 0))
  ∧ (countLookups (log reverted.2) = S (countLookups (log w))
     ∧ reverted.1 = inr (Some transactionFailed)
     ∧ orders (db reverted.2) !! 1
       = Some (markFailed 5000 (lo_order scenarioA_order))
     ∧ Scenario.balancesOf reverted.2 1 = Some (995000, 0))
  ∧ (countLookups (log landed.2) = S (countLookups (log w))
     ∧ ∃ out txFee,
         txFee = 5000
         ∧ orders (db landed.2) !! 1
           = Some (markConfirmed out txFee (lo_order scenarioA_order))
         ∧ Scenario.balancesOf landed.2 1 = Some (600000 - (2000 + txFee), 0)
         ∧ Scenario.balancesOf landed.2 2 = Some (out, 0)).
Proof.
  intros w never reverted landed.
  assert (Hready : awaitingSettlement w 1 scenarioA_order "sig-buy"
                     Scenario.blockhash0)
    by (repeat split; vm_compute; reflexivity).
  split; [vm_compute; reflexivity|]. split; [|split].
  - destruct (expiry_one_more_lookup (Scenario.network Scenario.expired None) 1
                w scenarioA_order "sig-buy" "sig-buy" Scenario.blockhash0
                Hready eq_refl) as (Hcount & Hnever & _).
    destruct (Hnever eq_refl) as (Hres & Hrow & Hwallets).
    split; [exact Hcount|]. split; [exact Hres|]. split; [exact Hrow|].
    unfold Scenario.balancesOf, never. rewrite (Hwallets 1).
    vm_compute. reflexivity.
  - destruct (expiry_one_more_lookup
                (Scenario.network Scenario.expired (Some (Scenario.landedBuy true)))
                1 w scenarioA_order "sig-buy" "sig-buy" Scenario.blockhash0
                Hready eq_refl) as (Hcount & _ & Hfound).
    destruct (Hfound (Scenario.landedBuy true) eq_refl) as (_ & _ & Herr & _).
    destruct (Herr _ eq_refl eq_refl eq_refl) as (Hres & Hrow & Hwallets).
    split; [exact Hcount|]. split; [exact Hres|]. split; [exact Hrow|].
    unfold Scenario.balancesOf, reverted. rewrite (Hwallets 1).
    vm_compute. reflexivity.
  - destruct (expiry_one_more_lookup
                (Scenario.network Scenario.expired (Some (Scenario.landedBuy false)))
                1 w scenarioA_order "sig-buy" "sig-buy" Scenario.blockhash0
                Hready eq_refl) as (Hcount & _ & Hfound).
    destruct (Hfound (Scenario.landedBuy false) eq_refl) as (_ & _ & _ & Hok).
    assert (Hres : landed.1 = inr (Some transactionConfirmed))
      by (vm_compute; reflexivity).
    destruct (Hok _ eq_refl eq_refl Hres) as (out & txFee & Hfee & Hrow & Hwallets).
    split; [exact Hcount|].
    assert (Hout : out = 250).
    { assert (Hr : Order.outAmount <$> orders (db landed.2) !! 1 = Some (Some 250))
        by (vm_compute; reflexivity).
      unfold landed in Hr. rewrite Hrow in Hr. cbn in Hr. congruence. }
    assert (Hfee' : txFee = 5000).
    { assert (Hc : calculateTransactionFee
                     (mkTxMeta false 5000 [10000000; 70000] [9593000; 472000]
                        (Some [])
                        (Some [mkTokenBalance "TokenMint" (Some "UserSol") 250]))
                   = inr 5000) by (vm_compute; reflexivity).
      cbn in Hfee. rewrite Hc in Hfee. congruence. }
    exists out, txFee. split; [exact Hfee'|]. split; [exact Hrow|].
    unfold Scenario.balancesOf, landed. rewrite (Hwallets 1), (Hwallets 2).
    subst out txFee. split; vm_compute; reflexivity.
Defined.


(** ** The PnL close test *)

Fixpoint hasChar (c : ascii) (s : string) : bool :=
  match s with
  | EmptyString => false
  | String x r => (Ascii.eqb x c || hasChar c r)%bool
  end.

Lemma hasChar_app c s1 s2 :
  hasChar c (s1 +:+ s2) = (hasChar c s1 || hasChar c s2)%bool.
Proof.
  induction s1 as [|x r IH]; simpl; [reflexivity|].
  rewrite IH. apply orb_assoc.
Qed.

Lemma hasChar_uint c d :
  isDigit c = false → hasChar c (NilEmpty.string_of_uint d) = false.
Proof.
  intros Hc.
  induction d; cbn [NilEmpty.string_of_uint hasChar]; try reflexivity;
    rewrite IHd, orb_false_r;
    match goal with
    | |- Ascii.eqb ?x c = false =>
        destruct (Ascii.eqb_spec x c) as [<-|]; [discriminate Hc|reflexivity]
    end.
Qed.

Lemma hasChar_decimalText c z :
  isDigit c = false → Ascii.eqb "-" c = false → hasChar c (decimalText z) = false.
Proof.
  intros Hc Hm. unfold decimalText, NilZero.string_of_int.
  assert (Hu : ∀ d, hasChar c (NilZero.string_of_uint d) = false).
  { intros d. unfold NilZero.string_of_uint. destruct d;
      try (apply (hasChar_uint c _ Hc)).
    cbn [hasChar]. rewrite orb_false_r.
    destruct (Ascii.eqb_spec "0"%char c) as [<-|]; [discriminate Hc|reflexivity]. }
  destruct (Z.to_int z); cbn [hasChar]; rewrite ?Hm; apply Hu.
Qed.

Lemma hasChar_zeros c n : Ascii.eqb "0" c = false → hasChar c (zeros n) = false.
Proof.
  intros Hc. induction n; cbn [zeros hasChar]; [reflexivity|].
  rewrite Hc, IHn. reflexivity.
Qed.

(** The close test never succeeds: the column text always carries a
    decimal point and 78 fractional digits and no exponent, whereas
    [toString()] of the integer sum has either no decimal point or an
    exponent. *)
Lemma closeTest_never (pnl : PnL.t) (inAmount : Z) : closeTest pnl inAmount = false.
Proof.
  unfold closeTest. apply String.eqb_neq. intros Heq.
  set (x := PnL.cumulativeSellQuantity pnl + inAmount) in *.
  set (y := PnL.cumulativeBuyQuantity pnl) in *.
  assert (Hdot : hasChar "." (pgNumericText 78 y) = true).
  { unfold pgNumericText. rewrite !hasChar_app. simpl. apply orb_true_r. }
  assert (He : hasChar "e" (pgNumericText 78 y) = false).
  { unfold pgNumericText. rewrite !hasChar_app.
    rewrite hasChar_decimalText, hasChar_zeros by reflexivity. reflexivity. }
  rewrite <- Heq in Hdot, He. unfold bnToString in Hdot, He.
  destruct (Z.abs x <? 10 ^ 21).
  - rewrite hasChar_decimalText in Hdot by reflexivity. discriminate Hdot.
  - rewrite !hasChar_app in He. simpl in He.
    rewrite orb_true_r in He. simpl in He.
    rewrite orb_true_r in He. discriminate He.
Qed.

(** Scenario D: a position with cumulativeBuyQuantity 100 and
    cumulativeSellQuantity 60, and a submitted sell order of the remaining 40
    from the token wallet. *)
Definition scenarioD_world : World :=
  mkWorld
    (mkDB {[ 1 := Scenario.trader buy ]}
       {[ 1 := Scenario.solWallet 1000000 0; 2 := Scenario.memeWallet 0 40 ]}
       {[ 1 := Key.mk "secret" ]}
       {[ 1 := Scenario.solToken; 2 := Scenario.memeToken ]}
       {[ 1 := Market.mk "Pool1" 2 1 false ]}
       {[ 1 := Order.mk 1 1 2 1 (Some "sig-sell") 40 (4 # 100) None 2000 0
                 swap sell false submitted
                 (Some (mkOrderDetails (Some Scenario.blockhash0) 5)) ]}
       {[ 1 := PnL.mk 2 100 (1 # 10) 600000 60 (6 # 100) 450000 false ]})
    [].

(** The sell landed and succeeded: 40 token units left the owner's account,
    295,000 lamports net arrived, the network fee was 5,000. *)
Definition scenarioD_landed : ParsedTransactionWithMeta :=
  mkParsedTx ["UserSol"; "PoolVault"]
    (Some (mkTxMeta false 5000 [10000000; 70000000] [10295000; 69700000]
             (Some [mkTokenBalance "TokenMint" (Some "UserSol") 100])
             (Some [mkTokenBalance "TokenMint" (Some "UserSol") 60]))).

Definition positionOf (w : World) (id : Z) : option (Z * Z * bool) :=
  (fun p => (PnL.cumulativeBuyQuantity p, PnL.cumulativeSellQuantity p,
             PnL.isClosed p)) <$> pnls (db w) !! id.

(** C8, the code against the claim (Scenario D): the sell of the remaining
    40 is settled as confirmed and brings cumulativeSellQuantity to 100, equal
    to cumulativeBuyQuantity, but [isClosed] stays [false]. *)
Theorem full_exit_leaves_position_open :
  let env := Scenario.network (inr true) (Some scenarioD_landed) in
  let r := checkConfirmation env 1 scenarioD_world in
  positionOf scenarioD_world 1 = Some (100, 60, false)
  ∧ r.1 = inr (Some transactionConfirmed)
  ∧ Scenario.statusOf r.2 1 = Some confirmed
  ∧ positionOf r.2 1 = Some (100, 100, false).
Proof. vm_compute. repeat split; reflexivity. Qed.

(** ** The balance check of a submission *)

Lemma Qfloor_half (n : Z) : Qfloor (inject_Z n + (1 # 2)) = n.
Proof.
  unfold Qfloor, Qplus, inject_Z. simpl.
  symmetry. apply Z.div_unique with (r := 1); lia.
Qed.

(** Up to 20 decimals the scaling is exact: the balance divided by
    [10 ^ decimals]. *)
Lemma bnDiv_pow10_exact (balance decimals : Z) :
  0 <= decimals <= 20 →
  (bnDiv (inject_Z balance) (bnPow10 decimals)
   == inject_Z balance / inject_Z (10 ^ decimals))%Q.
Proof.
  intros Hd. unfold bnDiv, bnPow10, bnRound20.
  destruct (Z.leb_spec 0 decimals) as [_|]; [|lia].
  assert (Hpos : 0 < 10 ^ decimals) by (apply Z.pow_pos_nonneg; lia).
  set (k := 10 ^ (20 - decimals)).
  assert (Hk : 10 ^ 20 = k * 10 ^ decimals).
  { unfold k. rewrite <- Z.pow_add_r by lia. f_equal. lia. }
  assert (Hs : (inject_Z balance / inject_Z (10 ^ decimals) * inject_Z (10 ^ 20)
                == inject_Z (balance * k))%Q).
  { rewrite Hk, !inject_Z_mult. field.
    intros H0. unfold Qeq in H0. simpl in H0. lia. }
  assert (Hfloor : ∀ q n, (q == inject_Z n)%Q → Qfloor (q + (1 # 2)) = n).
  { intros q n Hq. rewrite <- (Qfloor_half n). apply Qfloor_comp.
    rewrite Hq. reflexivity. }
  assert (Hround :
    (if Qle_bool 0 (inject_Z balance / inject_Z (10 ^ decimals) * inject_Z (10 ^ 20))
     then Qfloor (inject_Z balance / inject_Z (10 ^ decimals) * inject_Z (10 ^ 20)
                  + (1 # 2))
     else - Qfloor (- (inject_Z balance / inject_Z (10 ^ decimals) * inject_Z (10 ^ 20))
                   + (1 # 2)))
    = balance * k).
  { destruct (Qle_bool 0 _).
    - apply Hfloor, Hs.
    - rewrite (Hfloor _ (- (balance * k))); [lia|].
      rewrite Hs, inject_Z_opp. reflexivity. }
  rewrite Hround, Qmake_Qdiv, Z2Pos.id by lia.
  assert (Hk0 : 0 < k) by (apply Z.pow_pos_nonneg; lia).
  rewrite Hk, !inject_Z_mult. field. split.
  - intros H0. unfold Qeq in H0. simpl in H0. lia.
  - intros H0. unfold Qeq in H0. simpl in H0. lia.
Qed.




(** A sell of 40 tokens against a confirmed balance of 100 token units
    (0.0001 tokens) is refused and leaves no trace. *)
Example insufficient_balance_refused :
  let w := Scenario.world0 sell 1000000 100 in
  create Scenario.quiet 42 w = (inl (Error "User doesn't have enough balance"), w).
Proof. vm_compute. reflexivity. Qed.

(** ** The order lifecycle *)

(** The statuses the swap path uses. *)
Definition lifecycleStatus (st : OrderStatus) : bool :=
  match st with
  | submitted | confirmed | failed => true
  | _ => false
  end.

Definition ordersInLifecycle (d : DB) : Prop :=
  ∀ id o, orders d !! id = Some o → lifecycleStatus (Order.status o) = true.

(** The status transitions of the lifecycle: none, or from [submitted] to a
    terminal status. *)
Definition allowedTransition (s s' : OrderStatus) : Prop :=
  s' = s ∨ (s = submitted ∧ (s' = confirmed ∨ s' = failed)).

(** Every row of [d'] is a row of [d] after an allowed transition, or a new
    row in status [submitted]. *)
Definition ordersEvolve (d d' : DB) : Prop :=
  ∀ id o', orders d' !! id = Some o' →
    match orders d !! id with
    | Some o => allowedTransition (Order.status o) (Order.status o')
    | None => Order.status o' = submitted
    end.

(** The operations of the system that touch orders. *)
Inductive Operation :=
  | OpCreate (telegramId : Z)
      (* the request handler [create] *)
  | OpSubmit (userId : Z) (sig inputATA outputATA : string) (rawAmount : Z)
      (amountInUsd : Q) (ourFeeInLamports priorityFee : Z)
      (recentBlockhash : BlockHash) (limitOrder dcaPubKey : option string)
      (* [transactionalCreateOrderAndSendToNetwork], as other handlers call it *)
  | OpReconcile
      (* one tick of the cron job *)
  | OpCheck (orderId : Z).
      (* [checkConfirmation] on one order *)

Definition perform (env : Env) (op : Operation) (w : World) : World :=
  match op with
  | OpCreate telegramId => (create env telegramId w).2
  | OpSubmit userId sig inputATA outputATA rawAmount amountInUsd ourFee
      priorityFee bh limitOrder dcaPubKey =>
      (transactionalCreateOrderAndSendToNetwork env userId sig inputATA
         outputATA rawAmount amountInUsd ourFee priorityFee bh limitOrder
         dcaPubKey w).2
  | OpReconcile => (start env w).2
  | OpCheck orderId => (checkConfirmation env orderId w).2
  end.

(** Worlds reachable from a store without orders, in any environment. *)
Inductive reachable : World → Prop :=
  | reachable_initial w : orders (db w) = ∅ → reachable w
  | reachable_step env op w : reachable w → reachable (perform env op w).

(** Relations on worlds that only look at the orders table. *)
Definition viaOrders (R : gmap Z Order.t → gmap Z Order.t → Prop)
    (w w' : World) : Prop :=
  R (orders (db w)) (orders (db w')).

(** A submission adds at most one row, in status [submitted]. *)
Definition addsSubmitted (m m' : gmap Z Order.t) : Prop :=
  m' = m ∨ ∃ id o, m !! id = None ∧ m' = <[id := o]> m ∧ Order.status o = submitted.

(** A settlement keeps the rows and only moves non-terminal rows to a
    terminal status. *)
Definition settles (m m' : gmap Z Order.t) : Prop :=
  ∀ id,
    match m !! id, m' !! id with
    | Some o, Some o' =>
        Order.status o' = Order.status o
        ∨ (isTerminal (Order.status o) = false ∧ isTerminal (Order.status o') = true)
    | None, None => True
    | _, _ => False
    end.

#[global] Instance settles_preorder : PreOrder settles.
Proof.
  split.
  - intros m id. destruct (m !! id); auto.
  - intros m1 m2 m3 H12 H23 id. specialize (H12 id). specialize (H23 id).
    destruct (m1 !! id) as [o1|], (m2 !! id) as [o2|], (m3 !! id) as [o3|];
      try contradiction; auto.
    destruct H12 as [E12|[N1 T2]], H23 as [E23|[N2 T3]].
    + left. congruence.
    + right. rewrite <- E12. auto.
    + right. rewrite E23. auto.
    + congruence.
Qed.

#[global] Instance viaOrders_preorder R `{!PreOrder R} : PreOrder (viaOrders R).
Proof.
  split.
  - intros w. unfold viaOrders. reflexivity.
  - intros w1 w2 w3 H12 H23. unfold viaOrders in *. etransitivity; eassumption.
Qed.

Lemma sameOrders_via R `{!Reflexive R} {A} (m : M A) :
  stable sameOrders m → stable (viaOrders R) m.
Proof. intros H w. unfold viaOrders. rewrite (H w). reflexivity. Qed.

Lemma transaction_via R `{!PreOrder R} {A} (cb : M A) :
  stable (viaOrders R) cb → stable (viaOrders R) (transaction cb).
Proof.
  intros H w. unfold transaction.
  specialize (H (mkWorld (db w) (log w ++ [EvBegin]))).
  destruct (cb _) as [[e|a] w1]; unfold viaOrders in *; cbn [fst snd db] in *.
  - reflexivity.
  - exact H.
Qed.

(** Sequencing around a step that is not transitive. *)
Lemma bind_via_pre R `{!Reflexive R} {A B} (m : M A) (k : A → M B) :
  stable sameOrders m → (∀ a, stable (viaOrders R) (k a)) →
  stable (viaOrders R) (bind m k).
Proof.
  intros Hm Hk w. unfold bind. specialize (Hm w).
  destruct (m w) as [[e|a] w1]; unfold viaOrders, sameOrders in *;
    cbn [fst snd] in *.
  - rewrite Hm. reflexivity.
  - specialize (Hk a w1). unfold viaOrders in Hk. rewrite Hm in Hk. exact Hk.
Qed.

Lemma bind_via_post R {A B} (m : M A) (k : A → M B) :
  stable (viaOrders R) m → (∀ a, stable sameOrders (k a)) →
  stable (viaOrders R) (bind m k).
Proof.
  intros Hm Hk w. unfold bind. specialize (Hm w).
  destruct (m w) as [[e|a] w1]; unfold viaOrders, sameOrders in *;
    cbn [fst snd] in *.
  - exact Hm.
  - rewrite (Hk a w1). exact Hm.
Qed.

#[global] Instance addsSubmitted_reflexive : Reflexive addsSubmitted.
Proof. intros m. left. reflexivity. Qed.

(** The read-only helpers. *)
Lemma getUser_sameOrders tg : stable sameOrders (getUser tg).
Proof. unfold getUser. frame. Qed.

Lemma getWalletBalance_sameOrders u m : stable sameOrders (getWalletBalance u m).
Proof. unfold getWalletBalance. frame. Qed.

Lemma getCurrentPnL_sameOrders id : stable sameOrders (getCurrentPnL id).
Proof. unfold getCurrentPnL. frame. Qed.

Lemma getMarketByPoolAddress_sameOrders p : stable sameOrders (getMarketByPoolAddress p).
Proof. unfold getMarketByPoolAddress. frame. Qed.

#[global] Hint Resolve getUser_sameOrders getWalletBalance_sameOrders
  getCurrentPnL_sameOrders getMarketByPoolAddress_sameOrders : frame.

Lemma submit_adds env userId sig inputATA outputATA rawAmount amountInUsd
    ourFee priorityFee bh limitOrder dcaPubKey :
  stable (viaOrders addsSubmitted)
    (transactionalCreateOrderAndSendToNetwork env userId sig inputATA outputATA
       rawAmount amountInUsd ourFee priorityFee bh limitOrder dcaPubKey).
Proof.
  intros w.
  pose proof (submit_outcome env userId sig inputATA outputATA rawAmount
                amountInUsd ourFee priorityFee bh limitOrder dcaPubKey w) as Hout.
  inversion Hout as [e evs Hev Heq|e evs Hev Heq|
                     s u marketId inputWalletId iw outputWalletId orderId
                       wallets1 evs writes Hperm Hu Hiw Hw1 Hfresh Heq];
    unfold viaOrders; cbn [snd db orders].
  - left. reflexivity.
  - left. reflexivity.
  - right. eexists _, _. split; [exact Hfresh|]. split; reflexivity.
Qed.

Lemma create_adds env telegramId :
  stable (viaOrders addsSubmitted) (create env telegramId).
Proof.
  unfold create, submitAfterBalanceCheck.
  apply bind_via_pre; [apply _|apply getUser_sameOrders|intros lu].
  apply bind_via_pre; [apply _|frame|intros bal].
  match goal with
  | |- stable _ (if ?c then _ else _) => destruct c
  end; [apply sameOrders_via; [apply _|frame]|].
  apply bind_via_pre; [apply _|frame|intros price].
  apply bind_via_pre; [apply _|frame|intros t].
  apply bind_via_pre; [apply _|frame|intros tx].
  apply bind_via_post; [apply submit_adds|intros sig'].
  frame.
Qed.

Lemma checkConfirmation_settles env id :
  stable (viaOrders settles) (checkConfirmation env id).
Proof.
  intros w. pose proof (check_outcome env id w) as Hout.
  inversion Hout as [w' Hsame|o Ho Ht|o f res w' Ho Hnt Hf Hw']; subst;
    unfold viaOrders; cbn [snd].
  - rewrite Hsame. reflexivity.
  - reflexivity.
  - rewrite Hw'. intros k. destruct (decide (k = id)) as [->|Hne].
    + rewrite lookup_alter_eq, Ho. cbn. right. split; [exact Hnt|].
      destruct Hf as [[fee [-> _]]|[out [fee [-> _]]]]; reflexivity.
    + rewrite lookup_alter_ne by congruence. destruct (orders (db w) !! k); auto.
Qed.

#[global] Hint Resolve checkConfirmation_settles : frame.
#[global] Hint Extern 1 (stable (viaOrders settles) (emit _)) =>
  apply sameOrders_via; [apply _|apply emit_sameOrders] : frame.

Lemma start_settles env : stable (viaOrders settles) (start env).
Proof.
  unfold start. apply stable_tryCatch; [apply _| |intros e; frame].
  apply transaction_via; [apply _|]. frame.
Qed.

Lemma adds_lifecycle d d' :
  addsSubmitted (orders d) (orders d') → ordersInLifecycle d →
  ordersInLifecycle d' ∧ ordersEvolve d d'.
Proof.
  intros [Heq|(id & o & Hnone & Heq & Hst)] Hinv.
  - split.
    + intros k o' Hk. rewrite Heq in Hk. eauto.
    + intros k o' Hk. rewrite Heq in Hk. rewrite Hk. left. reflexivity.
  - split.
    + intros k o' Hk. rewrite Heq in Hk.
      destruct (decide (id = k)) as [->|Hne].
      * rewrite lookup_insert_eq in Hk. inversion Hk; subst. rewrite Hst. reflexivity.
      * rewrite lookup_insert_ne in Hk by exact Hne. eauto.
    + intros k o' Hk. rewrite Heq in Hk.
      destruct (decide (id = k)) as [->|Hne].
      * rewrite lookup_insert_eq in Hk. inversion Hk; subst. rewrite Hnone. exact Hst.
      * rewrite lookup_insert_ne in Hk by exact Hne. rewrite Hk. left. reflexivity.
Qed.

Lemma nonterminal_is_submitted st :
  lifecycleStatus st = true → isTerminal st = false → st = submitted.
Proof. destruct st; simpl; intros; congruence. Qed.

Lemma terminal_cases st : isTerminal st = true → st = confirmed ∨ st = failed.
Proof. destruct st; simpl; intros; try discriminate; auto. Qed.

Lemma settles_lifecycle d d' :
  settles (orders d) (orders d') → ordersInLifecycle d →
  ordersInLifecycle d' ∧ ordersEvolve d d'.
Proof.
  intros Hs Hinv. split.
  - intros k o' Hk. specialize (Hs k). rewrite Hk in Hs.
    destruct (orders d !! k) as [o|] eqn:Ho; [|contradiction].
    destruct Hs as [Heq|[_ Ht]].
    + rewrite Heq. eauto.
    + destruct (terminal_cases _ Ht) as [->| ->]; reflexivity.
  - intros k o' Hk. specialize (Hs k). rewrite Hk in Hs.
    destruct (orders d !! k) as [o|] eqn:Ho; [|contradiction].
    destruct Hs as [Heq|[Hnt Ht]].
    + left. exact Heq.
    + right. split.
      * apply nonterminal_is_submitted; [eauto|exact Hnt].
      * apply terminal_cases, Ht.
Qed.

Lemma perform_lifecycle env op w :
  ordersInLifecycle (db w) →
  ordersInLifecycle (db (perform env op w)) ∧ ordersEvolve (db w) (db (perform env op w)).
Proof.
  intros Hinv. destruct op; cbn [perform].
  - apply adds_lifecycle; [apply create_adds|exact Hinv].
  - apply adds_lifecycle; [apply submit_adds|exact Hinv].
  - apply settles_lifecycle; [apply start_settles|exact Hinv].
  - apply settles_lifecycle; [apply checkConfirmation_settles|exact Hinv].
Qed.

Lemma reachable_lifecycle w : reachable w → ordersInLifecycle (db w).
Proof.
  induction 1 as [w Hempty|env op w _ IH].
  - intros id o Ho. rewrite Hempty, lookup_empty in Ho. discriminate.
  - apply perform_lifecycle, IH.
Qed.

(** C10: in every world reachable from a store without orders, by any
    sequence of submissions and reconciliations in any environment:
    every order has status [submitted], [confirmed] or [failed] (so
    [created], [submitting] and [confirming] are never assigned); every
    operation leaves each order as it was or moves it from [submitted] to
    [confirmed] or [failed], and every order it creates is created in
    status [submitted]; consequently every order that is not terminal has
    status exactly [submitted] and is returned by the reconciler's selection
    unless another session holds its row lock. *)
Theorem lifecycle_invariant (w : World) :
  reachable w →
  ordersInLifecycle (db w)
  ∧ (∀ env op, ordersEvolve (db w) (db (perform env op w)))
  ∧ (∀ env id o,
       orders (db w) !! id = Some o →
       isTerminal (Order.status o) = false →
       Order.status o = submitted
       ∧ (locked env TOrders id = false →
          (id, o) ∈ findAll (selectedForReconciliation env) (orders (db w)))).
Proof.
  intros Hreach. pose proof (reachable_lifecycle w Hreach) as Hinv.
  split; [exact Hinv|]. split.
  - intros env op. apply perform_lifecycle, Hinv.
  - intros env id o Ho Hnt.
    assert (Hst : Order.status o = submitted)
      by (apply nonterminal_is_submitted; [eauto|exact Hnt]).
    split; [exact Hst|]. intros Hlock.
    apply findAll_elem. split; [exact Ho|].
    unfold selectedForReconciliation. rewrite Hlock, Hst. reflexivity.
Qed.

(** The world of scenario A is reachable: one submission from a store
    without orders. *)
Lemma lifecycle_invariant_scenario_A :
  let w := perform Scenario.quiet (OpCreate 42) (Scenario.world0 buy 1000000 0) in
  ordersInLifecycle (db w)
  ∧ (∀ env op, ordersEvolve (db w) (db (perform env op w)))
  ∧ (∀ env id o,
       orders (db w) !! id = Some o →
       isTerminal (Order.status o) = false →
       Order.status o = submitted
       ∧ (locked env TOrders id = false →
          (id, o) ∈ findAll (selectedForReconciliation env) (orders (db w)))).
Proof.
  apply (lifecycle_invariant
           (perform Scenario.quiet (OpCreate 42) (Scenario.world0 buy 1000000 0))).
  apply reachable_step, reachable_initial. reflexivity.
Defined.

(** * Further properties *)

(** ** The balance changes read from a parsed transaction *)

Definition sumZ (l : list Z) : Z := foldr Z.add 0 l.

Definition sumAmounts (l : list TokenBalance) : Z := sumZ (map amount l).

Lemma fold_left_last_match (P : TokenBalance → bool) l acc :
  fold_left (fun acc b => if P b then amount b else acc) l acc
  = default acc (amount <$> last (List.filter P l)).
Proof.
  revert acc. induction l as [|b r IH]; intros acc; simpl; [reflexivity|].
  rewrite IH. destruct (P b); [|reflexivity].
  rewrite last_cons. destruct (last (List.filter P r)); reflexivity.
Qed.

Lemma fold_left_sub_match (P : TokenBalance → bool) l acc :
  fold_left (fun acc b => if P b then acc - amount b else acc) l acc
  = acc - sumAmounts (List.filter P l).
Proof.
  revert acc. induction l as [|b r IH]; intros acc; simpl.
  - unfold sumAmounts, sumZ. simpl. lia.
  - rewrite IH. destruct (P b); [|reflexivity].
    unfold sumAmounts, sumZ. simpl. lia.
Qed.

(** X1: the base-token change that [calculateBaseTokenChanges] reads from a
    parsed transaction is the amount of the last post-balance entry of the
    account (mint and owner compared without case; zero when there is none)
    minus the sum of the amounts of all its pre-balance entries. *)
Theorem base_token_change_closed_form (post pre : list TokenBalance)
    (mintAddress ownerAddress : string) :
  let matching := List.filter (fun b => sameAccount b mintAddress ownerAddress) in
  calculateBaseTokenChanges post pre mintAddress ownerAddress
  = default 0 (amount <$> last (matching post)) - sumAmounts (matching pre).
Proof.
  intros matching. unfold calculateBaseTokenChanges.
  rewrite fold_left_sub_match, fold_left_last_match. reflexivity.
Qed.

(** [findIndex] returns the first position of the address. *)
Lemma findIndex_Some (keys : list string) (a : string) (i : nat) :
  findIndex keys a = Some i ↔
  keys !! i = Some a ∧ ∀ j, (j < i)%nat → keys !! j ≠ Some a.
Proof.
  revert i. induction keys as [|k r IH]; intros i; simpl.
  - split; [discriminate|]. intros [H _]. discriminate.
  - destruct (String.eqb_spec k a) as [->|Hne].
    + split.
      * intros [= <-]. split; [reflexivity|]. intros j Hj. lia.
      * intros [Hi Hfirst]. destruct i as [|i]; [reflexivity|].
        exfalso. apply (Hfirst O); [lia|reflexivity].
    + split.
      * intros Hf. destruct i as [|i].
        { destruct (findIndex r a); discriminate. }
        assert (Hi : findIndex r a = Some i)
          by (destruct (findIndex r a); simpl in Hf; congruence).
        apply IH in Hi as [Hn Hfirst]. split; [exact Hn|].
        intros [|j] Hj; simpl; [congruence|]. apply Hfirst. lia.
      * intros [Hi Hfirst]. destruct i as [|i]; simpl in Hi; [congruence|].
        assert (Hs : findIndex r a = Some i).
        { apply IH. split; [exact Hi|]. intros j Hj. apply (Hfirst (S j)). lia. }
        rewrite Hs. reflexivity.
Qed.

Lemma findIndex_None (keys : list string) (a : string) :
  findIndex keys a = None ↔ a ∉ keys.
Proof.
  induction keys as [|k r IH]; simpl.
  - split; [intros _; apply not_elem_of_nil|reflexivity].
  - destruct (String.eqb_spec k a) as [->|Hne].
    + split; [discriminate|]. intros H. exfalso. apply H. left.
    + split.
      * intros Hf. apply not_elem_of_cons. split; [congruence|]. apply IH.
        destruct (findIndex r a); [discriminate|reflexivity].
      * intros H. apply not_elem_of_cons in H as [_ H]. apply IH in H.
        rewrite H. reflexivity.
Qed.

(** Integers below 2^53 in magnitude are JavaScript numbers. *)
Lemma toNumber_exact (z : Z) : Z.abs z < 2 ^ 53 → toNumber z = Finite z.
Proof.
  intros Hz. unfold toNumber, roundInteger.
  destruct (Z.ltb_spec (Z.abs z) (2 ^ 53)) as [_ | Hge]; [|lia].
  assert (Hbig : 2 ^ 53 < 2 ^ 1024) by (apply Z.pow_lt_mono_r; lia).
  destruct (Z.leb_spec (2 ^ 1024) z); [lia|].
  destruct (Z.leb_spec z (- 2 ^ 1024)); [lia|].
  reflexivity.
Qed.

Lemma newBN_exact (z : Z) : Z.abs z < 2 ^ 53 → newBN (toNumber z) = inr z.
Proof.
  intros Hz. rewrite toNumber_exact by exact Hz. unfold newBN.
  destruct (Z.ltb_spec (Z.abs z) (2 ^ 53)); [reflexivity | lia].
Qed.

Lemma jsSub_finite (a b : Z) : jsSub (Finite a) (Finite b) = toNumber (a - b).
Proof. reflexivity. Qed.

(** The change read at an index where both arrays have an entry. *)
Lemma quote_change_at (ti : ParsedTransactionWithMeta) (m : TxMeta)
    (a : string) (i : nat) (post pre : Z) :
  findIndex (accountKeys ti) a = Some i →
  postBalances m !! i = Some post → preBalances m !! i = Some pre →
  0 ≤ post < 2 ^ 53 → 0 ≤ pre < 2 ^ 53 →
  calculateQuoteTokenBalanceChange ti m a = inr (post - pre).
Proof.
  intros Hi Hpost Hpre Bpost Bpre. unfold calculateQuoteTokenBalanceChange.
  rewrite Hi. cbn [balanceAt mbind option_bind]. rewrite Hpost, Hpre.
  cbn [fmap option_fmap option_map jsSubUndefined].
  rewrite !toNumber_exact by lia. rewrite jsSub_finite.
  apply newBN_exact. lia.
Qed.

(** X2: [calculateQuoteTokenBalanceChange] reads the lamport change at the
    first position at which the wallet address occurs among the account
    keys of the transaction.  When the address is not an account key, or
    one of the two balance arrays has no entry at that position, the
    difference is [NaN] and the change is zero (the function does not
    fail).  When both entries are there and are lamport amounts below 2^53,
    the change is the post balance minus the pre balance. *)
Theorem quote_change_spec (ti : ParsedTransactionWithMeta) (m : TxMeta)
    (defaultWalletAddress : string) :
  let first i :=
    accountKeys ti !! i = Some defaultWalletAddress
    ∧ ∀ j, (j < i)%nat → accountKeys ti !! j ≠ Some defaultWalletAddress in
  let change := calculateQuoteTokenBalanceChange ti m defaultWalletAddress in
  (defaultWalletAddress ∉ accountKeys ti → change = inr 0)
  ∧ ∀ i, first i →
      (postBalances m !! i = None ∨ preBalances m !! i = None → change = inr 0)
      ∧ ∀ post pre,
          postBalances m !! i = Some post → preBalances m !! i = Some pre →
          0 ≤ post < 2 ^ 53 → 0 ≤ pre < 2 ^ 53 →
          change = inr (post - pre).
Proof.
  intros first change. split.
  - intros Hnot. apply findIndex_None in Hnot.
    unfold change, calculateQuoteTokenBalanceChange. rewrite Hnot. reflexivity.
  - intros i Hi. apply findIndex_Some in Hi. split.
    + intros Hmissing. unfold change, calculateQuoteTokenBalanceChange.
      rewrite Hi. cbn [balanceAt mbind option_bind].
      destruct Hmissing as [-> | ->]; cbn [fmap option_fmap option_map jsSubUndefined].
      * reflexivity.
      * destruct (postBalances m !! i); reflexivity.
    + intros post pre Hpost Hpre Bpost Bpre.
      apply (quote_change_at ti m _ i); assumption.
Qed.

Lemma sumZ_cons (x : Z) (l : list Z) : sumZ (x :: l) = x + sumZ l.
Proof. reflexivity. Qed.

Lemma sumZ_nonneg (l : list Z) : Forall (fun b => 0 ≤ b) l → 0 ≤ sumZ l.
Proof.
  induction 1 as [|x l Hx _ IH]; [reflexivity|]. rewrite sumZ_cons. lia.
Qed.

Lemma sumZ_lookup_le (l : list Z) (i : nat) (b : Z) :
  Forall (fun b => 0 ≤ b) l → l !! i = Some b → 0 ≤ b ≤ sumZ l.
Proof.
  intros Hl. revert i. induction Hl as [|x l Hx Hl IH]; intros i Hi.
  - discriminate.
  - rewrite sumZ_cons. apply sumZ_nonneg in Hl as Hs. destruct i as [|i].
    + injection Hi as <-. lia.
    + specialize (IH i Hi). lia.
Qed.

(** [reduce((a, b) => a + b, 0)] is exact as long as the total stays
    below 2^53. *)
Lemma sumNumbers_exact (l : list Z) :
  Forall (fun b => 0 ≤ b) l → sumZ l < 2 ^ 53 → sumNumbers l = Finite (sumZ l).
Proof.
  intros Hl Hs. unfold sumNumbers.
  enough (H : ∀ a, 0 ≤ a → a + sumZ l < 2 ^ 53 →
              fold_left (fun a b => jsAdd a (toNumber b)) l (Finite a)
              = Finite (a + sumZ l))
    by (rewrite (H 0) by lia; reflexivity).
  clear Hs. induction Hl as [|x l Hx Hl IH]; intros a Ha Hs.
  - cbn. f_equal. unfold sumZ. cbn. lia.
  - rewrite sumZ_cons in Hs. apply sumZ_nonneg in Hl as Hnn.
    cbn [fold_left]. rewrite (toNumber_exact x) by lia.
    cbn [jsAdd]. rewrite toNumber_exact by lia.
    rewrite IH by lia. rewrite sumZ_cons. f_equal. lia.
Qed.

Lemma transaction_fee_exact (m : TxMeta) :
  Forall (fun b => 0 ≤ b) (preBalances m) →
  Forall (fun b => 0 ≤ b) (postBalances m) →
  sumZ (preBalances m) < 2 ^ 53 → sumZ (postBalances m) < 2 ^ 53 →
  calculateTransactionFee m = inr (sumZ (preBalances m) - sumZ (postBalances m)).
Proof.
  intros Hpre Hpost Spre Spost. unfold calculateTransactionFee.
  rewrite !sumNumbers_exact by assumption. rewrite jsSub_finite.
  apply sumZ_nonneg in Hpre, Hpost. apply newBN_exact. lia.
Qed.

(** The changes of the accounts of a transaction, one per key. *)
Definition changeAt (keys : list string) (pre post : list Z) (a : string) : Z :=
  default 0 (i ← findIndex keys a; po ← post !! i; pr ← pre !! i; Some (po - pr)).

Lemma quote_changes_sum (keys : list string) (pre post : list Z) :
  NoDup keys → length pre = length keys → length post = length keys →
  Forall (fun a => ∃ i po pr, findIndex keys a = Some i ∧ post !! i = Some po
                              ∧ pre !! i = Some pr) keys
  ∧ sumZ (map (changeAt keys pre post) keys) = sumZ post - sumZ pre.
Proof.
  intros Hnd. revert pre post.
  induction Hnd as [|k r Hk Hnd IH]; intros pre post Hpre Hpost.
  - destruct pre, post; try discriminate. split; [constructor|reflexivity].
  - destruct pre as [|p pre]; [discriminate|]. destruct post as [|q post]; [discriminate|].
    simpl in Hpre, Hpost.
    destruct (IH pre post) as [Hall Hsum]; [lia|lia|].
    assert (Hidx : ∀ a, a ∈ r → findIndex (k :: r) a = S <$> findIndex r a).
    { intros a Ha. simpl. destruct (String.eqb_spec k a) as [->|Hne]; [contradiction|].
      reflexivity. }
    assert (Hext : ∀ a, a ∈ r →
              changeAt (k :: r) (p :: pre) (q :: post) a = changeAt r pre post a).
    { intros a Ha. unfold changeAt. rewrite (Hidx a Ha).
      destruct (findIndex r a); reflexivity. }
    split.
    + constructor.
      * exists O, q, p. simpl. rewrite String.eqb_refl. auto.
      * rewrite Forall_forall in Hall |- *. intros a Ha.
        destruct (Hall a Ha) as (i & po & pr & Hi & Hpo & Hpr).
        exists (S i), po, pr. rewrite (Hidx a Ha), Hi. auto.
    + cbn [map]. rewrite sumZ_cons.
      rewrite (map_ext_in _ (changeAt r pre post) r).
      * rewrite Hsum, !sumZ_cons. unfold changeAt. simpl.
        rewrite String.eqb_refl. simpl. lia.
      * intros a Ha. apply Hext, list_elem_of_In, Ha.
Qed.

(** X3: when the account keys of a transaction are pairwise distinct, both
    balance arrays have one entry per key, the balances are not negative and
    their totals before and after are below 2^53 (so that the sums that
    [calculateTransactionFee] takes over JavaScript numbers are exact),
    the fee and every account's lamport change are computed without error,
    and the changes of all accounts plus the fee add up to zero: the network
    fee that is recorded is the net amount of lamports that left the
    accounts of the transaction. *)
Theorem lamports_conserved (ti : ParsedTransactionWithMeta) (m : TxMeta) :
  NoDup (accountKeys ti) →
  length (preBalances m) = length (accountKeys ti) →
  length (postBalances m) = length (accountKeys ti) →
  Forall (fun b => 0 ≤ b) (preBalances m) →
  Forall (fun b => 0 ≤ b) (postBalances m) →
  sumZ (preBalances m) < 2 ^ 53 → sumZ (postBalances m) < 2 ^ 53 →
  ∃ txFee changes,
    calculateTransactionFee m = inr txFee
    ∧ Forall2 (fun a c => calculateQuoteTokenBalanceChange ti m a = inr c)
        (accountKeys ti) changes
    ∧ sumZ changes + txFee = 0.
Proof.
  intros Hnd Lpre Lpost Hpre Hpost Spre Spost.
  destruct (quote_changes_sum _ _ _ Hnd Lpre Lpost) as [Hall Hsum].
  exists (sumZ (preBalances m) - sumZ (postBalances m)),
         (map (changeAt (accountKeys ti) (preBalances m) (postBalances m))
              (accountKeys ti)).
  split; [apply transaction_fee_exact; assumption|]. split; [|lia].
  apply Forall2_fmap_r, Forall_Forall2_diag.
  rewrite Forall_forall in Hall |- *. intros a Ha.
  destruct (Hall a Ha) as (i & po & pr & Hi & Hpo & Hpr).
  unfold compose, changeAt. rewrite Hi. cbn [mbind option_bind]. rewrite Hpo. cbn.
  rewrite Hpr. cbn.
  pose proof (sumZ_lookup_le _ _ _ Hpost Hpo).
  pose proof (sumZ_lookup_le _ _ _ Hpre Hpr).
  apply (quote_change_at ti m a i); [assumption..|lia|lia].
Qed.

(** The metadata of the landed buy of scenario B. *)
Definition scenarioB_meta : TxMeta :=
  mkTxMeta false 5000 [10000000; 70000] [9593000; 472000] (Some [])
    (Some [mkTokenBalance "TokenMint" (Some "UserSol") 250]).

Lemma lamports_conserved_scenario_B :
  ∃ txFee changes,
    calculateTransactionFee scenarioB_meta = inr txFee
    ∧ Forall2 (fun a c => calculateQuoteTokenBalanceChange (Scenario.landedBuy false)
                            scenarioB_meta a = inr c)
        (accountKeys (Scenario.landedBuy false)) changes
    ∧ sumZ changes + txFee = 0.
Proof.
  apply (lamports_conserved (Scenario.landedBuy false) scenarioB_meta).
  - apply (bool_decide_unpack _). vm_compute. exact I.
  - reflexivity.
  - reflexivity.
  - repeat constructor; cbn; lia.
  - repeat constructor; cbn; lia.
  - vm_compute. reflexivity.
  - vm_compute. reflexivity.
Defined.

(** ** What one reconciliation of an order can and cannot do *)

(** The events of a settlement: the two RPC calls, the request for the SOL
    price made when a sell updates an open position, and writes to the
    store. *)
Definition isSettlementEvent (e : Event) : Prop :=
  match e with
  | EvConfirmTransaction _ | EvGetParsedTransaction _ | EvPriceRequest _
  | EvInsert _ _ | EvUpdate _ _ => True
  | _ => False
  end.

Lemma isSettlementStep_event e : isSettlementStep e → isSettlementEvent e.
Proof. destruct e; simpl; auto. Qed.

Lemma handleTransactionFailure_settlement env order fee s :
  stable (logged isSettlementEvent) (handleTransactionFailure env order fee s).
Proof.
  apply (logged_weaken isSettlementStep); [apply isSettlementStep_event|].
  apply (logged_weaken isDbWrite); [apply isDbWrite_step|].
  apply handleTransactionFailure_logged.
Qed.

Lemma updateOrderWalletPnL_settlement env b order x f y s :
  stable (logged isSettlementEvent) (updateOrderWalletPnL env b order x f y s).
Proof.
  apply (logged_weaken isSettlementStep); [apply isSettlementStep_event|].
  apply updateOrderWalletPnL_logged.
Qed.

Lemma checkConfirmation_settlement env id :
  stable (logged isSettlementEvent) (checkConfirmation env id).
Proof.
  pose proof (handleTransactionFailure_settlement env).
  pose proof (updateOrderWalletPnL_settlement env).
  unfold checkConfirmation, getOrderById, confirmOrLookup, fetchTransactionInfo,
    settleWithInfo.
  frame.
Qed.

Lemma checkConfirmation_resolves env id w :
  ∃ res, (checkConfirmation env id w).1 = inr res.
Proof.
  unfold checkConfirmation, tryCatch.
  match goal with |- context [match ?m w with _ => _ end] => destruct (m w) as [[e|a] w1] end;
    eexists; reflexivity.
Qed.

(** X4: [checkConfirmation] never rejects (whatever fails inside is caught
    and the result is [undefined]).  What it does is made of: asking the
    network for the confirmation and for the parsed transaction, asking the
    price source for the SOL price (when a sell updates an open position),
    and inserting and updating rows.  It never broadcasts, never opens,
    commits or rolls back a database transaction, and never calls the
    webhook. *)
Theorem check_only_looks_up_and_writes (env : Env) (id : Z) (w : World) :
  let r := checkConfirmation env id w in
  (∃ res, r.1 = inr res)
  ∧ ∃ evs, log r.2 = log w ++ evs ∧ Forall isSettlementEvent evs.
Proof.
  intros r. split.
  - apply checkConfirmation_resolves.
  - apply checkConfirmation_settlement.
Qed.

(** X5: [checkConfirmation] leaves the world exactly as it was (no write,
    no call to the network) unless the order exists with all its joined
    rows, carries a non-empty transaction id and a usable recorded
    blockhash, and is not in a terminal status. *)
Theorem check_touches_only_awaiting (env : Env) (id : Z) (w : World) :
  (checkConfirmation env id w).2 = w
  ∨ ∃ order sig bh, awaitingSettlement w id order sig bh.
Proof.
  destruct (orders (db w) !! id ≫= joinOrder (db w) id) as [order|] eqn:Hload.
  2: { left. destruct w as [d l]. cbn [db] in Hload.
       cbv [checkConfirmation getOrderById]. unfold_monad. rewrite Hload. reflexivity. }
  destruct (Order.transactionId (lo_order order)) as [sig|] eqn:Hsig.
  2: { left. destruct w as [d l]. cbn [db] in Hload.
       cbv [checkConfirmation getOrderById]. unfold_monad.
       rewrite Hload, Hsig. reflexivity. }
  destruct (String.eqb sig "") eqn:Hne.
  { left. apply String.eqb_eq in Hne. subst sig. destruct w as [d l]. cbn [db] in Hload.
    cbv [checkConfirmation getOrderById]. unfold_monad.
    rewrite Hload, Hsig. reflexivity. }
  destruct (Order.details (lo_order order) ≫= recentBlockHash) as [bh|] eqn:Hbh.
  2: { left. destruct w as [d l]. cbn [db] in Hload.
       cbv [checkConfirmation getOrderById]. unfold_monad.
       rewrite Hload, Hsig. destruct sig; [discriminate Hne|].
       rewrite Hbh. reflexivity. }
  destruct ((lastValidBlockHeight bh =? 0) || String.eqb (blockhash bh) "")%bool eqn:Hok.
  { left. destruct w as [d l]. cbn [db] in Hload.
    cbv [checkConfirmation getOrderById]. unfold_monad.
    rewrite Hload, Hsig. destruct sig; [discriminate Hne|].
    rewrite Hbh, Hok. reflexivity. }
  destruct (isTerminal (Order.status (lo_order order))) eqn:Hnt.
  { left. destruct w as [d l]. cbn [db] in Hload.
    cbv [checkConfirmation getOrderById]. unfold_monad.
    rewrite Hload, Hsig. destruct sig; [discriminate Hne|].
    rewrite Hbh, Hok, Hnt. reflexivity. }
  right. exists order, sig, bh. repeat split; assumption.
Qed.

(** X6: when the network confirms the transaction of an order awaiting
    settlement but the parsed transaction cannot be read in full (it has no
    [meta]; or it did not fail and one of its token-balance arrays is
    missing), [checkConfirmation] returns [undefined] after the
    confirmation and one lookup and writes nothing: the order stays
    submitted and the reservation stays in place. *)
Theorem incomplete_metadata_not_settled (env : Env) (id : Z) (w : World)
    (order : LoadedOrder) (sig : string) (bh : BlockHash)
    (ti : ParsedTransactionWithMeta) :
  awaitingSettlement w id order sig bh →
  confirmTransaction env (length (log w)) sig bh = inr true →
  getParsedTransaction env (S (length (log w))) sig = inr (Some ti) →
  match meta ti with
  | None => True
  | Some m =>
      err m = false
      ∧ (preTokenBalances m = None ∨ postTokenBalances m = None)
  end →
  checkConfirmation env id w = (inr None, afterLookup w sig).
Proof.
  intros Hready Hconf Hti Hmeta.
  rewrite (confirmed_run env id w order sig bh Hready Hconf), Hti.
  unfold settleWithInfo. destruct (meta ti) as [m|]; [|reflexivity].
  destruct Hmeta as [He Hmiss]. rewrite He.
  destruct (preTokenBalances m) as [pre|]; [|reflexivity].
  destruct (postTokenBalances m) as [post|]; [|reflexivity].
  destruct Hmiss as [Hp|Hp]; discriminate Hp.
Qed.

(** Scenario A's order, confirmed by the network, with a parsed transaction
    that carries no [meta]. *)
Lemma incomplete_metadata_scenario_A :
  checkConfirmation
    (Scenario.network (inr true) (Some (mkParsedTx ["UserSol"] None))) 1 Scenario.worldA
  = (inr None, afterLookup Scenario.worldA "sig-buy").
Proof.
  apply (incomplete_metadata_not_settled
           (Scenario.network (inr true) (Some (mkParsedTx ["UserSol"] None))) 1
           Scenario.worldA scenarioA_order "sig-buy" Scenario.blockhash0
           (mkParsedTx ["UserSol"] None)).
  - repeat split; vm_compute; reflexivity.
  - reflexivity.
  - reflexivity.
  - exact I.
Defined.

(** ** Profit-and-loss positions *)

(** At most one open position per wallet. *)
Definition uniqueOpenPositions (m : gmap Z PnL.t) : Prop :=
  ∀ k1 k2 p1 p2,
    m !! k1 = Some p1 → m !! k2 = Some p2 →
    PnL.walletId p1 = PnL.walletId p2 →
    PnL.isClosed p1 = false → PnL.isClosed p2 = false → k1 = k2.

(** The relation "if the positions were unique before, they are after". *)
Definition keepsUniqueOpen (w w' : World) : Prop :=
  uniqueOpenPositions (pnls (db w)) → uniqueOpenPositions (pnls (db w')).

#[global] Instance keepsUniqueOpen_preorder : PreOrder keepsUniqueOpen.
Proof.
  split.
  - intros w H. exact H.
  - intros w1 w2 w3 H12 H23 H. apply H23, H12, H.
Qed.

Lemma samePnls_keepsUniqueOpen {A} (m : M A) :
  stable samePnls m → stable keepsUniqueOpen m.
Proof. intros H w Hu. rewrite (H w). exact Hu. Qed.

Lemma uniqueOpen_insert_fresh (m : gmap Z PnL.t) (id : Z) (p : PnL.t) :
  uniqueOpenPositions m → m !! id = None →
  (∀ k q, m !! k = Some q → PnL.walletId q = PnL.walletId p → PnL.isClosed q = true) →
  uniqueOpenPositions (<[id := p]> m).
Proof.
  intros Hu Hfresh Hnone k1 k2 p1 p2 H1 H2 Hw Ho1 Ho2.
  destruct (decide (k1 = id)) as [->|Hn1], (decide (k2 = id)) as [->|Hn2];
    [reflexivity| | |].
  - rewrite lookup_insert_eq in H1. rewrite lookup_insert_ne in H2 by congruence.
    inversion H1; subst. rewrite (Hnone k2 p2 H2) in Ho2 by congruence. discriminate.
  - rewrite lookup_insert_eq in H2. rewrite lookup_insert_ne in H1 by congruence.
    inversion H2; subst. rewrite (Hnone k1 p1 H1) in Ho1 by congruence. discriminate.
  - rewrite lookup_insert_ne in H1, H2 by congruence. eauto.
Qed.

Lemma uniqueOpen_alter (m : gmap Z PnL.t) (id : Z) (p : PnL.t) (f : PnL.t → PnL.t) :
  uniqueOpenPositions m → m !! id = Some p → PnL.isClosed p = false →
  (∀ q, PnL.walletId (f q) = PnL.walletId q) →
  uniqueOpenPositions (alter f id m).
Proof.
  intros Hu Hid Hopen Hf k1 k2 p1 p2 H1 H2 Hw Ho1 Ho2.
  assert (Hback : ∀ k q, alter f id m !! k = Some q →
            ∃ q0, m !! k = Some q0 ∧ PnL.walletId q0 = PnL.walletId q
                  ∧ (PnL.isClosed q = false → PnL.isClosed q0 = false)).
  { intros k q Hk. destruct (decide (k = id)) as [->|Hne].
    - rewrite lookup_alter_eq, Hid in Hk. inversion Hk; subst.
      exists p. rewrite Hf. auto.
    - rewrite lookup_alter_ne in Hk by congruence. exists q. auto. }
  destruct (Hback _ _ H1) as (q1 & Hq1 & Hw1 & Hc1).
  destruct (Hback _ _ H2) as (q2 & Hq2 & Hw2 & Hc2).
  apply (Hu k1 k2 q1 q2); auto. congruence.
Qed.

Lemma updateOrCreatePnL_keepsUniqueOpen env b o x y :
  stable keepsUniqueOpen (updateOrCreatePnL env b o x y).
Proof.
  intros w Hu. destruct w as [d l]. cbn [db] in Hu.
  cbv [updateOrCreatePnL PnL_create PnL_update]. unfold_monad.
  destruct (findOne _ (pnls d)) as [[pnlId pnl]|] eqn:Hf.
  - apply findOne_Some in Hf as [Hrow HP].
    apply andb_prop in HP as [_ Hopen]. apply negb_true_iff in Hopen.
    destruct (Order.orderDirection o).
    + cbn [snd db pnls withPnls]. eapply uniqueOpen_alter; eauto.
    + destruct (priceUsdByTokenAddress env _ _) as [e|price]; [exact Hu|].
      cbn [snd db pnls withPnls]. eapply uniqueOpen_alter; eauto.
  - repeat match goal with
           | |- context [if ?c then _ else _] => destruct c
           end; cbn [snd db pnls withPnls]; try exact Hu.
    apply uniqueOpen_insert_fresh; [exact Hu|apply nextId_fresh|].
    intros k q Hk Hw. cbn [PnL.walletId] in Hw.
    pose proof (findOne_None _ _ k q Hf Hk) as HP. cbn in HP.
    rewrite bool_decide_eq_true_2 in HP by exact Hw.
    cbn in HP. apply negb_false_iff in HP. exact HP.
Qed.

Lemma transaction_keepsUniqueOpen {A} (cb : M A) :
  stable keepsUniqueOpen cb → stable keepsUniqueOpen (transaction cb).
Proof.
  intros H w Hu. unfold transaction.
  specialize (H (mkWorld (db w) (log w ++ [EvBegin])) Hu).
  destruct (cb _) as [[e|a] w1]; cbn [fst snd db] in *; assumption.
Qed.

#[global] Hint Extern 1 (stable keepsUniqueOpen (emit _)) =>
  apply samePnls_keepsUniqueOpen, emit_samePnls : frame.
#[global] Hint Extern 1 (stable keepsUniqueOpen (modifyDb _)) =>
  apply samePnls_keepsUniqueOpen, modifyDb_samePnls; reflexivity : frame.
#[global] Hint Resolve updateOrCreatePnL_keepsUniqueOpen : frame.

Lemma checkConfirmation_keepsUniqueOpen env id :
  stable keepsUniqueOpen (checkConfirmation env id).
Proof.
  unfold checkConfirmation, getOrderById, confirmOrLookup, fetchTransactionInfo,
    settleWithInfo, handleTransactionFailure, updateOrderWalletPnL,
    updateWalletBalances, Order_save, Wallet_update.
  frame.
Qed.

Lemma start_keepsUniqueOpen env : stable keepsUniqueOpen (start env).
Proof.
  pose proof (checkConfirmation_keepsUniqueOpen env).
  unfold start. apply stable_tryCatch; [apply _| |intros e; frame].
  apply transaction_keepsUniqueOpen. frame.
Qed.

Lemma submit_samePnls env userId sig inputATA outputATA rawAmount amountInUsd
    ourFee priorityFee bh limitOrder dcaPubKey :
  stable samePnls
    (transactionalCreateOrderAndSendToNetwork env userId sig inputATA outputATA
       rawAmount amountInUsd ourFee priorityFee bh limitOrder dcaPubKey).
Proof.
  intros w.
  pose proof (submit_outcome env userId sig inputATA outputATA rawAmount
                amountInUsd ourFee priorityFee bh limitOrder dcaPubKey w) as Hout.
  inversion Hout; unfold samePnls; reflexivity.
Qed.

Lemma create_samePnls env telegramId : stable samePnls (create env telegramId).
Proof.
  pose proof (submit_samePnls env).
  unfold create, submitAfterBalanceCheck, getUser, getWalletBalance,
    getMarketByPoolAddress, getCurrentPnL.
  frame.
Qed.

(** X7: no operation of the system (order submission through [create] or
    directly, a reconciler pass, the settlement of one order) ever gives a
    wallet a second open profit-and-loss position: if every wallet has at
    most one open position before, it has at most one after. *)
Theorem open_position_unique_preserved (env : Env) (op : Operation) (w : World) :
  uniqueOpenPositions (pnls (db w)) →
  uniqueOpenPositions (pnls (db (perform env op w))).
Proof.
  destruct op as [tg | uid sig inA outA raw usd fee prio bh lo dk | | oid];
    cbn [perform].
  - apply (samePnls_keepsUniqueOpen _ (create_samePnls env tg) w).
  - apply (samePnls_keepsUniqueOpen _
             (submit_samePnls env uid sig inA outA raw usd fee prio bh lo dk) w).
  - apply (start_keepsUniqueOpen env w).
  - apply (checkConfirmation_keepsUniqueOpen env oid w).
Qed.

(** Scenario B: the first settled buy opens the wallet's position. *)
Lemma open_position_unique_scenario_B :
  uniqueOpenPositions
    (pnls (db (perform (Scenario.network (inr true) (Some (Scenario.landedBuy false)))
                 (OpCheck 1) Scenario.worldA))).
Proof.
  apply (open_position_unique_preserved
           (Scenario.network (inr true) (Some (Scenario.landedBuy false)))
           (OpCheck 1) Scenario.worldA).
  intros k1 k2 p1 p2 H1. vm_compute in H1. discriminate H1.
Defined.

(** X8: [updateOrCreatePnL] for a wallet leaves every position of another
    wallet, and every closed position, exactly as it was. *)
Theorem pnl_other_positions_untouched (env : Env) (baseWalletId : Z)
    (order : Order.t) (baseTokenBalanceChange quoteTokenBalanceChange : Z)
    (w : World) (k : Z) (p : PnL.t) :
  pnls (db w) !! k = Some p →
  PnL.walletId p ≠ baseWalletId ∨ PnL.isClosed p = true →
  pnls (db (updateOrCreatePnL env baseWalletId order baseTokenBalanceChange
              quoteTokenBalanceChange w).2) !! k = Some p.
Proof.
  intros Hk Hother. destruct w as [d l]. cbn [db] in Hk.
  cbv [updateOrCreatePnL PnL_create PnL_update]. unfold_monad.
  destruct (findOne _ (pnls d)) as [[pnlId pnl]|] eqn:Hf.
  - apply findOne_Some in Hf as [Hrow HP].
    apply andb_prop in HP as [Hw Hopen]. apply negb_true_iff in Hopen.
    apply bool_decide_eq_true in Hw.
    assert (Hne : pnlId ≠ k).
    { intros ->. rewrite Hrow in Hk. inversion Hk; subst.
      destruct Hother as [H|H]; congruence. }
    destruct (Order.orderDirection order).
    + cbn [snd db pnls withPnls]. rewrite lookup_alter_ne by exact Hne. exact Hk.
    + destruct (priceUsdByTokenAddress env _ _) as [e|price]; [exact Hk|].
      cbn [snd db pnls withPnls]. rewrite lookup_alter_ne by exact Hne. exact Hk.
  - repeat match goal with
           | |- context [if ?c then _ else _] => destruct c
           end; cbn [snd db pnls withPnls]; try exact Hk.
    rewrite lookup_insert_ne; [exact Hk|].
    intros Heq. pose proof (nextId_fresh (pnls d)) as Hfresh. congruence.
Qed.

(** The open position of the token wallet (wallet 2) of scenario D is not
    touched by an update of the position of the SOL wallet (wallet 1). *)
Lemma pnl_other_positions_scenario_D :
  pnls (db (updateOrCreatePnL Scenario.quiet 1 Scenario.sellOrder 0 295000
              scenarioD_world).2) !! 1
  = Some (PnL.mk 2 100 (1 # 10) 600000 60 (6 # 100) 450000 false).
Proof.
  apply (pnl_other_positions_untouched Scenario.quiet 1 Scenario.sellOrder 0 295000
           scenarioD_world 1 (PnL.mk 2 100 (1 # 10) 600000 60 (6 # 100) 450000 false)).
  - reflexivity.
  - left. simpl. lia.
Defined.

(** ** The reconciler pass *)

(** What a reconciler pass does inside its database transaction: the
    events of settlements, and webhook calls. *)
Definition isPassEvent (e : Event) : Prop :=
  match e with
  | EvConfirmTransaction _ | EvGetParsedTransaction _ | EvPriceRequest _
  | EvInsert _ _ | EvUpdate _ _ | EvWebhook _ _ => True
  | _ => False
  end.

Lemma checkConfirmation_passEvents env id :
  stable (logged isPassEvent) (checkConfirmation env id).
Proof.
  apply (logged_weaken isSettlementEvent); [intros []; simpl; auto|].
  apply checkConfirmation_settlement.
Qed.

Lemma findAll_nil {V} (P : Z → V → bool) (m : gmap Z V) :
  (∀ k v, m !! k = Some v → P k v = false) → findAll P m = [].
Proof.
  intros Hnone. destruct (findAll P m) as [|[k v] l] eqn:Hf; [reflexivity|].
  assert (Hin : (k, v) ∈ findAll P m) by (rewrite Hf; left).
  apply findAll_elem in Hin as [Hk HP]. rewrite (Hnone k v Hk) in HP. discriminate.
Qed.

(** X9: a reconciler pass ([start]) never throws and is one database
    transaction around everything it does: its events are one [BEGIN], then
    only events of settlements (confirmation requests, lookups, price
    requests, inserts and updates of rows) and webhook calls, none of which
    opens or closes a transaction or broadcasts, and then either one
    [COMMIT], or one [ROLLBACK] with the store exactly as before the
    pass. *)
Theorem reconciler_pass_atomic (env : Env) (w : World) :
  let r := start env w in
  r.1 = inr tt
  ∧ ∃ evs,
      Forall isPassEvent evs
      ∧ (log r.2 = log w ++ [EvBegin] ++ evs ++ [EvCommit]
         ∨ (log r.2 = log w ++ [EvBegin] ++ evs ++ [EvRollback] ∧ db r.2 = db w)).
Proof.
  pose proof (checkConfirmation_passEvents env) as Hcheck.
  unfold start, tryCatch, transaction.
  match goal with
  | |- context [match ?cb (mkWorld (db w) (log w ++ [EvBegin])) with _ => _ end] =>
      assert (Hcb : stable (logged isPassEvent) cb) by frame;
      destruct (Hcb (mkWorld (db w) (log w ++ [EvBegin]))) as [evs [Hlog Hevs]];
      destruct (cb (mkWorld (db w) (log w ++ [EvBegin]))) as [[e|[]] w1]
  end; cbn [fst snd db log ret] in *.
  - split; [reflexivity|]. exists evs. split; [exact Hevs|]. right.
    rewrite Hlog, <- !app_assoc. split; reflexivity.
  - split; [reflexivity|]. exists evs. split; [exact Hevs|]. left.
    rewrite Hlog, <- !app_assoc. reflexivity.
Qed.

(** X10: when every submitted order is locked by another session (in
    particular when there is no submitted order), a reconciler pass opens
    and commits an empty transaction and does nothing else. *)
Theorem reconciler_idle_pass (env : Env) (w : World) :
  (∀ id o, orders (db w) !! id = Some o → Order.status o = submitted →
           locked env TOrders id = true) →
  start env w = (inr tt, mkWorld (db w) (log w ++ [EvBegin; EvCommit])).
Proof.
  intros Hidle. unfold start, tryCatch, transaction. unfold_monad.
  rewrite findAll_nil.
  - cbn [forEach]. cbv [ret]. cbn [db log]. rewrite <- app_assoc. reflexivity.
  - intros k o Hk. unfold selectedForReconciliation.
    destruct (decide (Order.status o = submitted)) as [Hs|Hs].
    + rewrite (Hidle k o Hk Hs). apply andb_false_r.
    + rewrite bool_decide_eq_false_2 by exact Hs. reflexivity.
Qed.

(** An environment in which another session holds the lock of every order
    row. *)
Definition ordersLockedElsewhere : Env :=
  mkEnv (fun t _ => match t with TOrders => true | _ => false end)
        Scenario.timing (fun _ _ _ => inr true) (fun _ _ => inr None) (fun _ sig => inr sig)
        (fun _ _ => inr (150 # 1)) (fun _ _ => inr tt)
        (fun _ r => Scenario.builder r) (fun _ _ _ => inr tt) 5 Scenario.blockhash0.

Lemma reconciler_idle_pass_locked :
  start ordersLockedElsewhere Scenario.worldA
  = (inr tt, mkWorld (db Scenario.worldA) (log Scenario.worldA ++ [EvBegin; EvCommit])).
Proof.
  apply (reconciler_idle_pass ordersLockedElsewhere Scenario.worldA).
  intros id o Ho Hs. reflexivity.
Defined.

(** ** Order submission: refusals and the output wallet *)

Section SubmissionEdges.

Variables (env : Env) (userId : Z) (sig inputATA outputATA : string)
  (rawAmount : Z) (amountInUsd : Q) (ourFeeInLamports priorityFee : Z)
  (recentBlockhash : BlockHash) (limitOrder dcaPubKey : option string).

Local Abbreviation submit :=
  (transactionalCreateOrderAndSendToNetwork env userId sig inputATA outputATA
     rawAmount amountInUsd ourFeeInLamports priorityFee recentBlockhash
     limitOrder dcaPubKey).

Lemma submit_user_unavailable (w : World) :
  users (db w) !! userId = None ∨ locked env TUsers userId = true →
  submit w = (inl (Error (LOG_PREFIX_ORDER +:+ "User not found.")),
              mkWorld (db w) (log w ++ [EvBegin; EvRollback])).
Proof.
  intros H. destruct w as [d l]. cbn [db log] in *.
  cbv [transactionalCreateOrderAndSendToNetwork]. unfold_monad.
  destruct (users d !! userId) as [u|] eqn:Hu.
  - destruct H as [H|H]; [discriminate|].
    destruct (joinUser d userId u) as [lu|]; [rewrite H|];
      cbn [orb db log]; rewrite <- app_assoc; reflexivity.
  - cbn [db log]. rewrite <- app_assoc. reflexivity.
Qed.

(** A run that ended before the broadcast: an error, the store as it was,
    and between [BEGIN] and [ROLLBACK] only writes (that were rolled back). *)
Definition refusedBeforeBroadcast (w : World) (x : (JsError + string) * World) : Prop :=
  (∃ e, x.1 = inl e) ∧ db x.2 = db w
  ∧ ∃ evs, log x.2 = log w ++ [EvBegin] ++ evs ++ [EvRollback] ∧ Forall isDbWrite evs.

Ltac give_writes :=
  first [ exists []; split; [reflexivity|repeat constructor]
        | eexists [_]; split; [reflexivity|repeat constructor]
        | eexists [_; _]; split; [reflexivity|repeat constructor]
        | eexists [_; _; _]; split; [reflexivity|repeat constructor]
        | eexists [_; _; _; _]; split; [reflexivity|repeat constructor] ].

Lemma submit_duplicate_refused (w : World) (k : Z) (o : Order.t) :
  orders (db w) !! k = Some o → Order.transactionId o = Some sig →
  refusedBeforeBroadcast w (submit w).
Proof.
  intros Hk Hsig. destruct w as [d l]. cbn [db] in Hk.
  cbv [transactionalCreateOrderAndSendToNetwork User_save Order_create
       Wallet_update Wallet_create execute].
  unfold_monad.
  repeat (match goal with
          | |- refusedBeforeBroadcast _ ?t =>
              is_stuck_match t; let s := stuck t in destruct s eqn:?
          end; cbn [db log]).
  all: repeat match goal with
       | |- context [completes ?s ?n] => destruct (completes s n)
       end; cbn [db log fst snd].
  all: cbv [withUsers withWallets withOrders] in *;
       cbn [users wallets keys tokens markets orders pnls] in *;
       rewrite <- ?app_assoc; cbn [app].
  all: try match goal with
       | H : Order.transactionId _ = None |- _ => discriminate H
       end.
  all: try match goal with
       | H : Order.transactionId _ = Some _ |- _ =>
           cbn [Order.transactionId] in H; injection H as <-
       end.
  all: try match goal with
       | H : findOne _ (orders _) = None |- _ =>
           pose proof (findOne_None _ _ k o H Hk) as HP; cbn in HP;
           apply bool_decide_eq_false in HP; exfalso; apply HP; exact Hsig
       end.
  all: split; [eexists; reflexivity|split; [reflexivity|]]; cbn [snd log];
       give_writes.
Qed.

Lemma submit_creates_output_wallet (w w' : World) (sig' : string) (u : User.t) :
  submit w = (inr sig', w') →
  users (db w) !! userId = Some u →
  User.selectedOutputMint u ≠ Some NATIVE_MINT →
  (∀ k x, wallets (db w) !! k = Some x → Wallet.address x ≠ outputATA) →
  ∃ orderId o ow marketId m,
    orders (db w) !! orderId = None
    ∧ orders (db w') !! orderId = Some o
    ∧ markets (db w) !! marketId = Some m
    ∧ Order.marketId o = marketId
    ∧ wallets (db w) !! Order.outputWalletId o = None
    ∧ wallets (db w') !! Order.outputWalletId o = Some ow
    ∧ ow = Wallet.mk userId (User.defaultWalletId u) (Wallet.tokenId ow)
             (Wallet.keyId ow) outputATA 0 0 active
    ∧ (Wallet.tokenId ow = Market.baseTokenId m
       ∨ Wallet.tokenId ow = Market.quoteTokenId m).
Proof.
  intros H Hu Hmint Hnone. destruct w as [d l]. cbn [db] in *.
  cbv [transactionalCreateOrderAndSendToNetwork User_save Order_create
       Wallet_update Wallet_create execute] in H.
  cbv [transaction bind ret throw tryCatch getDb now emit modifyDb await
       promiseAll3 promiseAll2 orPending pending] in H.
  cbn [db log] in H. rewrite Hu in H.
  repeat (match type of H with
          | ?t = _ => is_stuck_match t; let s := stuck t in destruct s eqn:?
          end; cbn [db log] in H; try discriminate H).
  all: try match goal with
       | H : Order.transactionId _ = None |- _ => discriminate H
       end.
  all: apply joinUser_user in Heqo; subst u.
  all: try match goal with
       | Hg : findOne (fun _ x => String.eqb (Wallet.address x) _) (wallets _)
              = Some _ |- _ =>
           exfalso; apply findOne_Some in Hg as [Hrow Haddr];
           rewrite bool_decide_eq_false_2 in Haddr by exact Hmint;
           cbn [negb] in Haddr; apply String.eqb_eq in Haddr;
           exact (Hnone _ _ Hrow Haddr)
       end.
  all: injection H as _ <-.
  all: cbv [withUsers withWallets withOrders].
  all: cbn [db users wallets keys tokens markets orders pnls].
  all: apply findOne_Some in Heqo0 as [Hmarket _].
  all: apply findOne_Some in Heqo1 as [Hinput _].
  all: assert (Hne : z0 ≠ nextId (wallets d))
         by (intros ->; rewrite nextId_fresh in Hinput; discriminate).
  all: eexists (nextId (orders d)), _, _, z, t.
  all: split; [apply nextId_fresh|].
  all: split; [apply lookup_insert_eq|].
  all: split; [exact Hmarket|].
  all: split; [reflexivity|].
  all: cbn [Order.outputWalletId].
  all: split; [apply nextId_fresh|].
  all: split; [rewrite lookup_alter_ne by exact Hne; apply lookup_insert_eq|].
  all: cbn [Wallet.tokenId Wallet.keyId].
  all: rewrite (bool_decide_eq_false_2 _ Hmint); cbn [negb].
  all: split; [reflexivity|].
  all: match goal with |- context [if ?c then _ else _] => destruct c end; auto.
Qed.

End SubmissionEdges.

(** X11: a submission for a user id that does not exist, or whose row is
    locked by another session, is refused with the error
    [ORDER: User not found.]; the transaction is rolled back at once, with
    no write and no broadcast. *)
Theorem submission_refused_when_user_unavailable (env : Env) (userId : Z)
    (sig inputATA outputATA : string) (rawAmount : Z) (amountInUsd : Q)
    (ourFeeInLamports priorityFee : Z) (recentBlockhash : BlockHash)
    (limitOrder dcaPubKey : option string) (w : World) :
  users (db w) !! userId = None ∨ locked env TUsers userId = true →
  transactionalCreateOrderAndSendToNetwork env userId sig inputATA outputATA
    rawAmount amountInUsd ourFeeInLamports priorityFee recentBlockhash
    limitOrder dcaPubKey w
  = (inl (Error "ORDER: User not found."),
     mkWorld (db w) (log w ++ [EvBegin; EvRollback])).
Proof. apply submit_user_unavailable. Qed.

(** An environment in which another session holds the lock of every user
    row (a submission of the same user is in flight). *)
Definition usersLockedElsewhere : Env :=
  mkEnv (fun t _ => match t with TUsers => true | _ => false end)
        Scenario.timing (fun _ _ _ => inr true) (fun _ _ => inr None) (fun _ sig => inr sig)
        (fun _ _ => inr (150 # 1)) (fun _ _ => inr tt)
        (fun _ r => Scenario.builder r) (fun _ _ _ => inr tt) 5 Scenario.blockhash0.

Lemma submission_refused_scenario_A_locked :
  transactionalCreateOrderAndSendToNetwork usersLockedElsewhere 1 "sig-buy"
    "UserWsolAccount" "UserTokenAccount" 400000 (6 # 100) 2000 5
    Scenario.blockhash0 None None (Scenario.world0 buy 1000000 0)
  = (inl (Error "ORDER: User not found."),
     mkWorld (db (Scenario.world0 buy 1000000 0))
       (log (Scenario.world0 buy 1000000 0) ++ [EvBegin; EvRollback])).
Proof.
  apply (submission_refused_when_user_unavailable usersLockedElsewhere 1 "sig-buy"
           "UserWsolAccount" "UserTokenAccount" 400000 (6 # 100) 2000 5
           Scenario.blockhash0 None None (Scenario.world0 buy 1000000 0)).
  right. reflexivity.
Defined.

(** X12: a submission whose transaction signature is already recorded on
    an order is rejected: the result is an error, the unit is rolled back
    before any broadcast, and the store is as before. *)
Theorem duplicate_signature_rejected (env : Env) (userId : Z)
    (sig inputATA outputATA : string) (rawAmount : Z) (amountInUsd : Q)
    (ourFeeInLamports priorityFee : Z) (recentBlockhash : BlockHash)
    (limitOrder dcaPubKey : option string) (w : World) (k : Z) (o : Order.t) :
  orders (db w) !! k = Some o →
  Order.transactionId o = Some sig →
  let r := transactionalCreateOrderAndSendToNetwork env userId sig inputATA
             outputATA rawAmount amountInUsd ourFeeInLamports priorityFee
             recentBlockhash limitOrder dcaPubKey w in
  (∃ e, r.1 = inl e)
  ∧ db r.2 = db w
  ∧ ∃ evs, log r.2 = log w ++ [EvBegin] ++ evs ++ [EvRollback]
           ∧ Forall isDbWrite evs.
Proof. intros Hk Hsig. apply (submit_duplicate_refused _ _ _ _ _ _ _ _ _ _ _ _ w k o Hk Hsig). Qed.

(** The store of scenario A in which an order with the signature [sig-buy]
    is already recorded. *)
Definition worldWithRecordedSignature : World :=
  mkWorld
    (withOrders
       (fun _ => {[ 7 := Order.mk 1 1 1 2 (Some "sig-buy") 400000 (6 # 100) None
                          2000 0 swap buy false submitted
                          (Some (mkOrderDetails (Some Scenario.blockhash0) 5)) ]})
       (Scenario.store buy 1000000 0)) [].

Lemma duplicate_signature_scenario_A :
  let r := transactionalCreateOrderAndSendToNetwork Scenario.quiet 1 "sig-buy"
             "UserWsolAccount" "UserTokenAccount" 400000 (6 # 100) 2000 5
             Scenario.blockhash0 None None worldWithRecordedSignature in
  (∃ e, r.1 = inl e)
  ∧ db r.2 = db worldWithRecordedSignature
  ∧ ∃ evs, log r.2 = log worldWithRecordedSignature ++ [EvBegin] ++ evs ++ [EvRollback]
           ∧ Forall isDbWrite evs.
Proof.
  apply (duplicate_signature_rejected Scenario.quiet 1 "sig-buy"
           "UserWsolAccount" "UserTokenAccount" 400000 (6 # 100) 2000 5
           Scenario.blockhash0 None None worldWithRecordedSignature 7
           (Order.mk 1 1 1 2 (Some "sig-buy") 400000 (6 # 100) None
              2000 0 swap buy false submitted
              (Some (mkOrderDetails (Some Scenario.blockhash0) 5)))).
  - reflexivity.
  - reflexivity.
Defined.

(** X13: when a committed submission finds no wallet at the output token
    account (and the output is not native SOL), it creates one inside the
    same unit: a new active wallet of the user at that address, child of the
    default wallet, with zero balances, for the base or the quote token of
    the market; the new order names it as its output wallet. *)
Theorem output_wallet_created_on_demand (env : Env) (userId : Z)
    (sig inputATA outputATA : string) (rawAmount : Z) (amountInUsd : Q)
    (ourFeeInLamports priorityFee : Z) (recentBlockhash : BlockHash)
    (limitOrder dcaPubKey : option string) (w w' : World) (sig' : string)
    (u : User.t) :
  transactionalCreateOrderAndSendToNetwork env userId sig inputATA outputATA
    rawAmount amountInUsd ourFeeInLamports priorityFee recentBlockhash
    limitOrder dcaPubKey w = (inr sig', w') →
  users (db w) !! userId = Some u →
  User.selectedOutputMint u ≠ Some NATIVE_MINT →
  (∀ k x, wallets (db w) !! k = Some x → Wallet.address x ≠ outputATA) →
  ∃ orderId o ow marketId m,
    orders (db w) !! orderId = None
    ∧ orders (db w') !! orderId = Some o
    ∧ markets (db w) !! marketId = Some m
    ∧ Order.marketId o = marketId
    ∧ wallets (db w) !! Order.outputWalletId o = None
    ∧ wallets (db w') !! Order.outputWalletId o = Some ow
    ∧ ow = Wallet.mk userId (User.defaultWalletId u) (Wallet.tokenId ow)
             (Wallet.keyId ow) outputATA 0 0 active
    ∧ (Wallet.tokenId ow = Market.baseTokenId m
       ∨ Wallet.tokenId ow = Market.quoteTokenId m).
Proof. apply submit_creates_output_wallet. Qed.

(** A first buy: the user has only the SOL wallet. *)
Definition worldFirstBuy : World :=
  mkWorld
    (withWallets (fun _ => {[ 1 := Scenario.solWallet 1000000 0 ]})
       (Scenario.store buy 1000000 0)) [].

Lemma output_wallet_created_first_buy :
  ∃ orderId o ow marketId m,
    orders (db worldFirstBuy) !! orderId = None
    ∧ orders (db (create Scenario.quiet 42 worldFirstBuy).2) !! orderId = Some o
    ∧ markets (db worldFirstBuy) !! marketId = Some m
    ∧ Order.marketId o = marketId
    ∧ wallets (db worldFirstBuy) !! Order.outputWalletId o = None
    ∧ wallets (db (create Scenario.quiet 42 worldFirstBuy).2)
        !! Order.outputWalletId o = Some ow
    ∧ ow = Wallet.mk 1 (User.defaultWalletId (Scenario.trader buy))
             (Wallet.tokenId ow) (Wallet.keyId ow) "UserTokenAccount" 0 0 active
    ∧ (Wallet.tokenId ow = Market.baseTokenId m
       ∨ Wallet.tokenId ow = Market.quoteTokenId m).
Proof.
  apply (output_wallet_created_on_demand Scenario.quiet 1 "sig-buy"
           "UserWsolAccount" "UserTokenAccount" 400000 (6 # 100) 2000 5
           Scenario.blockhash0 None None worldFirstBuy
           (create Scenario.quiet 42 worldFirstBuy).2 "sig-buy"
           (Scenario.trader buy)).
  - vm_compute. reflexivity.
  - reflexivity.
  - simpl. discriminate.
  - intros k x Hk. unfold worldFirstBuy in Hk. cbn [db wallets withWallets] in Hk.
    apply lookup_singleton_Some in Hk as [_ <-]. simpl. discriminate.
Defined.

(** ** The amounts an order row accepts *)

Lemma allDigits_no_e s : allDigits s = true → hasChar "e" s = false.
Proof.
  induction s as [|c r IH]; [reflexivity|]. cbn [allDigits hasChar].
  intros H. apply andb_prop in H as [Hc Hr]. rewrite (IH Hr), orb_false_r.
  destruct (Ascii.eqb_spec c "e") as [->|]; [discriminate Hc|reflexivity].
Qed.

Lemma numericBody_no_e s : numericBody s = true → hasChar "e" s = false.
Proof.
  induction s as [|c r IH]; [discriminate|]. cbn [numericBody hasChar].
  destruct (Ascii.eqb_spec c ".") as [->|Hdot].
  - intros H. apply andb_prop in H as [_ Hr]. rewrite (allDigits_no_e _ Hr). reflexivity.
  - destruct (isDigit c) eqn:Hc; [|discriminate].
    assert (Hce : Ascii.eqb c "e" = false).
    { destruct (Ascii.eqb_spec c "e") as [->|]; [discriminate Hc|reflexivity]. }
    rewrite Hce. cbn [orb]. intros H. apply orb_prop in H as [Hr|Hr].
    + apply String.eqb_eq in Hr. subst r. reflexivity.
    + apply IH, Hr.
Qed.

Lemma isNumeric_no_e s : isNumeric s = true → hasChar "e" s = false.
Proof.
  destruct s as [|c r]; [discriminate|]. unfold isNumeric.
  destruct (Ascii.eqb c "+" || Ascii.eqb c "-")%bool eqn:Hsign.
  - intros H. cbn [hasChar]. rewrite (numericBody_no_e _ H), orb_false_r.
    destruct (Ascii.eqb_spec c "e") as [->|]; [discriminate Hsign|reflexivity].
  - apply numericBody_no_e.
Qed.

Lemma numericBody_uint d :
  (String.eqb (NilEmpty.string_of_uint d) "" || numericBody (NilEmpty.string_of_uint d))%bool
  = true.
Proof.
  induction d; cbn [NilEmpty.string_of_uint]; [reflexivity|..];
    cbn [String.eqb numericBody]; exact IHd.
Qed.

Lemma isNumeric_uint d : isNumeric (NilZero.string_of_uint d) = true.
Proof.
  unfold NilZero.string_of_uint.
  destruct d; [reflexivity|..]; cbn [NilEmpty.string_of_uint];
    unfold isNumeric; cbn [Ascii.eqb orb numericBody]; apply numericBody_uint.
Qed.

Lemma validAmountText_range (z : Z) : validAmountText z = true ↔ 0 ≤ z < 10 ^ 21.
Proof.
  unfold validAmountText. split.
  - intros H. apply andb_prop in H as [Hnum Hpos]. apply Z.leb_le in Hpos.
    split; [exact Hpos|].
    destruct (Z.ltb_spec (Z.abs z) (10 ^ 21)) as [Hlt|Hge]; [lia|].
    exfalso. apply isNumeric_no_e in Hnum. unfold bnToString in Hnum.
    destruct (Z.ltb_spec (Z.abs z) (10 ^ 21)) as [|_]; [lia|].
    rewrite !hasChar_app in Hnum. cbn [hasChar Ascii.eqb] in Hnum.
    simpl in Hnum. rewrite !orb_true_r in Hnum. discriminate.
  - intros [Hpos Hlt]. apply andb_true_intro. split; [|apply Z.leb_le; exact Hpos].
    unfold bnToString.
    destruct (Z.ltb_spec (Z.abs z) (10 ^ 21)) as [_|Hge]; [|lia].
    unfold decimalText, NilZero.string_of_int.
    destruct z as [|p|p]; cbn [Z.to_int]; [reflexivity|apply isNumeric_uint|lia].
Qed.

(** X14: [Order.create] refuses a row for its input amount exactly when
    that amount is negative or is 10^21 or more: from 22 digits on the
    amount is written in exponent notation, which the [isNumeric] validator
    of [inAmount] does not accept. *)
Theorem order_amount_range (o : Order.t) (w : World) :
  Order_create o w = (inl (SequelizeValidationError "inAmount"), w)
  ↔ ¬ (0 ≤ Order.inAmount o < 10 ^ 21).
Proof.
  unfold Order_create.
  destruct (validAmountText (Order.inAmount o)) eqn:Hv; cbn [negb].
  - apply validAmountText_range in Hv. split; [|intros H; contradiction].
    intros H. exfalso.
    cbv [bind ret throw getDb emit modifyDb] in H. cbn [db log] in H.
    repeat match type of H with
           | context [if ?c then _ else _] => destruct c
           | context [match ?x with _ => _ end] => destruct x
           end; discriminate H.
  - split; [|reflexivity]. intros _ Hr. apply validAmountText_range in Hr. congruence.
Qed.

(** ** Reservation and refund *)

(** X15: reservation and refund are inverse.  When a submission has
    committed and its order is then settled as never landed
    ([handleTransactionFailure] with no fee), every wallet that existed
    before the submission has exactly the balances it had before it. *)
Theorem never_landed_restores_wallets (env : Env) (userId : Z)
    (sig inputATA outputATA : string) (rawAmount : Z) (amountInUsd : Q)
    (ourFeeInLamports priorityFee : Z) (recentBlockhash : BlockHash)
    (limitOrder dcaPubKey : option string) (w w1 : World) (sig' : string)
    (env' : Env) (order : LoadedOrder) (k : Z) (x : Wallet.t) :
  transactionalCreateOrderAndSendToNetwork env userId sig inputATA outputATA
    rawAmount amountInUsd ourFeeInLamports priorityFee recentBlockhash
    limitOrder dcaPubKey w = (inr sig', w1) →
  orders (db w) !! lo_id order = None →
  orders (db w1) !! lo_id order = Some (lo_order order) →
  wallets (db w) !! k = Some x →
  wallets (db (handleTransactionFailure env' order 0 false w1).2) !! k = Some x.
Proof.
  intros Hrun Hold Hnew Hk.
  pose proof (submit_outcome env userId sig inputATA outputATA rawAmount
                amountInUsd ourFeeInLamports priorityFee recentBlockhash
                limitOrder dcaPubKey w) as Hout.
  rewrite Hrun in Hout.
  inversion Hout as [| |s u marketId inputWalletId iw outputWalletId orderId
                        wallets1 evs writes Hperm Hu Hiw Hw1 Hfresh]; subst.
  cbn [db orders] in Hnew.
  destruct (decide (orderId = lo_id order)) as [Heq|Hne];
    [|rewrite lookup_insert_ne in Hnew by exact Hne; congruence].
  rewrite Heq, lookup_insert_eq in Hnew. injection Hnew as Horder.
  match goal with
  | |- wallets (db (handleTransactionFailure _ _ _ _ ?w0).2) !! _ = _ =>
      destruct (handleTransactionFailure_effect env' order 0 eq_refl w0) as [_ Hw]
  end.
  rewrite Hw, ledgerUpdates_lookup.
  cbn [db wallets]. rewrite lookup_alter_addBalances, fmap_addBalances.
  assert (Hk1 : wallets1 !! k = Some x).
  { destruct Hw1 as [[-> _]|[nw [Hnone [-> _]]]]; [exact Hk|].
    rewrite lookup_insert_ne; [exact Hk|]. congruence. }
  rewrite Hk1. cbn [fmap option_fmap option_map]. f_equal.
  rewrite <- Horder. cbn [Order.orderDirection Order.inAmount Order.inputWalletId
                          Order.outputWalletId submittedOrder].
  rewrite <- (addBalances_zero x) at 2.
  destruct x; unfold Wallet.addBalances, confirmedDelta, unconfirmedDelta; simpl.
  f_equal; repeat case_bool_decide; lia.
Qed.

(** Scenario A followed by the never-landed settlement: the SOL wallet is
    back at 1,000,000 confirmed and nothing unconfirmed. *)
Lemma never_landed_restores_scenario_A :
  wallets (db (handleTransactionFailure Scenario.quiet scenarioA_order 0 false
                 Scenario.worldA).2) !! 1
  = Some (Scenario.solWallet 1000000 0).
Proof.
  apply (never_landed_restores_wallets Scenario.quiet 1 "sig-buy"
           "UserWsolAccount" "UserTokenAccount" 400000 (6 # 100) 2000 5
           Scenario.blockhash0 None None (Scenario.world0 buy 1000000 0)
           Scenario.worldA "sig-buy" Scenario.quiet scenarioA_order 1
           (Scenario.solWallet 1000000 0)).
  - vm_compute. reflexivity.
  - reflexivity.
  - vm_compute. reflexivity.
  - reflexivity.
Defined.

(** ** Nothing is persisted without a broadcast *)

(** The log grows; if the store changed, a broadcast and a commit are among
    the new events. *)
Definition persistsOnlyAfterBroadcast (w w' : World) : Prop :=
  ∃ evs, log w' = log w ++ evs
         ∧ (db w' = db w ∨ ∃ sig, EvBroadcast sig ∈ evs ∧ EvCommit ∈ evs).

#[global] Instance persistsOnlyAfterBroadcast_preorder :
  PreOrder persistsOnlyAfterBroadcast.
Proof.
  split.
  - intros w. exists []. rewrite app_nil_r. auto.
  - intros w1 w2 w3 [e1 [H1 D1]] [e2 [H2 D2]]. exists (e1 ++ e2).
    rewrite H2, H1, app_assoc. split; [reflexivity|].
    destruct D2 as [D2|[s [Hb Hc]]].
    + destruct D1 as [D1|[s [Hb Hc]]]; [left; congruence|].
      right. exists s. split; apply elem_of_app; left; assumption.
    + right. exists s. split; apply elem_of_app; right; assumption.
Qed.

Lemma emit_persistsOnlyAfterBroadcast e : stable persistsOnlyAfterBroadcast (emit e).
Proof. intros w. exists [e]. split; [reflexivity|left; reflexivity]. Qed.

#[global] Hint Resolve emit_persistsOnlyAfterBroadcast : frame.

Lemma submit_persistsOnlyAfterBroadcast env userId sig inputATA outputATA
    rawAmount amountInUsd ourFee priorityFee bh limitOrder dcaPubKey :
  stable persistsOnlyAfterBroadcast
    (transactionalCreateOrderAndSendToNetwork env userId sig inputATA outputATA
       rawAmount amountInUsd ourFee priorityFee bh limitOrder dcaPubKey).
Proof.
  intros w.
  pose proof (submit_outcome env userId sig inputATA outputATA rawAmount
                amountInUsd ourFee priorityFee bh limitOrder dcaPubKey w) as Hout.
  inversion Hout; unfold persistsOnlyAfterBroadcast; cbn [snd db log];
    eexists; (split; [reflexivity|]).
  - left. reflexivity.
  - left. reflexivity.
  - right. exists sig.
    split; repeat (rewrite ?elem_of_cons, ?elem_of_app); auto 20.
Qed.

(** X16: whatever [create] does, the store changes only if a transaction
    was broadcast and the unit committed; every refusal (unknown user,
    insufficient balance, a failing price source or builder, a rolled back
    unit) leaves the store as it was. *)
Theorem create_persists_only_after_broadcast (env : Env) (telegramId : Z) (w : World) :
  let r := create env telegramId w in
  ∃ evs, log r.2 = log w ++ evs
         ∧ (db r.2 = db w ∨ ∃ sig, EvBroadcast sig ∈ evs ∧ EvCommit ∈ evs).
Proof.
  pose proof (submit_persistsOnlyAfterBroadcast env).
  assert (Hc : stable persistsOnlyAfterBroadcast (create env telegramId)).
  { unfold create, submitAfterBalanceCheck, getUser, getWalletBalance,
      getMarketByPoolAddress, getCurrentPnL.
    frame. }
  apply Hc.
Qed.

(** * cache/dexscreener-cache: the pool-information cache

    [getPoolInfoByTokenAddress] and [getPoolInfoByPoolAddress] (the price
    and pool oracles of [Env]) read DexScreener through this cache. *)

Module Dex.

Record TokenInfo := mkTokenInfo {
  address : string;
  name : string;
  symbol : string
}.

Record Windows := mkWindows { h24 : Q; h6 : Q; h1 : Q; m5 : Q }.

Record Liquidity := mkLiquidity { usd : Q; base : Q; quote : Q }.

(** A pair of a DexScreener response.  [labels] and [liquidity] are the two
    fields whose absence the code tests for. *)
Record Pair := mkPair {
  chainId : string;
  dexId : string;
  labels : option (list string);
  pairAddress : string;
  baseToken : TokenInfo;
  quoteToken : TokenInfo;
  priceNative : string;
  priceUsd : string;
  volume : Windows;
  priceChange : Windows;
  liquidity : option Liquidity;
  marketCap : Q
}.

Record DexScreenerPoolInfo := mkPoolInfo {
  pi_chainId : string;
  pi_dexId : string;
  pi_labels : list string;
  pi_poolAddress : string;
  pi_baseToken : TokenInfo;
  pi_quoteToken : TokenInfo;
  pi_priceNative : string;
  pi_priceUsd : string;
  pi_volume : Windows;
  pi_priceChange : Windows;
  pi_liquidity : Liquidity;
  pi_marketCap : Q
}.

(** [if (!pair.labels) pair.labels = [];
     if (pair.dexId === 'raydium' && pair.labels.length === 0) pair.labels = ['AMM']] *)
Definition normalizedLabels (p : Pair) : list string :=
  let l := default [] (labels p) in
  if (String.eqb (dexId p) "raydium" && Nat.eqb (length l) 0)%bool then ["AMM"] else l.

(** The object literal that the three fetch functions return;
    reading [pair.liquidity.usd] of a pair without [liquidity] is a
    [TypeError]. *)
Definition poolInfoOf (p : Pair) : JsError + DexScreenerPoolInfo :=
  match liquidity p with
  | None => inl (Error "TypeError")
  | Some l =>
      inr (mkPoolInfo (chainId p) (dexId p) (normalizedLabels p) (pairAddress p)
             (baseToken p) (quoteToken p) (priceNative p) (priceUsd p)
             (volume p) (priceChange p) l (marketCap p))
  end.

(** The thrown messages end with a dump of the response, left out here. *)
Definition poolNotFetched : JsError :=
  Error "couldn't fetch pool address info or it is not supported.".
Definition tokenNotFetched : JsError :=
  Error "couldn't fetch token address info or it is not supported.".

(** [fetchPoolInfoByPoolAddress], on the response of the HTTP call:
    [data.pair] ([None] when absent or an empty object). *)
Definition fetchPoolInfoByPoolAddress (response : JsError + option Pair)
    : JsError + DexScreenerPoolInfo :=
  match response with
  | inl e => inl e
  | inr (Some p) =>
      if String.eqb (chainId p) "solana" then poolInfoOf p else inl poolNotFetched
  | inr None => inl poolNotFetched
  end.

(** The loop over [data.pairs]: [liquidity] starts at [-1],
    [pairWithBiggestLiq] at [{}]. *)
Definition pickStep (acc : Q * option Pair) (p : Pair) : Q * option Pair :=
  if String.eqb (chainId p) "solana" then
    match liquidity p with
    | Some l => if negb (Qle_bool (usd l) acc.1) then (usd l, Some p) else acc
    | None => acc
    end
  else acc.

Definition pairWithBiggestLiq (pairs : list Pair) : option Pair :=
  (fold_left pickStep pairs ((-1 # 1)%Q, None)).2.

(** [fetchPoolInfoByTokenAddress] and [fetchPoolInfoByMachingQuery] (the
    same code on another URL), on [data.pairs]. *)
Definition fetchPoolInfoByTokenAddress (response : JsError + option (list Pair))
    : JsError + DexScreenerPoolInfo :=
  match response with
  | inl e => inl e
  | inr (Some (p0 :: ps)) =>
      match pairWithBiggestLiq (p0 :: ps) with
      | Some p => poolInfoOf p
      | None => inl tokenNotFetched
      end
  | inr _ => inl tokenNotFetched
  end.

Definition fetchPoolInfoByMachingQuery := fetchPoolInfoByTokenAddress.

(** The cache: [keys], a map from a pool or token address to the pool
    information and the time it was stored ([Date.now()], milliseconds). *)
Definition Cache := gmap string (DexScreenerPoolInfo * Z).

Definition saveByPoolAddress (id : string) (poolInfo : DexScreenerPoolInfo)
    (now : Z) (c : Cache) : Cache := <[id := (poolInfo, now)]> c.

Definition saveByTokenAddress := saveByPoolAddress.

(** [getByPoolAddress(poolId)]; [fetch] is the HTTP call, made only on a
    miss, [now] the clock at that moment. *)
Definition getByPoolAddress (fetch : string → JsError + option Pair) (now : Z)
    (poolId : string) (c : Cache) : (JsError + DexScreenerPoolInfo) * Cache :=
  match c !! poolId with
  | Some entry => (inr entry.1, c)
  | None =>
      match fetchPoolInfoByPoolAddress (fetch poolId) with
      | inl e => (inl e, c)
      | inr poolInfo => (inr poolInfo, saveByPoolAddress poolId poolInfo now c)
      end
  end.

Definition getByTokenAddress (fetch : string → JsError + option (list Pair))
    (now : Z) (tokenId : string) (c : Cache)
    : (JsError + DexScreenerPoolInfo) * Cache :=
  match c !! tokenId with
  | Some entry => (inr entry.1, c)
  | None =>
      match fetchPoolInfoByTokenAddress (fetch tokenId) with
      | inl e => (inl e, c)
      | inr poolInfo => (inr poolInfo, saveByTokenAddress tokenId poolInfo now c)
      end
  end.

(** [getByMachingQuery(query)] always fetches; [now1] and [now2] are the
    clock at the two saves. *)
Definition getByMachingQuery (fetch : string → JsError + option (list Pair))
    (now1 now2 : Z) (query : string) (c : Cache)
    : (JsError + DexScreenerPoolInfo) * Cache :=
  match fetchPoolInfoByMachingQuery (fetch query) with
  | inl e => (inl e, c)
  | inr poolInfo =>
      (inr poolInfo,
       saveByPoolAddress (pi_poolAddress poolInfo) poolInfo now2
         (saveByTokenAddress (address (pi_baseToken poolInfo)) poolInfo now1 c))
  end.

(** [invalidateOldEntries(maxCacheTTL)], run by the timer. *)
Definition invalidateOldEntries (maxCacheTTL : Z) (now : Z) (c : Cache) : Cache :=
  filter (fun kv => ¬ (now - kv.2.2 > maxCacheTTL * 1000)) c.

End Dex.

Section DexFacts.

Import Dex.

(** What the loop of [fetchPoolInfoByTokenAddress] has established after
    the pairs [seen]. *)
Definition pickInv (seen : list Pair) (acc : Q * option Pair) : Prop :=
  (∀ q lq, q ∈ seen → chainId q = "solana" → liquidity q = Some lq →
     (usd lq <= acc.1)%Q)
  ∧ match acc.2 with
    | None => acc.1 = (-1 # 1)%Q
    | Some p =>
        ∃ l before after,
          seen = before ++ p :: after
          ∧ chainId p = "solana" ∧ liquidity p = Some l ∧ acc.1 = usd l
          ∧ (-1 # 1 < usd l)%Q
          ∧ (∀ q lq, q ∈ before → chainId q = "solana" →
               liquidity q = Some lq → (usd lq < usd l)%Q)
    end.

Lemma pickInv_step seen acc p :
  pickInv seen acc → pickInv (seen ++ [p]) (pickStep acc p).
Proof.
  intros [Hmax Hbest]. unfold pickStep.
  assert (Hkeep : (∀ lq, chainId p = "solana" → liquidity p = Some lq →
                     (usd lq <= acc.1)%Q) → pickInv (seen ++ [p]) acc).
  { intros Hp. split.
    - intros q lq Hq Hs Hl. apply elem_of_app in Hq as [Hq | Hq]; [eauto |].
      apply list_elem_of_singleton in Hq as ->. eauto.
    - destruct acc.2 as [b |]; [| exact Hbest].
      destruct Hbest as (l & before & after & -> & ? & ? & ? & ? & ?).
      exists l, before, (after ++ [p]). rewrite <- app_assoc. auto 10. }
  destruct (String.eqb_spec (chainId p) "solana") as [Hs | Hs];
    [| apply Hkeep; intros; contradiction].
  destruct (liquidity p) as [l |] eqn:Hl; [| apply Hkeep; intros; discriminate].
  destruct (Qle_bool (usd l) acc.1) eqn:Hle; cbn [negb].
  - apply Hkeep. intros lq _ [= <-]. now apply Qle_bool_iff.
  - assert (Hlt : (acc.1 < usd l)%Q).
    { apply Qnot_le_lt. intros H. apply Qle_bool_iff in H. congruence. }
    split; cbn [fst snd].
    + intros q lq Hq Hsq Hlq. apply elem_of_app in Hq as [Hq | Hq].
      * apply Qle_trans with acc.1; [eauto | now apply Qlt_le_weak].
      * apply list_elem_of_singleton in Hq as ->.
        assert (lq = l) as -> by congruence. apply Qle_refl.
    + exists l, seen, []. repeat split; auto.
      * destruct acc.2 as [b |].
        -- destruct Hbest as (lb & ? & ? & _ & _ & _ & Hb & Hpos & _).
           rewrite Hb in Hlt. now apply Qlt_trans with (usd lb).
        -- now rewrite Hbest in Hlt.
      * intros q lq Hq Hsq Hlq.
        apply Qle_lt_trans with acc.1; [eauto | exact Hlt].
Qed.

Lemma pickInv_fold rest : ∀ seen acc,
  pickInv seen acc → pickInv (seen ++ rest) (fold_left pickStep rest acc).
Proof.
  induction rest as [| p rest IH]; intros seen acc H; cbn [fold_left].
  - now rewrite app_nil_r.
  - replace (seen ++ p :: rest) with ((seen ++ [p]) ++ rest)
      by now rewrite <- app_assoc.
    apply IH, pickInv_step, H.
Qed.

Lemma pickInv_all pairs : pickInv pairs (fold_left pickStep pairs ((-1 # 1)%Q, None)).
Proof.
  apply (pickInv_fold pairs [] ((-1 # 1)%Q, None)).
  split; [intros q lq Hq; inversion Hq | reflexivity].
Qed.

Lemma normalizedLabels_raydium p :
  dexId p = "raydium" → normalizedLabels p ≠ [].
Proof.
  intros Hd. unfold normalizedLabels. rewrite Hd. cbn [String.eqb Ascii.eqb Bool.eqb andb].
  destruct (default [] (labels p)) as [| x l]; cbn; discriminate.
Qed.

(** X17: when [fetchPoolInfoByTokenAddress] returns a pool, it is a Solana
    pair of the response that has liquidity data, its liquidity in USD is
    the largest among such pairs, and among equals it is the first; pairs of
    other chains and pairs without liquidity data never win.  A pool of
    [raydium] always has a first label. *)
Theorem token_lookup_picks_deepest_pool
    (response : JsError + option (list Pair)) (info : DexScreenerPoolInfo) :
  fetchPoolInfoByTokenAddress response = inr info →
  ∃ before p after l,
    response = inr (Some (before ++ p :: after))
    ∧ chainId p = "solana" ∧ liquidity p = Some l
    ∧ pi_poolAddress info = pairAddress p ∧ pi_priceUsd info = priceUsd p
    ∧ pi_liquidity info = l
    ∧ (∀ q lq, q ∈ before → chainId q = "solana" → liquidity q = Some lq →
         (usd lq < usd l)%Q)
    ∧ (∀ q lq, q ∈ after → chainId q = "solana" → liquidity q = Some lq →
         (usd lq <= usd l)%Q)
    ∧ (pi_dexId info = "raydium" → pi_labels info ≠ []).
Proof.
  unfold fetchPoolInfoByTokenAddress. intros H.
  destruct response as [e | [[| p0 ps] |]]; try discriminate.
  pose proof (pickInv_all (p0 :: ps)) as [Hmax Hbest].
  unfold pairWithBiggestLiq in H.
  destruct (fold_left pickStep (p0 :: ps) _) as [m [p |]]; cbn [fst snd] in *;
    [| discriminate].
  destruct Hbest as (l & before & after & Heq & Hs & Hl & -> & _ & Hbefore).
  unfold poolInfoOf in H. rewrite Hl in H. injection H as <-.
  exists before, p, after, l. cbn. rewrite Heq.
  repeat split; auto.
  - intros q lq Hq. apply Hmax. rewrite Heq.
    apply elem_of_app. right. now apply elem_of_cons; right.
  - apply normalizedLabels_raydium.
Qed.

Definition sampleToken (a : string) : TokenInfo := mkTokenInfo a a a.
Definition noWindows : Windows := mkWindows 0 0 0 0.

Definition samplePair (chain dex addr : string) (liq : option Q) : Pair :=
  mkPair chain dex None addr (sampleToken "BONK") (sampleToken "SOL") "1" "150"
    noWindows noWindows ((fun u => mkLiquidity u 0 0) <$> liq) 0.

(** Two Solana pools of equal depth after a deeper pool of another chain
    and a pool without liquidity data. *)
Definition samplePairs : list Pair :=
  [ samplePair "ethereum" "uniswap" "E" (Some (900 # 1)%Q);
    samplePair "solana" "orca" "A" None;
    samplePair "solana" "raydium" "B" (Some (500 # 1)%Q);
    samplePair "solana" "orca" "C" (Some (500 # 1)%Q) ].

Definition samplePoolInfo : DexScreenerPoolInfo :=
  mkPoolInfo "solana" "raydium" ["AMM"] "B" (sampleToken "BONK") (sampleToken "SOL")
    "1" "150" noWindows noWindows (mkLiquidity (500 # 1)%Q 0 0) 0.

Lemma token_lookup_sample_pairs :
  ∃ before p after l,
    @inr JsError _ (Some samplePairs) = inr (Some (before ++ p :: after))
    ∧ chainId p = "solana" ∧ liquidity p = Some l
    ∧ pi_poolAddress samplePoolInfo = pairAddress p
    ∧ pi_priceUsd samplePoolInfo = priceUsd p
    ∧ pi_liquidity samplePoolInfo = l
    ∧ (∀ q lq, q ∈ before → chainId q = "solana" → liquidity q = Some lq →
         (usd lq < usd l)%Q)
    ∧ (∀ q lq, q ∈ after → chainId q = "solana" → liquidity q = Some lq →
         (usd lq <= usd l)%Q)
    ∧ (pi_dexId samplePoolInfo = "raydium" → pi_labels samplePoolInfo ≠ []).
Proof.
  apply (token_lookup_picks_deepest_pool (inr (Some samplePairs)) samplePoolInfo).
  reflexivity.
Defined.

(** X18: a pool fetched for a token on a cache miss at time [now] is
    served from the cache, without any request, after every invalidation
    pass run at a time [t] with [t - now <= maxCacheTTL * 1000]; after a
    pass run later than that the entry is gone and the next call fetches
    again (and stores what it fetched). *)
Theorem cache_entry_lifetime
    (fetch fetch' : string → JsError + option (list Pair)) (now now' : Z)
    (tokenId : string) (c c' : Cache) (info : DexScreenerPoolInfo)
    (maxCacheTTL t : Z) :
  c !! tokenId = None →
  getByTokenAddress fetch now tokenId c = (inr info, c') →
  let kept := invalidateOldEntries maxCacheTTL t c' in
  getByTokenAddress fetch' now' tokenId kept =
    if decide (t - now ≤ maxCacheTTL * 1000) then (inr info, kept)
    else match fetchPoolInfoByTokenAddress (fetch' tokenId) with
         | inl e => (inl e, kept)
         | inr info' => (inr info', saveByTokenAddress tokenId info' now' kept)
         end.
Proof.
  intros Hmiss Hget kept. unfold getByTokenAddress in Hget. rewrite Hmiss in Hget.
  destruct (fetchPoolInfoByTokenAddress (fetch tokenId)) as [e | i]; [discriminate |].
  injection Hget as -> <-.
  unfold getByTokenAddress at 1.
  destruct (decide (t - now ≤ maxCacheTTL * 1000)) as [Hfresh | Hold].
  - assert (kept !! tokenId = Some (info, now)) as ->; [| reflexivity].
    apply map_lookup_filter_Some. split.
    + apply lookup_insert_eq.
    + cbn. lia.
  - assert (kept !! tokenId = None) as ->; [| reflexivity].
    apply map_lookup_filter_None. right. intros x Hx.
    unfold saveByTokenAddress, saveByPoolAddress in Hx.
    apply lookup_insert_Some in Hx as [[_ <-] | [? _]]; [cbn; lia | congruence].
Qed.

Lemma cache_entry_lifetime_sample :
  let fetch := fun _ : string => @inr JsError _ (Some samplePairs) in
  let c' := saveByTokenAddress "BONK" samplePoolInfo 1000 ∅ in
  let kept := invalidateOldEntries 60 61000 c' in
  getByTokenAddress (fun _ => inl (Error "offline")) 61500 "BONK" kept =
    if decide (61000 - 1000 ≤ 60 * 1000) then (inr samplePoolInfo, kept)
    else match fetchPoolInfoByTokenAddress (inl (Error "offline")) with
         | inl e => (inl e, kept)
         | inr info' => (inr info', saveByTokenAddress "BONK" info' 61500 kept)
         end.
Proof.
  apply (cache_entry_lifetime (fun _ => inr (Some samplePairs))
           (fun _ => inl (Error "offline")) 1000 61500 "BONK" ∅ _ samplePoolInfo 60 61000).
  - reflexivity.
  - reflexivity.
Defined.

End DexFacts.

(** * routers/v1/user/setSelectedSellPercent: the amount to sell *)

(** [x.toFixed(dp, BigNumber.ROUND_DOWN)]: [x] cut to [dp] decimals, toward
    zero.  bignumber.js refuses a [dp] outside [0 .. 1e9]. *)
Definition bnToFixedDown (dp : Z) (x : Q) : option Q :=
  if ((dp <? 0) || (10 ^ 9 <? dp))%bool then None
  else Some (Qmake (Z.quot (Qnum x * 10 ^ dp) (Zpos (Qden x))) (Z.to_pos (10 ^ dp))).

(** [new BigNumber(wallet.confirmedBalance).multipliedBy(percent).div(100)
      .toFixed(wallet.token.unitDecimals, BigNumber.ROUND_DOWN)]
    where [wallet] is the result of [getWalletBalance], whose
    [confirmedBalance] is already divided by [10 ^ unitDecimals]. *)
Definition selectedSellAmountOf (available percent : Q) (unitDecimals : Z) : option Q :=
  bnToFixedDown unitDecimals (bnDiv (available * percent) 100).

Lemma Qmake_le_same (a b : Z) (d : positive) : a ≤ b → (Qmake a d <= Qmake b d)%Q.
Proof. intros H. unfold Qle. cbn. nia. Qed.

Lemma bnRound20_nonneg (q : Q) : (0 <= q)%Q → (0 <= bnRound20 q)%Q.
Proof.
  intros Hq. unfold bnRound20.
  assert (Hs : (0 <= q * inject_Z (10 ^ 20))%Q).
  { apply Qmult_le_0_compat; [exact Hq |]. unfold Qle. cbn. lia. }
  apply Qle_bool_iff in Hs as Hb. rewrite Hb.
  assert (Hf : 0 ≤ Qfloor (q * inject_Z (10 ^ 20) + (1 # 2))).
  { change 0 with (Qfloor 0). apply Qfloor_resp_le.
    apply Qle_trans with (q * inject_Z (10 ^ 20))%Q; [exact Hs |].
    rewrite <- (Qplus_0_r (q * inject_Z (10 ^ 20))) at 1.
    apply Qplus_le_r. discriminate. }
  unfold Qle. cbn [Qnum Qden]. lia.
Qed.

(** Rounding half up never passes a value of the 20-decimal grid that
    bounds the argument from above. *)
Lemma bnRound20_le_grid (q : Q) (n : Z) :
  (0 <= q)%Q → (q <= Qmake n (Z.to_pos (10 ^ 20)))%Q →
  (bnRound20 q <= Qmake n (Z.to_pos (10 ^ 20)))%Q.
Proof.
  intros Hq Hle. unfold bnRound20.
  assert (Hs : (0 <= q * inject_Z (10 ^ 20))%Q).
  { apply Qmult_le_0_compat; [exact Hq |]. unfold Qle. cbn. lia. }
  apply Qle_bool_iff in Hs as Hb. rewrite Hb.
  apply Qmake_le_same.
  rewrite <- (Qfloor_half n). apply Qfloor_resp_le, Qplus_le_l.
  apply Qle_trans with (Qmake n (Z.to_pos (10 ^ 20)) * inject_Z (10 ^ 20))%Q.
  - apply Qmult_le_compat_r; [exact Hle |]. unfold Qle. cbn. lia.
  - unfold Qle, Qmult, inject_Z. cbn. lia.
Qed.

Lemma bnPow10_nonneg (d : Z) : (0 <= bnPow10 d)%Q.
Proof.
  unfold bnPow10. destruct (0 <=? d) eqn:Hd.
  - unfold Qle. cbn. pose proof (Z.pow_nonneg 10 d). lia.
  - apply bnRound20_nonneg. apply Qle_shift_div_l.
    + unfold Qlt. cbn. assert (0 < 10 ^ (- d)) by (apply Z.pow_pos_nonneg; lia). lia.
    + rewrite Qmult_0_l. discriminate.
Qed.

Lemma available_nonneg (confirmedBalance unitDecimals : Z) :
  0 ≤ confirmedBalance →
  (0 <= bnDiv (inject_Z confirmedBalance) (bnPow10 unitDecimals))%Q.
Proof.
  intros Hc. apply bnRound20_nonneg. unfold Qdiv.
  apply Qmult_le_0_compat.
  - unfold Qle. cbn. lia.
  - apply Qinv_le_0_compat, bnPow10_nonneg.
Qed.

Lemma bnToFixedDown_bounds (dp : Z) (x a : Q) :
  (0 <= x)%Q → bnToFixedDown dp x = Some a → (0 <= a)%Q ∧ (a <= x)%Q.
Proof.
  unfold bnToFixedDown. intros Hx H.
  destruct (dp <? 0) eqn:Hd; [discriminate |].
  destruct (10 ^ 9 <? dp); [discriminate |]. cbn [orb] in H. injection H as <-.
  apply Z.ltb_ge in Hd.
  assert (Hp : 0 < 10 ^ dp) by (apply Z.pow_pos_nonneg; lia).
  destruct x as [n d]. unfold Qle in *. cbn in *.
  rewrite Z2Pos.id by lia.
  assert (Hn : 0 ≤ n) by lia.
  rewrite Z.quot_div_nonneg by nia.
  pose proof (Z.div_pos (n * 10 ^ dp) (Z.pos d) ltac:(nia) ltac:(lia)).
  pose proof (Z.mul_div_le (n * 10 ^ dp) (Z.pos d) ltac:(lia)).
  split; nia.
Qed.

(** X19: the amount that [setSelectedSellPercent] derives from a percentage
    in (0, 100] of a wallet with a non-negative confirmed balance is
    non-negative and never exceeds the balance that [getWalletBalance]
    reports, so the comparison of [create] ([selectedSellAmount] greater
    than the balance) does not refuse it while the balance is unchanged. *)
Theorem sell_percent_amount_within_balance
    (confirmedBalance unitDecimals : Z) (percent a : Q) :
  0 ≤ confirmedBalance → (0 < percent)%Q → (percent <= 100)%Q →
  let available := bnDiv (inject_Z confirmedBalance) (bnPow10 unitDecimals) in
  selectedSellAmountOf available percent unitDecimals = Some a →
  (0 <= a)%Q ∧ (a <= available)%Q ∧ bnGt a available = false.
Proof.
  intros Hc Hp0 Hp100 available Ha.
  assert (Hav : (0 <= available)%Q) by now apply available_nonneg.
  assert (Hprod : (0 <= available * percent / 100)%Q).
  { apply Qle_shift_div_l; [reflexivity |]. rewrite Qmult_0_l.
    apply Qmult_le_0_compat; [exact Hav | now apply Qlt_le_weak]. }
  assert (Hle : (available * percent / 100 <= available)%Q).
  { apply Qle_shift_div_r; [reflexivity |].
    rewrite (Qmult_comm available percent), (Qmult_comm available 100).
    apply Qmult_le_compat_r; assumption. }
  unfold selectedSellAmountOf in Ha.
  apply bnToFixedDown_bounds in Ha as [Ha0 Hab];
    [| apply bnRound20_nonneg, Hprod].
  assert (Hround : (bnDiv (available * percent) 100 <= available)%Q).
  { unfold bnDiv. unfold available at 2. unfold bnDiv at 1. unfold bnRound20 at 2.
    apply bnRound20_le_grid; [exact Hprod |]. exact Hle. }
  assert (a <= available)%Q by (eapply Qle_trans; eassumption).
  repeat split; auto.
  unfold bnGt. apply negb_false_iff, Qle_bool_iff. assumption.
Qed.

(** Forty percent of 100 tokens of 6 decimals. *)
Lemma sell_percent_amount_scenario_D :
  let available := bnDiv (inject_Z 100000000) (bnPow10 6) in
  (0 <= 40000000 # 1000000)%Q ∧ (40000000 # 1000000 <= available)%Q
  ∧ bnGt (40000000 # 1000000) available = false.
Proof.
  apply (sell_percent_amount_within_balance 100000000 6 (40 # 1) (40000000 # 1000000)).
  - lia.
  - reflexivity.
  - unfold Qle. simpl. lia.
  - vm_compute. reflexivity.
Defined.

Lemma bnRound20_exact (q : Q) (n : Z) :
  (q * inject_Z (10 ^ 20) == inject_Z n)%Q →
  bnRound20 q = Qmake n (Z.to_pos (10 ^ 20)).
Proof.
  intros Hs. unfold bnRound20. f_equal.
  destruct (Qle_bool 0 _).
  - rewrite <- (Qfloor_half n). apply Qfloor_comp. now rewrite Hs.
  - assert (Qfloor (- (q * inject_Z (10 ^ 20)) + (1 # 2)) = - n) as ->; [| lia].
    rewrite <- (Qfloor_half (- n)). apply Qfloor_comp.
    now rewrite Hs, inject_Z_opp.
Qed.

(** X20: for a token of at most 20 decimals, one hundred percent selects
    exactly the whole confirmed balance: the amount is
    [confirmedBalance / 10 ^ unitDecimals], with no loss to the division or
    to the rounding down. *)
Theorem sell_all_selects_whole_balance (confirmedBalance unitDecimals : Z) :
  0 ≤ confirmedBalance → 0 ≤ unitDecimals ≤ 20 →
  selectedSellAmountOf (bnDiv (inject_Z confirmedBalance) (bnPow10 unitDecimals))
    100 unitDecimals
  = Some (Qmake confirmedBalance (Z.to_pos (10 ^ unitDecimals))).
Proof.
  intros Hc Hd.
  assert (Hp : 0 < 10 ^ unitDecimals) by (apply Z.pow_pos_nonneg; lia).
  set (k := 10 ^ (20 - unitDecimals)).
  assert (Hk0 : 0 < k) by (apply Z.pow_pos_nonneg; lia).
  assert (Hk : 10 ^ 20 = k * 10 ^ unitDecimals).
  { unfold k. rewrite <- Z.pow_add_r by lia. f_equal. lia. }
  assert (Hne : ¬ (inject_Z (10 ^ unitDecimals) == 0)%Q).
  { intros H0. unfold Qeq in H0. simpl in H0. lia. }
  assert (Hav : bnDiv (inject_Z confirmedBalance) (bnPow10 unitDecimals)
                = Qmake (confirmedBalance * k) (Z.to_pos (10 ^ 20))).
  { unfold bnDiv, bnPow10. destruct (Z.leb_spec 0 unitDecimals); [| lia].
    apply bnRound20_exact. rewrite Hk, !inject_Z_mult. field. exact Hne. }
  unfold selectedSellAmountOf. rewrite Hav.
  assert (Hdiv : bnDiv (Qmake (confirmedBalance * k) (Z.to_pos (10 ^ 20)) * 100) 100
                 = Qmake (confirmedBalance * k) (Z.to_pos (10 ^ 20))).
  { unfold bnDiv. apply bnRound20_exact.
    rewrite Qmake_Qdiv, Z2Pos.id by reflexivity. field.
    intros H0. unfold Qeq in H0. simpl in H0. lia. }
  rewrite Hdiv. unfold bnToFixedDown.
  destruct (Z.ltb_spec unitDecimals 0); [lia |].
  destruct (Z.ltb_spec (10 ^ 9) unitDecimals); [lia |]. cbn [orb Qnum Qden].
  do 2 f_equal. rewrite Z2Pos.id by reflexivity.
  rewrite Hk. replace (confirmedBalance * k * 10 ^ unitDecimals)
    with (confirmedBalance * (k * 10 ^ unitDecimals)) by ring.
  apply Z.quot_mul. lia.
Qed.

Lemma sell_all_scenario_D :
  selectedSellAmountOf (bnDiv (inject_Z 100000000) (bnPow10 6)) 100 6
  = Some (Qmake 100000000 (Z.to_pos (10 ^ 6))).
Proof.
  apply (sell_all_selects_whole_balance 100000000 6); lia.
Defined.

(** * routers/v1/on-chain-swap/createDCA *)

Lemma getUser_unchanged (telegramId : Z) (w : World) : (getUser telegramId w).2 = w.
Proof. unfold getUser. unfold_monad. repeat case_match; reflexivity. Qed.

Lemma getWalletBalance_unchanged (userId : Z) (inputMint : string) (w : World) :
  (getWalletBalance userId inputMint w).2 = w.
Proof. unfold getWalletBalance. unfold_monad. repeat case_match; reflexivity. Qed.

(** What [createDCATransaction] is called with, and what it returns once
    [createDCA] has compiled and signed the message ([dca_signature]). *)
Record DCARequest := mkDCARequest {
  dca_inputMint : string;
  dca_outputMint : string;
  dca_inAmount : Z;
  dca_inAmountPerCycle : Z;
  dca_cycleSecondsApart : Z;
  dca_direction : OrderDirection;
  dca_tokenUsdPrice : Q;
  dca_priorityFee : Z
}.

Record SignedDCA := mkSignedDCA {
  dca_pubKey : string;
  dca_signature : string;
  dca_inputATA : string;
  dca_outputATA : string;
  dca_rawInAmount : Z;
  dca_inAmountInUsd : Q;
  dca_ourFeeInLamports : Z
}.

Section DCA.

Variable env : Env.

(** [Keypair.fromSecretKey(bs58.decode(secret))] and [new PublicKey(mint)]
    throw on malformed text; a keypair is represented by
    [publicKey.toBase58()].  The Jupiter DCA program, the token-decimals
    lookups and the signing are [buildDCA], asked at a logical time. *)
Variable fromSecretKey : string → JsError + string.
Variable validPublicKey : string → bool.
Variable buildDCA : nat → DCARequest → JsError + SignedDCA.

(** [createDCATransaction]: an empty amount is refused first. *)
Definition createDCATransaction (t : nat) (payer : string) (req : DCARequest)
    : JsError + SignedDCA :=
  if dca_inAmount req =? 0 then
    inl (Error (payer +:+ ": Empty balance, can't sell"))
  else buildDCA t req.

(** [createDCA]: [inl] is what reaches [next(e)]; on [inr] the handler
    returns without sending a response. *)
Definition createDCA (telegramId : Z) : M unit :=
  let* lu := getUser telegramId in
  let user := lu_user lu in
  let direction := User.selectedOrderDirection user in
  (* Check user has enough balance *)
  let* inputWalletBalance :=
    match direction with
    | buy =>
        ret (bnDiv (inject_Z (Wallet.confirmedBalance (lu_defaultWallet lu)))
                   (bnPow10 (User.selectedInputDecimals user)))
    | sell =>
        match User.selectedInputMint user with
        | None => throw (Error "TypeError")
        | Some inputMint =>
            let* r := getWalletBalance (lu_id lu) inputMint in ret r.2
        end
    end in
  if match direction with
     | buy => bnGt (User.selectedInputAmount user) inputWalletBalance
     | sell => bnGt (User.selectedSellAmount user) inputWalletBalance
     end
  then throw (Error "User doesn't have enough balance")
  else
    let* keypair := await (fromSecretKey (Key.privateKey (lu_key lu))) in
    let priorityFee := priorityFeeHigh env in
    let* tokenUsdPrice :=
      match direction with
      | buy => let* t := now in await (priceUsdByTokenAddress env t NATIVE_MINT)
      | sell => ret (User.selectedTokenUsdPrice user)
      end in
    match User.selectedInputMint user, User.selectedOutputMint user with
    | Some inputMint, Some outputMint =>
        if negb (validPublicKey inputMint) then throw (Error "Invalid public key input")
        else if negb (validPublicKey outputMint) then
          throw (Error "Invalid public key input")
        else
          let* t := now in
          let* tx := await (createDCATransaction t keypair
                       (mkDCARequest inputMint outputMint
                          (User.selectedDCAInAmount user)
                          (User.selectedDCAInAmountPerCycle user)
                          (User.selectedDCACycleSecondsApart user)
                          direction tokenUsdPrice priorityFee)) in
          (* Send the transaction and create the order in DB *)
          let* _ := transactionalCreateOrderAndSendToNetwork env (lu_id lu)
                      (dca_signature tx) (dca_inputATA tx) (dca_outputATA tx)
                      (dca_rawInAmount tx) (dca_inAmountInUsd tx)
                      (dca_ourFeeInLamports tx) priorityFee (currentBlockhash env)
                      None (Some (dca_pubKey tx)) in
          ret tt
    | _, _ => throw (Error "Invalid public key input")
    end.

(** How one call of [createDCA] ends: without any effect, or with the
    effect of the one submission it makes for what the builder returned. *)
Definition dcaOutcome (w : World) (lu : LoadedUser)
    (r : (JsError + unit) * World) : Prop :=
  (∃ e, r = (inl e, w))
  ∨ ∃ t req tx,
      buildDCA t req = inr tx
      ∧ dca_inAmount req = User.selectedDCAInAmount (lu_user lu)
      ∧ dca_inAmount req ≠ 0
      ∧ r.2 =
        (transactionalCreateOrderAndSendToNetwork env (lu_id lu)
           (dca_signature tx) (dca_inputATA tx) (dca_outputATA tx)
           (dca_rawInAmount tx) (dca_inAmountInUsd tx)
           (dca_ourFeeInLamports tx) (priorityFeeHigh env) (currentBlockhash env)
           None (Some (dca_pubKey tx)) w).2.

Lemma createDCA_cases (telegramId : Z) (w : World) :
  (∃ e, createDCA telegramId w = (inl e, w))
  ∨ ∃ lu, getUser telegramId w = (inr lu, w)
          ∧ dcaOutcome w lu (createDCA telegramId w).
Proof.
  pose proof (getUser_unchanged telegramId w) as Hpure.
  unfold createDCA, createDCATransaction. unfold_monad.
  destruct (getUser telegramId w) as [[e | lu] w0] eqn:Hu; cbn [fst snd] in *;
    subst w0; [left; eauto |].
  right. exists lu. split; [reflexivity |].
  repeat (match goal with
          | |- dcaOutcome _ _ ?t =>
              is_stuck_match t; let s := stuck t in
              lazymatch s with
              | getWalletBalance ?u ?m ?w0 =>
                  let H := fresh "Hb" in
                  pose proof (getWalletBalance_unchanged u m w0) as H;
                  destruct s as [[? | ?] ?]; cbn [snd] in H; subst
              | transactionalCreateOrderAndSendToNetwork _ _ _ _ _ _ _ _ _ _ _ _ _ =>
                  idtac
              | _ => destruct s eqn:?
              end
          end; cbn [db log fst snd]).
  all: try (left; eexists; reflexivity).
  all: right; do 3 eexists; (split; [eassumption |]); cbn [dca_inAmount].
  all: (split; [reflexivity |]); (split; [apply Z.eqb_neq; assumption |]).
  all: destruct (transactionalCreateOrderAndSendToNetwork _ _ _ _ _ _ _ _ _ _ _ _ _)
         as [[? | ?] ?]; reflexivity.
Qed.

End DCA.

(** X21: every order that [createDCA] persists is recorded with type
    [swap] and direction [buy] (the selection is reset before the row is
    built) and in status [submitted]; it carries the signature, the raw
    amount and the fee of a transaction that the builder returned for a
    non-zero amount.  (The row has no column for the DCA account key that
    the builder returns with the transaction.) *)
Theorem dca_order_recorded_as_swap (env : Env)
    (fromSecretKey : string → JsError + string) (validPublicKey : string → bool)
    (buildDCA : nat → DCARequest → JsError + SignedDCA)
    (telegramId : Z) (w : World) (id : Z) (o : Order.t) :
  let r := createDCA env fromSecretKey validPublicKey buildDCA telegramId w in
  orders (db w) !! id = None → orders (db r.2) !! id = Some o →
  Order.orderType o = swap ∧ Order.orderDirection o = buy
  ∧ Order.status o = submitted
  ∧ ∃ t req tx,
      buildDCA t req = inr tx ∧ dca_inAmount req ≠ 0
      ∧ Order.transactionId o = Some (dca_signature tx)
      ∧ Order.inAmount o = dca_rawInAmount tx
      ∧ Order.commission o = dca_ourFeeInLamports tx.
Proof.
  intros r Hold Hnew. subst r.
  destruct (createDCA_cases env fromSecretKey validPublicKey buildDCA telegramId w)
    as [[e He] | (lu & _ & [[e He] | (t & req & tx & Hb & _ & Hne & Hr)])].
  - rewrite He in Hnew. cbn [snd] in Hnew. congruence.
  - rewrite He in Hnew. cbn [snd] in Hnew. congruence.
  - rewrite Hr in Hnew.
    pose proof (submit_outcome env (lu_id lu) (dca_signature tx) (dca_inputATA tx)
                  (dca_outputATA tx) (dca_rawInAmount tx) (dca_inAmountInUsd tx)
                  (dca_ourFeeInLamports tx) (priorityFeeHigh env)
                  (currentBlockhash env) None (Some (dca_pubKey tx)) w) as Hout.
    inversion Hout as [e evs Hev Heq | e evs Hev Heq |
                       s u marketId inputWalletId iw outputWalletId orderId
                         wallets1 evs writes Hperm Hu Hiw Hw1 Hfresh Heq];
      rewrite <- Heq in Hnew; cbn [snd db orders] in Hnew; try congruence.
    destruct (decide (orderId = id)) as [-> | Hneq].
    + rewrite lookup_insert_eq in Hnew. injection Hnew as <-.
      cbn. do 3 (split; [reflexivity |]). exists t, req, tx. auto 10.
    + rewrite lookup_insert_ne in Hnew by exact Hneq. congruence.
Qed.

Module DcaScenario.

(** A buyer who has selected a DCA of 5 units, 1 per day. *)
Definition dcaTrader : User.t :=
  User.mk 42 (Some 1) "0" buy dca (Some "Pool1") (Some NATIVE_MINT) (Some "TokenMint")
    (4 # 10000) 9 (Some (250 # 1)) 6 0 100 (40 # 1) (1 # 1) 1500 0 5 1 86400.

Definition world : World :=
  mkWorld (withUsers (fun _ => {[ 1 := dcaTrader ]}) (Scenario.store buy 1000000 0)) [].

Definition builder (t : nat) (req : DCARequest) : JsError + SignedDCA :=
  inr (mkSignedDCA "DcaAccount" "sig-dca" "UserWsolAccount" "UserTokenAccount"
         (dca_inAmount req * 1000) (5 # 1) 50).

Definition order : Order.t :=
  Order.mk 1 1 1 2 (Some "sig-dca") 5000 (5 # 1) None 50 0 swap buy
    false submitted
    (Some (mkOrderDetails (Some Scenario.blockhash0) 5)).

End DcaScenario.

Lemma dca_order_recorded_scenario :
  Order.orderType DcaScenario.order = swap ∧ Order.orderDirection DcaScenario.order = buy
  ∧ Order.status DcaScenario.order = submitted
  ∧ ∃ t req tx,
      DcaScenario.builder t req = inr tx ∧ dca_inAmount req ≠ 0
      ∧ Order.transactionId DcaScenario.order = Some (dca_signature tx)
      ∧ Order.inAmount DcaScenario.order = dca_rawInAmount tx
      ∧ Order.commission DcaScenario.order = dca_ourFeeInLamports tx.
Proof.
  apply (dca_order_recorded_as_swap Scenario.quiet (fun _ => inr "UserSol")
           (fun _ => true)
           DcaScenario.builder 42 DcaScenario.world 1 DcaScenario.order).
  - reflexivity.
  - vm_compute. reflexivity.
Defined.

(** X22: [createDCA] for a user whose selected DCA amount is zero ends in
    an error and leaves the world exactly as it was: nothing is persisted
    and nothing is broadcast. *)
Theorem dca_refused_without_amount (env : Env)
    (fromSecretKey : string → JsError + string) (validPublicKey : string → bool)
    (buildDCA : nat → DCARequest → JsError + SignedDCA)
    (telegramId : Z) (w : World) :
  (∀ lu, getUser telegramId w = (inr lu, w) →
         User.selectedDCAInAmount (lu_user lu) = 0) →
  ∃ e, createDCA env fromSecretKey validPublicKey buildDCA telegramId w = (inl e, w).
Proof.
  intros Hzero.
  destruct (createDCA_cases env fromSecretKey validPublicKey buildDCA telegramId w)
    as [He | (lu & Hu & [He | (t & req & tx & _ & Hreq & Hne & _)])]; try exact He.
  rewrite (Hzero lu Hu) in Hreq. contradiction.
Qed.

Lemma dca_refused_scenario_A :
  ∃ e, createDCA Scenario.quiet (fun _ => inr "UserSol") (fun _ => true)
         DcaScenario.builder 42 (Scenario.world0 buy 1000000 0)
       = (inl e, Scenario.world0 buy 1000000 0).
Proof.
  apply (dca_refused_without_amount Scenario.quiet (fun _ => inr "UserSol")
           (fun _ => true)
           DcaScenario.builder 42 (Scenario.world0 buy 1000000 0)).
  intros lu H. vm_compute in H. injection H as <-. reflexivity.
Defined.
